(** * amp-benchkit: sweep post-processing pipeline ([amp_benchkit/sweeps.py])

    A shallow embedding of the numerical helpers and of the two sweep
    drivers of [sweeps.py], together with the two functions of [tek.py]
    that the drivers call during their cleanup.

    Python floats are IEEE 754 binary64 values.  They are modelled by the
    [spec_float] datatype of the standard library, instantiated at
    precision 53 and maximal exponent 1024.  Python [int]s are [Z],
    [str]s are ASCII [string]s, lists are [list]s, [None]-able values are
    [option]s. *)

From Stdlib Require Import ZArith List Bool Lia String Ascii DecimalString Sorted.
From Stdlib Require Import SpecFloat PrimFloat FloatOps.
From Stdlib Require DecimalZ DecimalPos DecimalFacts.
Import ListNotations.

Local Open Scope string_scope.
Local Open Scope list_scope.
Local Open Scope Z_scope.

(** ** Python floats *)

Module PyFloat.

Definition float := spec_float.

Definition prec : Z := 53.
Definition emax : Z := 1024.

(** A literal denotes the binary64 value nearest to its decimal text. *)
Definition of_literal (x : PrimFloat.float) : float := Prim2SF x.

Definition nan : float := S754_nan.
Definition neg_inf : float := S754_infinity true.

(** [math.isfinite] *)
Definition isfinite (x : float) : bool :=
  match x with
  | S754_nan | S754_infinity _ => false
  | S754_zero _ | S754_finite _ _ _ => true
  end.

(** [x < y], [x > y], [x <= y] and [x == y]. *)
Definition ltb (x y : float) : bool := SFltb x y.
Definition gtb (x y : float) : bool := SFltb y x.
Definition leb (x y : float) : bool := SFleb x y.
Definition eqb (x y : float) : bool := SFeqb x y.

(** [abs(x)] *)
Definition abs (x : float) : float := SFabs x.

Definition mul (x y : float) : float := SFmul prec emax x y.
Definition add (x y : float) : float := SFadd prec emax x y.
Definition sub (x y : float) : float := SFsub prec emax x y.
Definition div (x y : float) : float := SFdiv prec emax x y.

(** The builtin [max(a, b)] keeps its first argument unless the second
    one is strictly greater. *)
Definition max2 (a b : float) : float := if gtb b a then b else a.

End PyFloat.

Import PyFloat.

Declare Scope pyfloat_scope.
Delimit Scope pyfloat_scope with py.
Notation "x <? y" := (PyFloat.ltb x y) : pyfloat_scope.
Notation "x >? y" := (PyFloat.gtb x y) : pyfloat_scope.
Notation "x <=? y" := (PyFloat.leb x y) : pyfloat_scope.
Notation "x * y" := (PyFloat.mul x y) : pyfloat_scope.
Notation "x + y" := (PyFloat.add x y) : pyfloat_scope.
Notation "x - y" := (PyFloat.sub x y) : pyfloat_scope.
Notation "x / y" := (PyFloat.div x y) : pyfloat_scope.

(** The float constants of the source and of the examples. *)
Definition f0_0 : float := Eval vm_compute in of_literal 0%float.
Definition f1_0 : float := Eval vm_compute in of_literal 1%float.
Definition f2_0 : float := Eval vm_compute in of_literal 2%float.
Definition f3_0 : float := Eval vm_compute in of_literal 3%float.
Definition f4_0 : float := Eval vm_compute in of_literal 4%float.
Definition f5_0 : float := Eval vm_compute in of_literal 5%float.
Definition f10_0 : float := Eval vm_compute in of_literal 10%float.
Definition f20_0 : float := Eval vm_compute in of_literal 20%float.
Definition f100_0 : float := Eval vm_compute in of_literal 100%float.
Definition f200_0 : float := Eval vm_compute in of_literal 200%float.
Definition f300_0 : float := Eval vm_compute in of_literal 300%float.
Definition f1000_0 : float := Eval vm_compute in of_literal 1000%float.
Definition fm2_0 : float := Eval vm_compute in of_literal (-2)%float.
Definition f0_5 : float := Eval vm_compute in of_literal 0.5%float.
Definition f6_0 : float := Eval vm_compute in of_literal 6%float.
Definition f20000_0 : float := Eval vm_compute in of_literal 20000%float.
(** [0.01], whose nearest binary64 value is [0x1.47ae147ae147bp-7]. *)
Definition f0_01 : float :=
  Eval vm_compute in of_literal 0x1.47ae147ae147bp-7%float.
(** The binary64 value nearest to the decimal logarithm of 2. *)
Definition log10_2 : float :=
  Eval vm_compute in of_literal 0x1.34413509f79ffp-2%float.
(** [1e-12], whose nearest binary64 value is [0x1.19799812dea11p-40]. *)
Definition f1em12 : float :=
  Eval vm_compute in of_literal 0x1.19799812dea11p-40%float.

(** ** Python strings (ASCII) *)

Module PyStr.

Definition code (c : ascii) : nat := nat_of_ascii c.

Definition ascii_lower (c : ascii) : ascii :=
  if (65 <=? code c)%nat && (code c <=? 90)%nat
  then ascii_of_nat (code c + 32) else c.

Definition ascii_upper (c : ascii) : ascii :=
  if (97 <=? code c)%nat && (code c <=? 122)%nat
  then ascii_of_nat (code c - 32) else c.

Definition ascii_isdigit (c : ascii) : bool :=
  (48 <=? code c)%nat && (code c <=? 57)%nat.

Definition ascii_isspace (c : ascii) : bool :=
  ((9 <=? code c)%nat && (code c <=? 13)%nat)
  || ((28 <=? code c)%nat && (code c <=? 32)%nat).

Fixpoint map_chars (f : ascii -> ascii) (s : string) : string :=
  match s with
  | EmptyString => EmptyString
  | String c s' => String (f c) (map_chars f s')
  end.

(** [s.lower()] and [s.upper()] *)
Definition lower (s : string) : string := map_chars ascii_lower s.
Definition upper (s : string) : string := map_chars ascii_upper s.

(** [s.startswith(p)] *)
Definition startswith (s p : string) : bool := String.prefix p s.

Fixpoint lstrip (s : string) : string :=
  match s with
  | EmptyString => EmptyString
  | String c s' => if ascii_isspace c then lstrip s' else s
  end.

Fixpoint rstrip (s : string) : string :=
  match s with
  | EmptyString => EmptyString
  | String c s' =>
      match rstrip s' with
      | EmptyString => if ascii_isspace c then EmptyString else String c EmptyString
      | t => String c t
      end
  end.

(** [s.strip()] *)
Definition strip (s : string) : string := rstrip (lstrip s).

(** [str(k)] for an [int] *)
Definition of_int (k : Z) : string := NilZero.string_of_int (Z.to_int k).

(** Truthiness of a string: non-empty. *)
Definition truthy (s : string) : bool :=
  match s with EmptyString => false | _ => true end.

End PyStr.

(** ** Exceptions and results of fallible code

    [exn] stands for the instances of [Exception], the ones that
    [except Exception] and [suppress(Exception)] catch. *)

Inductive exn : Type :=
| ValueError (msg : string)
| StatisticsError (msg : string)
| IndexError (msg : string)
| OtherException (cls msg : string).   (* raised by a collaborator *)

Inductive result (A : Type) : Type :=
| Ok (a : A)
| Raise (e : exn).
Arguments Ok {A} a.
Arguments Raise {A} e.

Definition rbind {A B} (r : result A) (k : A -> result B) : result B :=
  match r with
  | Ok a => k a
  | Raise e => Raise e
  end.

(** [[f(x) for x in xs]] for a fallible [f]: the first failure aborts. *)
Fixpoint rmap {A B} (f : A -> result B) (xs : list A) : result (list B) :=
  match xs with
  | [] => Ok []
  | x :: xs' =>
      rbind (f x) (fun y => rbind (rmap f xs') (fun ys => Ok (y :: ys)))
  end.

(** ** Sequences *)

(** [range(lo, hi)] *)
Definition range (lo hi : Z) : list Z :=
  map (fun k => lo + Z.of_nat k) (seq 0 (Z.to_nat (hi - lo))).

(** [len(xs)] *)
Definition len {A} (xs : list A) : Z := Z.of_nat (List.length xs).

(** [enumerate(xs)] *)
Definition enumerate {A} (xs : list A) : list (Z * A) :=
  combine (range 0 (len xs)) xs.

(** [xs[i]] for an index known to be non-negative; [IndexError] past the
    end. *)
Definition getitem {A} (xs : list A) (i : Z) : result A :=
  match nth_error xs (Z.to_nat i) with
  | Some x => Ok x
  | None => Raise (IndexError "list index out of range")
  end.

(** [sorted(data)]: a stable sort by [<]. *)
Fixpoint insert_sorted (x : float) (acc : list float) : list float :=
  match acc with
  | [] => [x]
  | y :: acc' => if (x <? y)%py then x :: acc else y :: insert_sorted x acc'
  end.

Definition sorted (data : list float) : list float :=
  fold_left (fun acc x => insert_sorted x acc) data [].

(** [statistics.median] *)
Definition median (data : list float) : result float :=
  let data := sorted data in
  let n := len data in
  if n =? 0 then Raise (StatisticsError "no median for empty data")
  else if n mod 2 =? 1 then Ok (nth (Z.to_nat (n / 2)) data nan)
  else
    let i := n / 2 in
    Ok ((nth (Z.to_nat (i - 1)) data nan + nth (Z.to_nat i) data nan) / f2_0)%py.

(** ** Sweep points *)

(** [(freq, vrms, pkpk, thd_percent)], and for a knee sweep
    [(freq, vrms, pkpk, rel_db)]. *)
Definition row : Type := float * float * float * float.

(** [(freq, vrms, pkpk, thd_ratio, thd_percent)], as the per-point loop
    returns them. *)
Definition raw_row : Type := float * float * float * float * float.

(** [(freq, original_thd, replacement_thd)] *)
Definition suppression : Type := float * float * float.

(** [r[3]] *)
Definition row_last (r : row) : float := let '(_, _, _, t) := r in t.

(** ** Spike Filter: [_filter_spikes] *)

(** [rows[j][3]] inside the comprehension, whose [j] ranges over
    [range(max(0, ..), min(total, ..))] and is therefore a valid index. *)
Definition thd_at (rows : list row) (j : Z) : float :=
  row_last (nth (Z.to_nat j) rows (nan, nan, nan, nan)).

Definition neighbors (rows : list row) (window idx : Z) : list float :=
  let total := len rows in
  map (thd_at rows)
      (filter (fun j => negb (j =? idx) && isfinite (thd_at rows j))
              (range (Z.max 0 (idx - window)) (Z.min total (idx + window + 1)))).

(** One iteration of the [for idx, (freq, vr, pk, thd_percent)] loop on
    the two accumulators [(filtered, suppressed)]. *)
Definition spike_step (rows : list row) (window : Z) (factor min_percent : float)
    (idx : Z) (r : row) (acc : list row * list suppression)
  : result (list row * list suppression) :=
  let '(filtered, suppressed) := acc in
  let '(freq, vr, pk, thd_percent) := r in
  let neighbors := neighbors rows window idx in
  if (len neighbors =? 0) || negb (isfinite thd_percent) then
    Ok (filtered ++ [(freq, vr, pk, thd_percent)], suppressed)
  else
    rbind (median neighbors) (fun baseline =>
      let threshold := max2 min_percent (baseline * factor)%py in
      if (thd_percent >? threshold)%py then
        Ok (filtered ++ [(freq, vr, pk, baseline)],
            suppressed ++ [(freq, thd_percent, baseline)])
      else
        Ok (filtered ++ [(freq, vr, pk, thd_percent)], suppressed)).

Fixpoint spike_loop (rows : list row) (window : Z) (factor min_percent : float)
    (idx : Z) (todo : list row) (acc : list row * list suppression)
  : result (list row * list suppression) :=
  match todo with
  | [] => Ok acc
  | r :: todo' =>
      rbind (spike_step rows window factor min_percent idx r acc)
            (spike_loop rows window factor min_percent (idx + 1) todo')
  end.

Definition _filter_spikes (rows : list row) (window : Z)
    (factor min_percent : float) : result (list row * list suppression) :=
  spike_loop rows window factor min_percent 0 rows ([], []).

(** ** Series Smoother: [_smooth_series] *)

(** [[x] * k] *)
Definition replicate {A} (k : Z) (x : A) : list A := repeat x (Z.to_nat k).

(** [padded[i : i + win]] for non-negative [i] and [win]. *)
Definition slice {A} (xs : list A) (i j : Z) : list A :=
  firstn (Z.to_nat (j - i)) (skipn (Z.to_nat i) xs).

(** [fmean] is [statistics.fmean], a collaborator. *)
Definition _smooth_series (fmean : list float -> float)
    (values : list float) (window : Z) (mode : string) : result (list float) :=
  let vals := values in
  let n := len vals in
  if (n =? 0) || (window <=? 1) then Ok vals
  else
    let win := Z.max 1 window in
    let win := if win mod 2 =? 0 then win + 1 else win in
    let half := win / 2 in
    let padded :=
      replicate half (nth 0 vals nan) ++ vals ++ replicate half (last vals nan) in
    let mode := PyStr.lower mode in
    rmap (fun i =>
            let segment := slice padded i (i + win) in
            let finite := map abs (filter isfinite segment) in
            if len finite =? 0 then Ok nan
            else if String.eqb mode "mean" then Ok (fmean finite)
            else median finite)
         (range 0 n).

(** ** Monotonic Envelope Builder: [_monotonic_envelope] *)

(** The running-maximum loop, used once over [lo] and once over
    [reversed(hi)]; [current] is the loop-carried variable and the result
    is the list of values appended. *)
Fixpoint envelope_loop (current : float) (vals : list float) : list float :=
  match vals with
  | [] => []
  | val :: rest =>
      let v := if isfinite val then val else current in
      let v :=
        if negb (isfinite v)
        then (if isfinite current then current else f0_0)
        else v in
      let current :=
        if negb (isfinite current) || (v >? current)%py then v else current in
      current :: envelope_loop current rest
  end.

Definition _monotonic_envelope (values : list float) (ref_index : Z) : list float :=
  let vals := values in
  let n := len vals in
  if n =? 0 then []
  else
    let idx := Z.max 0 (Z.min ref_index (n - 1)) in
    let lo := firstn (Z.to_nat (idx + 1)) vals in      (* vals[: idx + 1] *)
    let hi := skipn (Z.to_nat idx) vals in             (* vals[idx:] *)
    let lo_env := envelope_loop neg_inf lo in
    let hi_env_rev := envelope_loop neg_inf (rev hi) in
    let hi_env := rev hi_env_rev in
    removelast lo_env ++ hi_env.                       (* lo_env[:-1] + hi_env *)

(** ** Amplitude Sanitizer: [_clean_amplitudes] *)

(** The loop threads [last_finite]; the result is the list of values
    appended to [cleaned]. *)
Fixpoint clean_loop (last_finite : float) (amps : list float) : list float :=
  match amps with
  | [] => []
  | amp :: rest =>
      if isfinite amp && (amp >? f0_0)%py then
        let last_finite := abs amp in
        last_finite :: clean_loop last_finite rest
      else
        last_finite :: clean_loop last_finite rest
  end.

Definition _clean_amplitudes (amps : list float) : list float :=
  clean_loop f1em12 amps.

(** ** Reference Index Selector: [_reference_index] *)

(** The builtins [max(items, key=...)] and [min(items, key=...)]: the
    first item is the initial best one, and a later item replaces it when
    its key is strictly better ([>] for [max], [<] for [min]). *)
Fixpoint best_by_key (better : float -> float -> bool) (key : Z -> result float)
    (best : Z) (kbest : float) (items : list Z) : result Z :=
  match items with
  | [] => Ok best
  | x :: items' =>
      rbind (key x) (fun kx =>
        if better kx kbest then best_by_key better key x kx items'
        else best_by_key better key best kbest items')
  end.

Definition py_best (better : float -> float -> bool) (name : string)
    (key : Z -> result float) (items : list Z) : result Z :=
  match items with
  | [] => Raise (ValueError (name ++ "() arg is an empty sequence"))
  | x :: items' => rbind (key x) (fun kx => best_by_key better key x kx items')
  end.

Definition py_max := py_best gtb "max".
Definition py_min := py_best ltb "min".

(** [math.isfinite(amp) and amp > 0] *)
Definition eligible (amp : float) : bool := isfinite amp && (amp >? f0_0)%py.

Definition _reference_index (freqs amps : list float) (ref_mode : string)
    (ref_hz : float) : result Z :=
  let n := len freqs in
  if n =? 0 then Ok 0
  else
    let finite_indices :=
      map fst (filter (fun ia => eligible (snd ia)) (enumerate amps)) in
    if len finite_indices =? 0 then Ok 0
    else
      let mode := PyStr.lower ref_mode in
      if PyStr.startswith mode "freq" then
        let target := ref_hz in
        py_min (fun i => rbind (getitem freqs i) (fun f => Ok (abs (f - target)%py)))
               finite_indices
      else
        py_max (fun i => getitem amps i) finite_indices.

(** ** Effects: instrument world, log, exceptions *)

(** [log.warning(fmt, *args)] keeps the format and its arguments. *)
Inductive log_arg : Type :=
| LFloat (x : float)
| LStr (s : string)
| LExn (e : exn).

Record log_record : Type := mk_log
  { log_level : string; log_fmt : string; log_args : list log_arg }.

(** The state threaded through a driver: the world [W] of the instruments
    and files, and the records emitted on the logger
    ["amp_benchkit.sweeps"]. *)
Record state (W : Type) : Type := mk_state
  { hw : W; logged : list log_record }.
Arguments mk_state {W} hw logged.
Arguments hw {W} s.
Arguments logged {W} s.

(** An operation of a collaborator acts on the world only. *)
Definition hwop (W A : Type) : Type := W -> result A * W.

(** Code of the drivers: state passing with exceptions. *)
Definition M (W A : Type) : Type := state W -> result A * state W.

Section Monad.
Context {W : Type}.

Definition ret {A} (a : A) : M W A := fun s => (Ok a, s).

Definition raise {A} (e : exn) : M W A := fun s => (Raise e, s).

Definition bind {A B} (c : M W A) (k : A -> M W B) : M W B :=
  fun s =>
    match c s with
    | (Ok a, s') => k a s'
    | (Raise e, s') => (Raise e, s')
    end.

Definition lift {A} (op : hwop W A) : M W A :=
  fun s =>
    let '(r, w) := op (hw s) in
    (r, mk_state w (logged s)).

Definition lift_result {A} (r : result A) : M W A := fun s => (r, s).

(** [try: body / except Exception as exc: handler(exc)] *)
Definition try_except {A} (body : M W A) (handler : exn -> M W A) : M W A :=
  fun s =>
    match body s with
    | (Ok a, s') => (Ok a, s')
    | (Raise e, s') => handler e s'
    end.

(** [with suppress(Exception): body] *)
Definition suppress {A} (body : M W A) : M W unit :=
  fun s =>
    match body s with
    | (_, s') => (Ok tt, s')
    end.

(** [try: body / finally: final] *)
Definition try_finally {A} (body : M W A) (final : M W unit) : M W A :=
  fun s =>
    match body s with
    | (r, s') =>
        match final s' with
        | (Ok _, s'') => (r, s'')
        | (Raise e, s'') => (Raise e, s'')
        end
    end.

Definition log_warning (fmt : string) (args : list log_arg) : M W unit :=
  fun s => (Ok tt, mk_state (hw s) (logged s ++ [mk_log "WARNING" fmt args])).

End Monad.

Notation "x <- c1 ;; c2" := (bind c1 (fun x => c2))
  (at level 61, c1 at next level, right associativity).
Notation "c1 ;; c2" := (bind c1 (fun _ => c2))
  (at level 61, right associativity).

Fixpoint for_each {W A} (xs : list A) (body : A -> M W unit) : M W unit :=
  match xs with
  | [] => ret tt
  | x :: xs' => body x ;; for_each xs' body
  end.

(** ** Data of the drivers *)

(** A channel designator: an [int] or a [str] such as ["MATH"]. *)
Inductive chan : Type :=
| ChInt (n : Z)
| ChStr (s : string).

(** The keyword arguments of a generator update. *)
Record fy_kwargs : Type := mk_fy
  { freq_hz : float; fy_amp : float; wave : string; off_v : float;
    duty : option float; ch : Z }.

Definition waveform : Type := list float * list float.

(** [(f_lo, f_hi, ref_amp, ref_db)] *)
Definition knee_result : Type := float * float * float * float.

(** The calibration curve object, with its two methods. *)
Record CalibrationCurve : Type := mk_curve
  { cal_apply : float -> float -> float;
    ratio_at : float -> float }.

(** The dictionary returned by the per-point loop. *)
Record kpi_result : Type := mk_kpi
  { kpi_rows : list raw_row; kpi_knees : option knee_result }.

(** The arguments both drivers hand to [sweep_audio_kpis]. *)
Record kpi_args (W thd_out : Type) : Type := mk_kpi_args
  { k_freqs : list float;
    k_channel : Z;
    k_scope_channel : Z;
    k_amp_vpp : float;
    k_dwell_s : float;
    k_fy_apply : fy_kwargs -> M W (list string);
    k_scope_capture_calibrated : string -> chan -> M W waveform;
    k_dsp_vrms : list float -> float;
    k_dsp_vpp : list float -> float;
    k_dsp_thd_fft : option (list float -> list float -> float -> thd_out);
    k_dsp_find_knees :
      option (list float -> list float -> string -> float -> float
              -> result knee_result);
    k_do_thd : bool;
    k_do_knees : bool;
    k_use_math : bool;
    k_math_order : string;
    k_cycles_per_capture : float;
    k_scope_configure_math_subtract : option (string -> string -> M W unit);
    k_scope_arm_single : string -> M W unit;
    k_scope_wait_single_complete : string -> float -> M W bool;
    k_scope_resource : string;
    k_scope_set_vertical_scale : option (string -> chan -> float -> M W unit);
    k_scope_read_vertical_scale : option (string -> chan -> M W (option float));
    k_vertical_scale_map : option (list (string * float));
    k_vertical_scale_margin : float;
    k_vertical_scale_min : float;
    k_vertical_scale_divs : float;
    k_amplitude_calibration : option (float -> float -> float);
    k_amp_vpp_strategy : option (float -> float) }.

Arguments k_freqs {W thd_out} k.
Arguments k_channel {W thd_out} k.
Arguments k_scope_channel {W thd_out} k.
Arguments k_amp_vpp {W thd_out} k.
Arguments k_dwell_s {W thd_out} k.
Arguments k_fy_apply {W thd_out} k.
Arguments k_scope_capture_calibrated {W thd_out} k.
Arguments k_dsp_vrms {W thd_out} k.
Arguments k_dsp_vpp {W thd_out} k.
Arguments k_dsp_thd_fft {W thd_out} k.
Arguments k_dsp_find_knees {W thd_out} k.
Arguments k_do_thd {W thd_out} k.
Arguments k_do_knees {W thd_out} k.
Arguments k_use_math {W thd_out} k.
Arguments k_math_order {W thd_out} k.
Arguments k_cycles_per_capture {W thd_out} k.
Arguments k_scope_configure_math_subtract {W thd_out} k.
Arguments k_scope_arm_single {W thd_out} k.
Arguments k_scope_wait_single_complete {W thd_out} k.
Arguments k_scope_resource {W thd_out} k.
Arguments k_scope_set_vertical_scale {W thd_out} k.
Arguments k_scope_read_vertical_scale {W thd_out} k.
Arguments k_vertical_scale_map {W thd_out} k.
Arguments k_vertical_scale_margin {W thd_out} k.
Arguments k_vertical_scale_min {W thd_out} k.
Arguments k_vertical_scale_divs {W thd_out} k.
Arguments k_amplitude_calibration {W thd_out} k.
Arguments k_amp_vpp_strategy {W thd_out} k.

(** The collaborators of [sweeps.py]: modules of the repository that are
    not part of the core ([automation], [dsp], [fy], the remaining
    functions of [tek]) and libraries ([pyvisa], [csv], [math],
    [statistics]).  Their behaviour is a parameter of the development;
    their signatures are those of the interface contracts of the
    specification: [build_freq_points], [find_knees] and the calibration
    curve compute values, the instrument and file operations act on the
    world and can raise. *)
Record bench (W : Type) : Type := mk_bench
  { (* pyvisa *)
    HAVE_PYVISA : bool;
    visa_rm : Type;
    visa_session : Type;
    visa_ResourceManager : hwop W visa_rm;
    visa_open_resource : visa_rm -> string -> hwop W visa_session;
    visa_write : visa_session -> string -> hwop W unit;
    visa_close : visa_session -> hwop W unit;
    float_str : float -> string;
    (* fy.fy_apply(port=, proto=, **kw) *)
    fy_apply : option string -> string -> fy_kwargs -> hwop W (list string);
    (* the remaining functions of tek *)
    scope_capture_calibrated : string -> Z -> chan -> hwop W waveform;
    scope_configure_math_subtract : string -> string -> hwop W unit;
    scope_arm_single : string -> hwop W unit;
    scope_wait_single_complete : string -> float -> hwop W bool;
    scope_set_vertical_scale : string -> chan -> float -> hwop W unit;
    scope_read_vertical_scale : string -> chan -> hwop W (option float);
    (* dsp *)
    thd_out : Type;
    vrms : list float -> float;
    vpp : list float -> float;
    thd_fft : list float -> list float -> float -> Z -> string -> thd_out;
    find_knees :
      list float -> list float -> string -> float -> float -> knee_result;
    (* automation *)
    build_freq_points : float -> float -> Z -> string -> list float;
    sweep_audio_kpis : kpi_args W thd_out -> M W kpi_result;
    (* csv: create the parent directories, open the file, write the
       header and the rows *)
    csv_write : string -> list string -> list row -> hwop W unit;
    (* math.log10 and statistics.fmean *)
    log10 : float -> float;
    fmean : list float -> float }.

Arguments HAVE_PYVISA {W} b.
Arguments visa_rm {W} b.
Arguments visa_session {W} b.
Arguments visa_ResourceManager {W} b.
Arguments visa_open_resource {W} b.
Arguments visa_write {W} b.
Arguments visa_close {W} b.
Arguments float_str {W} b.
Arguments fy_apply {W} b.
Arguments scope_capture_calibrated {W} b.
Arguments scope_configure_math_subtract {W} b.
Arguments scope_arm_single {W} b.
Arguments scope_wait_single_complete {W} b.
Arguments scope_set_vertical_scale {W} b.
Arguments scope_read_vertical_scale {W} b.
Arguments thd_out {W} b.
Arguments vrms {W} b.
Arguments vpp {W} b.
Arguments thd_fft {W} b.
Arguments find_knees {W} b.
Arguments build_freq_points {W} b.
Arguments sweep_audio_kpis {W} b.
Arguments csv_write {W} b.
Arguments log10 {W} b.
Arguments fmean {W} b.

(** The keyword arguments the two drivers share. *)
Record sweep_args : Type := mk_sweep_args
  { visa_resource : string;
    fy_port : option string;
    amp_vpp : float;
    calibrate_to_vpp : option float;
    fy_proto : string;
    scope_channel : Z;
    start_hz : float;
    stop_hz : float;
    points : Z;
    dwell_s : float;
    use_math : bool;
    math_order : string;
    output : option string;
    calibration_curve : option CalibrationCurve;
    scope_scale_map : option (list (chan * float));
    scope_scale_margin : float;
    scope_scale_min : float;
    scope_scale_divs : float }.

Record thd_args : Type := mk_thd_args
  { thd_common :> sweep_args;
    post_freq_hz : float;
    post_seconds_per_div : option float;
    filter_spikes : bool;
    filter_window : Z;
    filter_factor : float;
    filter_min_percent : float }.

Record knee_args : Type := mk_knee_args
  { knee_common :> sweep_args;
    knee_drop_db : float;
    knee_ref_mode : string;
    knee_ref_hz : float;
    smoothing : string;
    smooth_window : Z;
    enforce_monotonic : bool }.

(** The dictionary [knee_sweep] returns. *)
Record knee_output : Type := mk_knee_output
  { out_rows : list row;
    out_knees : option knee_result;
    out_ref_db : float;
    out_target_db : float;
    out_csv_path : option string }.

(** ** [tek.py]: the two scope functions of the drivers' cleanup *)

Section Tek.
Context {W : Type} (B : bench W).

Definition scope_configure_timebase (resource : string)
    (seconds_per_div : option float) : M W unit :=
  match seconds_per_div with
  | None => ret tt
  | Some spd =>
      if negb (HAVE_PYVISA B) then ret tt
      else
        rm <- lift (visa_ResourceManager B) ;;
        sc <- lift (visa_open_resource B rm resource) ;;
        try_finally
          (suppress (lift (visa_write B sc "HORizontal:MODE MAIn")) ;;
           lift (visa_write B sc ("HORizontal:MAIn:SCAle " ++ float_str B spd)))
          (suppress (lift (visa_close B sc)))
  end.

Definition scope_resume_run (resource : string) : M W unit :=
  if negb (HAVE_PYVISA B) then ret tt
  else
    rm <- lift (visa_ResourceManager B) ;;
    sc <- lift (visa_open_resource B rm resource) ;;
    try_finally
      (for_each ["ACQuire:STOPAfter RUNSTop"; "ACQuire:STATE RUN"]
         (fun cmd => suppress (lift (visa_write B sc cmd))))
      (suppress (lift (visa_close B sc))).

End Tek.

(** ** Sweep Drivers: [thd_sweep] and [knee_sweep] *)

(** Dictionary assignment [d[k] = v] on an insertion-ordered dictionary. *)
Fixpoint dict_set (d : list (string * float)) (k : string) (v : float)
  : list (string * float) :=
  match d with
  | [] => [(k, v)]
  | (k', v') :: d' =>
      if String.eqb k k' then (k, v) :: d' else (k', v') :: dict_set d' k v
  end.

(** The label computed for one key of [scope_scale_map]. *)
Definition scale_label (key : chan) : string :=
  match key with
  | ChInt k => "CH" ++ PyStr.of_int k
  | ChStr s =>
      let label := PyStr.upper (PyStr.strip s) in
      match label with
      | String c _ => if PyStr.ascii_isdigit c then "CH" ++ label else label
      | EmptyString => label
      end
  end.

(** The block that builds [vertical_scale_map].  The gains are floats, so
    [float(gain)] cannot fail and the warning of the [except] branch is
    never emitted. *)
Definition normalize_scale_map (scope_scale_map : option (list (chan * float)))
  : option (list (string * float)) :=
  match scope_scale_map with
  | None | Some [] => None
  | Some items =>
      let normalized :=
        fold_left
          (fun d kg =>
             let label := scale_label (fst kg) in
             dict_set d (if PyStr.truthy label then label else "CH1") (snd kg))
          items [] in
      match normalized with
      | [] => None
      | _ => Some normalized
      end
  end.

(** The closure [_amp_strategy]. *)
Definition _amp_strategy (calibration_curve : CalibrationCurve) (target : float)
    (freq : float) : float :=
  let ratio := ratio_at calibration_curve freq in
  if (ratio <=? f0_0)%py then target else (target / ratio)%py.

(** The per-row calibration both drivers apply to [vr] and [pk].  The
    test [if calibration_curve:] holds of every curve object. *)
Definition calibrate (calibration_curve : option CalibrationCurve)
    (freq x : float) : float :=
  match calibration_curve with
  | Some curve => if isfinite x then cal_apply curve freq x else x
  | None => x
  end.

Section Drivers.
Context {W : Type} (B : bench W).

(** The closure [_fy_apply]. *)
Definition _fy_apply (a : sweep_args) (kw : fy_kwargs) : M W (list string) :=
  lift (fy_apply B (fy_port a) (fy_proto a) kw).

(** The closure [_capture]. *)
Definition _capture (a : sweep_args) (_resource : string) (ch : chan)
  : M W waveform :=
  let target := if use_math a then ChStr (math_order a) else ch in
  lift (scope_capture_calibrated B (visa_resource a) 15000 target).

(** The arguments of the call of [sweep_audio_kpis], up to the THD or knee
    reducer. *)
Definition kpi_call (a : sweep_args)
    (dsp_thd_fft : option (list float -> list float -> float -> thd_out B))
    (dsp_find_knees :
       option (list float -> list float -> string -> float -> float
               -> result knee_result))
    (do_thd do_knees : bool) (freqs : list float) : kpi_args W (thd_out B) :=
  let amplitude_calibration :=
    match calibration_curve a with
    | Some curve => Some (cal_apply curve)
    | None => None
    end in
  let amp_vpp_strategy :=
    match calibrate_to_vpp a, calibration_curve a with
    | Some target, Some curve => Some (_amp_strategy curve target)
    | _, _ => None
    end in
  let sweep_amp :=
    match calibrate_to_vpp a with
    | Some target => target
    | None => amp_vpp a
    end in
  let vertical_scale_map := normalize_scale_map (scope_scale_map a) in
  let scaled {A} (f : A) : option A :=
    match vertical_scale_map with Some _ => Some f | None => None end in
  {| k_freqs := freqs;
     k_channel := 1;
     k_scope_channel := scope_channel a;
     k_amp_vpp := sweep_amp;
     k_dwell_s := dwell_s a;
     k_fy_apply := _fy_apply a;
     k_scope_capture_calibrated := _capture a;
     k_dsp_vrms := vrms B;
     k_dsp_vpp := vpp B;
     k_dsp_thd_fft := dsp_thd_fft;
     k_dsp_find_knees := dsp_find_knees;
     k_do_thd := do_thd;
     k_do_knees := do_knees;
     k_use_math := use_math a;
     k_math_order := math_order a;
     k_cycles_per_capture := f10_0;
     k_scope_configure_math_subtract :=
       if use_math a
       then Some (fun _res order =>
                    lift (scope_configure_math_subtract B (visa_resource a) order))
       else None;
     k_scope_arm_single := fun _res => lift (scope_arm_single B (visa_resource a));
     k_scope_wait_single_complete :=
       fun _res timeout_s =>
         lift (scope_wait_single_complete B (visa_resource a) timeout_s);
     k_scope_resource := visa_resource a;
     k_scope_set_vertical_scale :=
       scaled (fun _resource channel volts_per_div =>
                 lift (scope_set_vertical_scale B (visa_resource a) channel
                         volts_per_div));
     k_scope_read_vertical_scale :=
       scaled (fun _resource channel =>
                 lift (scope_read_vertical_scale B (visa_resource a) channel));
     k_vertical_scale_map := vertical_scale_map;
     k_vertical_scale_margin := scope_scale_margin a;
     k_vertical_scale_min := scope_scale_min a;
     k_vertical_scale_divs := scope_scale_divs a;
     k_amplitude_calibration := amplitude_calibration;
     k_amp_vpp_strategy := amp_vpp_strategy |}.

(** The argument checks the two drivers start with. *)
Definition check_common (a : sweep_args) : M W unit :=
  if points a <? 2 then raise (ValueError "points must be >= 2")
  else if negb (isfinite (amp_vpp a)) || (amp_vpp a <=? f0_0)%py
  then raise (ValueError "amp_vpp must be > 0")
  else if negb (isfinite (dwell_s a)) || (dwell_s a <? f0_0)%py
  then raise (ValueError "dwell_s must be >= 0")
  else ret tt.

Definition check_calibration (a : sweep_args) : M W unit :=
  match calibrate_to_vpp a, calibration_curve a with
  | Some _, None => raise (ValueError "calibrate_to_vpp requires calibration_curve")
  | _, _ => ret tt
  end.

(** [if output: ...]: write the CSV file and return its path. *)
Definition write_output (a : sweep_args) (header : list string) (rows : list row)
  : M W (option string) :=
  match output a with
  | Some out_path => lift (csv_write B out_path header rows) ;; ret (Some out_path)
  | None => ret None
  end.

(** *** [thd_sweep] *)

(** Lines 195-317: validation, the measurement loop, calibration, the
    spike filter and the CSV file.  The assignment to [result["rows"]]
    updates a dictionary that is not read again and is left out. *)
Definition thd_measure (a : thd_args)
  : M W (list row * option string * list suppression) :=
  check_common a ;;
  let freqs := build_freq_points B (start_hz a) (stop_hz a) (points a) "log" in
  check_calibration a ;;
  result <- sweep_audio_kpis B
              (kpi_call a
                 (Some (fun t v f0 => thd_fft B t v f0 10 "hann")) None
                 true false freqs) ;;
  let rows :=
    map (fun r : raw_row =>
           let '(freq, vr, pk, thd_ratio, thd_percent) := r in
           let vr := calibrate (calibration_curve a) freq vr in
           let pk := calibrate (calibration_curve a) freq pk in
           (freq, vr, pk, thd_percent))
        (kpi_rows result) in
  rs <- (if filter_spikes a && negb (len rows =? 0)
         then lift_result
                (_filter_spikes rows (filter_window a) (filter_factor a)
                   (filter_min_percent a))
         else ret (rows, [])) ;;
  let '(rows, suppressed) := rs in
  out_path <- write_output a ["freq_hz"; "vrms"; "pkpk"; "thd_percent"] rows ;;
  ret (rows, out_path, suppressed).

(** The generator update that restores the idle tone. *)
Definition idle_tone (freq amp : float) : fy_kwargs :=
  {| freq_hz := freq; fy_amp := amp; wave := "Sine"; off_v := f0_0;
     duty := None; ch := 1 |}.

(** [fy_port or "<auto>"] *)
Definition port_or_auto (a : sweep_args) : string :=
  match fy_port a with
  | Some p => if PyStr.truthy p then p else "<auto>"
  | None => "<auto>"
  end.

(** Lines 319-341: resume acquisition, restore the idle tone, restore the
    timebase. *)
Definition thd_cleanup (a : thd_args) : M W unit :=
  scope_resume_run B (visa_resource a) ;;
  try_except
    (_fy_apply a (idle_tone (post_freq_hz a) (amp_vpp a)) ;; ret tt)
    (fun exc =>
       log_warning "FY reset to %.1f Hz failed (amp %.2f Vpp, port=%s, proto=%s): %s"
         [LFloat (post_freq_hz a); LFloat (amp_vpp a); LStr (port_or_auto a);
          LStr (fy_proto a); LExn exc]) ;;
  match post_seconds_per_div a with
  | Some spd =>
      suppress (scope_configure_timebase B (visa_resource a) (Some spd))
  | None => ret tt
  end.

Definition thd_sweep (a : thd_args)
  : M W (list row * option string * list suppression) :=
  r <- thd_measure a ;;
  thd_cleanup a ;;
  ret r.

(** *** [knee_sweep] *)

(** [(smoothing or "none").lower()] *)
Definition smoothing_mode (a : knee_args) : string :=
  PyStr.lower (if PyStr.truthy (smoothing a) then smoothing a else "none").

Definition check_smoothing (a : knee_args) : M W unit :=
  if String.eqb (smoothing_mode a) "median"
     || String.eqb (smoothing_mode a) "mean"
     || String.eqb (smoothing_mode a) "none"
  then ret tt
  else raise (ValueError "smoothing must be one of 'median', 'mean', or 'none'").

(** The closure [_knee_detector]. *)
Definition _knee_detector (a : knee_args) (freq_list amps : list float)
    (ref_mode : string) (ref_hz drop_db : float) : result knee_result :=
  let window := Z.max 1 (smooth_window a) in
  let cleaned := _clean_amplitudes amps in
  rbind (if negb (String.eqb (smoothing_mode a) "none")
            && (len cleaned >? 1) && (window >? 1)
         then _smooth_series (fmean B) cleaned window (smoothing_mode a)
         else Ok cleaned)
    (fun cleaned =>
       rbind (if enforce_monotonic a && (len cleaned >? 2)
              then rbind (_reference_index freq_list cleaned ref_mode ref_hz)
                         (fun ref_idx => Ok (_monotonic_envelope cleaned ref_idx))
              else Ok cleaned)
         (fun cleaned => Ok (find_knees B freq_list cleaned ref_mode ref_hz drop_db))).

(** Lines 511-528: the reference level and the rows with their relative
    level. *)
Definition knee_ref_db (knees : option knee_result) : float :=
  match knees with
  | Some (_f_lo, _f_hi, _ref_amp, ref_db) => ref_db
  | None => nan
  end.

Definition knee_target_db (a : knee_args) (knees : option knee_result) : float :=
  match knees with
  | Some (_f_lo, _f_hi, _ref_amp, ref_db) => (ref_db - knee_drop_db a)%py
  | None => nan
  end.

Definition knee_row (a : knee_args) (knees : option knee_result) (r : raw_row)
  : row :=
  let ref_db_val := knee_ref_db knees in
  let '(freq, vr, pk, _thd_ratio, _thd_percent) := r in
  let vr := calibrate (calibration_curve a) freq vr in
  let pk := calibrate (calibration_curve a) freq pk in
  let rel_db :=
    if (match knees with Some _ => true | None => false end)
       && isfinite pk && (pk >? f0_0)%py && isfinite ref_db_val
    then (f20_0 * log10 B pk - ref_db_val)%py
    else neg_inf in
  (freq, vr, pk, rel_db).

(** Lines 393-537: validation, the measurement loop with the knee
    detector, the rows and the CSV file. *)
Definition knee_measure (a : knee_args) : M W knee_output :=
  check_common a ;;
  (if negb (isfinite (knee_drop_db a)) || (knee_drop_db a <=? f0_0)%py
   then raise (ValueError "knee_drop_db must be > 0") else ret tt) ;;
  let freqs := build_freq_points B (start_hz a) (stop_hz a) (points a) "log" in
  check_calibration a ;;
  check_smoothing a ;;
  result <- sweep_audio_kpis B
              (kpi_call a None (Some (_knee_detector a)) false true freqs) ;;
  let rows_raw := kpi_rows result in
  let knees := kpi_knees result in
  let rows := map (knee_row a knees) rows_raw in
  csv_path <- write_output a ["freq_hz"; "vrms"; "pkpk"; "rel_db"] rows ;;
  ret {| out_rows := rows;
         out_knees := knees;
         out_ref_db := knee_ref_db knees;
         out_target_db := knee_target_db a knees;
         out_csv_path := csv_path |}.

(** Lines 539-556: resume acquisition and restore the 1 kHz idle tone. *)
Definition knee_cleanup (a : knee_args) : M W unit :=
  scope_resume_run B (visa_resource a) ;;
  try_except
    (_fy_apply a (idle_tone f1000_0 (amp_vpp a)) ;; ret tt)
    (fun exc =>
       log_warning "FY reset to 1000.0 Hz failed (amp %.2f Vpp, port=%s, proto=%s): %s"
         [LFloat (amp_vpp a); LStr (port_or_auto a); LStr (fy_proto a);
          LExn exc]).

Definition knee_sweep (a : knee_args) : M W knee_output :=
  r <- knee_measure a ;;
  knee_cleanup a ;;
  ret r.

End Drivers.

(** ** [tek.py]: source names and IEEE 488.2 blocks

    A [bytes] object is a [string]: a sequence of 8-bit characters. *)

(** The whitespace [int()] skips around a literal: TAB, LF, VT, FF, CR
    and the space. *)
Definition int_isspace (c : ascii) : bool :=
  ((9 <=? PyStr.code c)%nat && (PyStr.code c <=? 13)%nat)
  || (PyStr.code c =? 32)%nat.

Fixpoint int_lstrip (s : string) : string :=
  match s with
  | EmptyString => EmptyString
  | String c s' => if int_isspace c then int_lstrip s' else s
  end.

(** The sign of a literal, and what follows it. *)
Definition int_sign (s : string) : Z * string :=
  match s with
  | String c s' =>
      if Ascii.eqb c "+" then (1, s')
      else if Ascii.eqb c "-" then (-1, s')
      else (1, s)
  | EmptyString => (1, s)
  end.

(** The longest prefix of digits and underscores, and what follows it. *)
Fixpoint int_scan (s : string) : string * string :=
  match s with
  | EmptyString => (EmptyString, EmptyString)
  | String c s' =>
      if PyStr.ascii_isdigit c || Ascii.eqb c "_"
      then let '(run, rest) := int_scan s' in (String c run, rest)
      else (EmptyString, s)
  end.

(** The digits of a run: it starts and ends with a digit and has no two
    underscores in a row. *)
Fixpoint int_digits (prev_digit : bool) (run : string) : option string :=
  match run with
  | EmptyString => if prev_digit then Some EmptyString else None
  | String c run' =>
      if PyStr.ascii_isdigit c
      then option_map (String c) (int_digits true run')
      else if prev_digit then int_digits false run' else None
  end.

(** The default of [sys.get_int_max_str_digits()]. *)
Definition int_max_str_digits : Z := 4300.

Definition str_len (s : string) : Z := Z.of_nat (String.length s).

Section Int.
(** [repr] of the argument, for the message of the error. *)
Context (repr : string -> string).

(** [int(s)] for a [str] of ASCII characters or a [bytes] object. *)
Definition py_int (s : string) : result Z :=
  let invalid :=
    Raise (ValueError
             ("invalid literal for int() with base 10: " ++ repr s)%string) in
  let '(sign, body) := int_sign (int_lstrip s) in
  let '(run, rest) := int_scan body in
  match int_digits false run with
  | None => invalid
  | Some digits =>
      if int_max_str_digits <? str_len digits
      then Raise (ValueError
                    ("Exceeds the limit (4300 digits) for integer string conversion: value has "
                     ++ PyStr.of_int (str_len digits)
                     ++ " digits; use sys.set_int_max_str_digits() to increase the limit")%string)
      else
        match int_lstrip rest, NilEmpty.uint_of_string digits with
        | EmptyString, Some d => Ok (sign * Z.of_uint d)
        | _, _ => invalid
        end
  end.

End Int.

(** [str(n)] for an [int], as an f-string formats it: more than 4300
    digits raise [ValueError]. *)
Definition int_str (n : Z) : result string :=
  if int_max_str_digits <? str_len (PyStr.of_int (Z.abs n))
  then Raise (ValueError
                "Exceeds the limit (4300 digits) for integer string conversion; use sys.set_int_max_str_digits() to increase the limit")
  else Ok (PyStr.of_int n).

(** [s.isdigit()] *)
Fixpoint all_digits (s : string) : bool :=
  match s with
  | EmptyString => true
  | String c s' => PyStr.ascii_isdigit c && all_digits s'
  end.

Definition isdigit (s : string) : bool := PyStr.truthy s && all_digits s.

(** [s[i:j]] *)
Definition str_slice (s : string) (i j : Z) : string :=
  let n := str_len s in
  let clamp k := if k <? 0 then Z.max 0 (k + n) else Z.min k n in
  String.substring (Z.to_nat (clamp i)) (Z.to_nat (clamp j - clamp i)) s.

(** [s[i:]] *)
Definition str_from (s : string) (i : Z) : string := str_slice s i (str_len s).

Section Source.
(** [repr] of a [str]. *)
Context (repr_str : string -> string).

(** [f"CH{num}"] *)
Definition channel_name (num : Z) : result string :=
  rbind (int_str num) (fun digits => Ok ("CH" ++ digits)%string).

(** [_resolve_source].  For an [int], [int(ch)] is [ch] and cannot
    fail. *)
Definition _resolve_source (ch : chan) : result string :=
  match ch with
  | ChStr s =>
      let value := PyStr.upper (PyStr.strip s) in
      if negb (PyStr.truthy value) then Ok "CH1"
      else if existsb (String.eqb value) ["MATH"; "REF1"; "REF2"; "REF3"; "REF4"]
      then Ok value
      else if PyStr.startswith value "CH" && isdigit (str_from value 2)
      then rbind (py_int repr_str (str_from value 2)) channel_name
      else if isdigit value
      then rbind (py_int repr_str value) channel_name
      else Ok "CH1"
  | ChInt num => channel_name num
  end.

End Source.

(** One byte read as [numpy.int8]. *)
Definition int8 (b : ascii) : Z :=
  let n := Z.of_nat (PyStr.code b) in
  if n <? 128 then n else n - 256.

Section Block.
(** [repr] of a [str] and of a [bytes] object, and the text branch of
    [parse_ieee_block]: it decodes the block and catches every
    [Exception], so it is a function of the block. *)
Context (repr_str repr_bytes : string -> string).
Context (parse_text : string -> list Z).

(** [parse_ieee_block]; the result lists the elements of the array. *)
Definition parse_ieee_block (block : string) : result (list Z) :=
  if negb (PyStr.truthy block) then Ok []
  else if negb (String.eqb (str_slice block 0 1) "#") then Ok (parse_text block)
  else if str_len block <? 2 then Ok []
  else
    rbind (py_int repr_str (str_slice block 1 2)) (fun n_dig =>
    let header := 2 + n_dig in
    if str_len block <? header then Ok []
    else
      rbind (py_int repr_bytes (str_slice block 2 (2 + n_dig))) (fun n_bytes =>
      let data := str_slice block header (header + n_bytes) in
      Ok (map int8 (list_ascii_of_string data)))).

End Block.

(** ** Test doubles

    A bench whose world is the trace of the instrument and file commands
    issued so far, in the manner of the stubs of [tests/test_sweeps.py].
    Its faults are switches: the VISA session cannot be opened, a SCPI
    command is rejected, the generator link is lost at some frequency. *)

Module Fake.

Inductive event : Type :=
| EvOpen (resource : string)
| EvWrite (cmd : string)
| EvClose
| EvFy (port : option string) (proto : string) (kw : fy_kwargs)
| EvCapture (target : chan)
| EvScope (what : string)
| EvCsv (path : string) (header : list string) (rows : list row).

Definition world : Type := list event.

Record faults : Type := mk_faults
  { open_fails : bool;
    write_fails : string -> bool;
    fy_fails : float -> bool }.

Definition no_faults : faults :=
  {| open_fails := false; write_fails := fun _ => false;
     fy_fails := fun _ => false |}.

(** The scope has been unplugged: no VISA session can be opened. *)
Definition unplugged : faults :=
  {| open_fails := true; write_fails := fun _ => false;
     fy_fails := fun _ => false |}.

(** The scope rejects the command that sets the timebase. *)
Definition rejects_timebase : faults :=
  {| open_fails := false;
     write_fails := fun cmd => PyStr.startswith cmd "HORizontal:MAIn:SCAle";
     fy_fails := fun _ => false |}.

(** The generator link is lost at the idle tone of 1 kHz. *)
Definition link_lost_at_idle : faults :=
  {| open_fails := false; write_fails := fun _ => false;
     fy_fails := fun f => eqb f f1000_0 |}.

(** Perform a command: it is appended to the trace, and fails when
    [fails] holds. *)
Definition command {A} (ev : event) (fails : bool) (e : exn) (a : A)
  : hwop world A :=
  fun w => (if fails then Raise e else Ok a, w ++ [ev]).

(** [_stub_sweep_audio_kpis], extended with the knee detection of
    [fake_sweep_audio_kpis]. *)
Definition stub_sweep_audio_kpis (k : kpi_args world unit) : M world kpi_result :=
  for_each (k_freqs k)
    (fun f =>
       k_fy_apply k
         {| freq_hz := f; fy_amp := k_amp_vpp k; wave := "Sine";
            off_v := f0_0; duty := None; ch := 1 |} ;;
       ret tt) ;;
  let rows := map (fun f => (f, f1_0, f2_0, f0_01, f1_0)) (k_freqs k) in
  knees <-
    match k_do_knees k, k_dsp_find_knees k with
    | true, Some detect =>
        r <- lift_result
               (detect (k_freqs k)
                  (map (fun r : raw_row => let '(_, _, pk, _, _) := r in pk) rows)
                  "max" f1000_0 f3_0) ;;
        ret (Some r)
    | _, _ => ret None
    end ;;
  ret (mk_kpi rows knees).

Definition the_bench (f : faults) : bench world :=
  {| HAVE_PYVISA := true;
     visa_rm := unit;
     visa_session := string;
     visa_ResourceManager := fun w => (Ok tt, w);
     visa_open_resource := fun _ resource =>
       command (EvOpen resource) (open_fails f)
         (OtherException "VisaIOError" "VI_ERROR_RSRC_NFOUND") resource;
     visa_write := fun _ cmd =>
       command (EvWrite cmd) (write_fails f cmd)
         (OtherException "VisaIOError" "VI_ERROR_TMO") tt;
     visa_close := fun _ => command EvClose false (ValueError "") tt;
     float_str := fun _ => "0.0001";
     fy_apply := fun port proto kw =>
       command (EvFy port proto kw) (fy_fails f (freq_hz kw))
         (OtherException "RuntimeError" "link lost") ["ok"];
     scope_capture_calibrated := fun _ _ target =>
       command (EvCapture target) false (ValueError "") ([f0_0], [f0_0]);
     scope_configure_math_subtract := fun _ _ =>
       command (EvScope "math") false (ValueError "") tt;
     scope_arm_single := fun _ => command (EvScope "arm") false (ValueError "") tt;
     scope_wait_single_complete := fun _ _ =>
       command (EvScope "wait") false (ValueError "") true;
     scope_set_vertical_scale := fun _ _ _ =>
       command (EvScope "set scale") false (ValueError "") tt;
     scope_read_vertical_scale := fun _ _ =>
       command (EvScope "read scale") false (ValueError "") (Some f0_5);
     thd_out := unit;
     vrms := fun _ => f1_0;
     vpp := fun _ => f2_0;
     thd_fft := fun _ _ _ _ _ => tt;
     find_knees := fun _ _ _ _ _ => (f20_0, f20000_0, f2_0, f6_0);
     build_freq_points := fun start stop _ _ => [start; stop];
     sweep_audio_kpis := stub_sweep_audio_kpis;
     csv_write := fun path header rows =>
       command (EvCsv path header rows) false (ValueError "") tt;
     log10 := fun x => if eqb x f2_0 then log10_2 else nan;
     fmean := fun _ => nan |}.

Definition start : state world := mk_state [] [].

Definition common (points : Z) : sweep_args :=
  {| visa_resource := "FAKE::SCOPE";
     fy_port := Some "FAKE::GEN";
     amp_vpp := f0_5;
     calibrate_to_vpp := None;
     fy_proto := "FY ASCII 9600";
     scope_channel := 1;
     start_hz := f100_0;
     stop_hz := f200_0;
     points := points;
     dwell_s := f0_0;
     use_math := false;
     math_order := "CH1-CH2";
     output := None;
     calibration_curve := None;
     scope_scale_map := None;
     scope_scale_margin := f1_0;
     scope_scale_min := f0_01;
     scope_scale_divs := f10_0 |}.

Definition thd_call (points : Z) (post_seconds_per_div : option float)
  : thd_args :=
  {| thd_common := common points;
     post_freq_hz := f1000_0;
     post_seconds_per_div := post_seconds_per_div;
     filter_spikes := false;
     filter_window := 2;
     filter_factor := f2_0;
     filter_min_percent := f2_0 |}.

Definition knee_call (points : Z) (smoothing : string) : knee_args :=
  {| knee_common := common points;
     knee_drop_db := f3_0;
     knee_ref_mode := "max";
     knee_ref_hz := f1000_0;
     smoothing := smoothing;
     smooth_window := 5;
     enforce_monotonic := true |}.

End Fake.


(** ** Vocabulary of the properties

    The definitions below are not code of the repository: they name what
    the properties say about it. *)

(** The row at position [idx] has a finite-THD neighbour within
    [±window] positions. *)
Definition has_finite_neighbor (rows : list row) (window idx : Z) : Prop :=
  exists j,
    j <> idx /\ idx - window <= j <= idx + window /\ 0 <= j < len rows
    /\ isfinite (thd_at rows j) = true.

(** The row at position [idx] is a spike: its THD is finite, it has a
    baseline (the median of its finite neighbours), and its THD strictly
    exceeds [max(min_percent, baseline * factor)].  The result is the
    baseline of a spike. *)
Definition spike_baseline (rows : list row) (window : Z)
    (factor min_percent : float) (idx : Z) (thd_percent : float)
  : option float :=
  match median (neighbors rows window idx) with
  | Ok baseline =>
      if isfinite thd_percent
         && (thd_percent >? max2 min_percent (baseline * factor)%py)%py
      then Some baseline
      else None
  | Raise _ => None
  end.

(** The row the filter is expected to emit for the row [r] at [idx]. *)
Definition expected_row (rows : list row) (window : Z)
    (factor min_percent : float) (ir : Z * row) : row :=
  let '(idx, (freq, vr, pk, thd_percent)) := ir in
  match spike_baseline rows window factor min_percent idx thd_percent with
  | Some baseline => (freq, vr, pk, baseline)
  | None => (freq, vr, pk, thd_percent)
  end.

(** The suppression records expected for the row [r] at [idx]: one for a
    spike, none otherwise. *)
Definition expected_suppression (rows : list row) (window : Z)
    (factor min_percent : float) (ir : Z * row) : list suppression :=
  let '(idx, (freq, vr, pk, thd_percent)) := ir in
  match spike_baseline rows window factor min_percent idx thd_percent with
  | Some baseline => [(freq, thd_percent, baseline)]
  | None => []
  end.

(** The amplitude at index [i] is eligible as a reference. *)
Definition eligible_at (amps : list float) (i : Z) : Prop :=
  0 <= i /\ exists amp, nth_error amps (Z.to_nat i) = Some amp /\ eligible amp = true.

(** [amps[i]], for an index in range. *)
Definition amp_at (amps : list float) (i : Z) : float :=
  nth (Z.to_nat i) amps nan.

(** The arguments of a sweep that the common checks reject. *)
Definition invalid_common (a : sweep_args) : Prop :=
  points a < 2
  \/ isfinite (amp_vpp a) = false \/ (amp_vpp a <=? f0_0)%py = true
  \/ isfinite (dwell_s a) = false \/ (dwell_s a <? f0_0)%py = true
  \/ (calibrate_to_vpp a <> None /\ calibration_curve a = None).

(** The further arguments of a knee sweep that are rejected. *)
Definition invalid_knee (a : knee_args) : Prop :=
  isfinite (knee_drop_db a) = false \/ (knee_drop_db a <=? f0_0)%py = true
  \/ (smoothing_mode a <> "median" /\ smoothing_mode a <> "mean"
      /\ smoothing_mode a <> "none").

(** The record logged when the idle tone of [thd_sweep] cannot be
    restored. *)
Definition fy_reset_warning (a : thd_args) (exc : exn) : log_record :=
  mk_log "WARNING"
    "FY reset to %.1f Hz failed (amp %.2f Vpp, port=%s, proto=%s): %s"
    [LFloat (post_freq_hz a); LFloat (amp_vpp a); LStr (port_or_auto a);
     LStr (fy_proto a); LExn exc].

(** A computation that emits no log record. *)
Definition silent {W A} (c : M W A) : Prop :=
  forall s, logged (snd (c s)) = logged s.

(** Two consecutive values of a running maximum: the later one is the
    earlier one, or strictly above it. *)
Definition climbs (x y : float) : Prop := y = x \/ (x <? y)%py = true.

(** [math.isnan] *)
Definition isnan (x : float) : bool :=
  match x with
  | S754_nan => true
  | _ => false
  end.

(** The place of a float that is not NaN in the order of [<]: the sign
    class first (minus infinity, negative, zero, positive, plus
    infinity), then the exponent and the mantissa, both taken downwards
    for a negative number. *)
Definition rank (x : float) : Z * Z * Z :=
  match x with
  | S754_nan => (0, 0, 0)
  | S754_zero _ => (0, 0, 0)
  | S754_infinity false => (2, 0, 0)
  | S754_infinity true => (-2, 0, 0)
  | S754_finite false m e => (1, e, Zpos m)
  | S754_finite true m e => (-1, - e, Zneg m)
  end.

Definition rank_lt (a b : Z * Z * Z) : Prop :=
  let '(a1, a2, a3) := a in
  let '(b1, b2, b3) := b in
  a1 < b1 \/ (a1 = b1 /\ (a2 < b2 \/ (a2 = b2 /\ a3 < b3))).

(** [x <= y] for floats that are not NaN, as the negation of [y < x]. *)
Definition not_above (x y : float) : Prop := (y <? x)%py = false.

(** [abs(freqs[i] - target)], the distance the frequency mode minimises,
    for an index in range. *)
Definition dist_at (freqs : list float) (target : float) (i : Z) : float :=
  abs (nth (Z.to_nat i) freqs nan - target)%py.

(** The record logged when the idle tone of [knee_sweep] cannot be
    restored. *)
Definition knee_reset_warning (a : knee_args) (exc : exn) : log_record :=
  mk_log "WARNING"
    "FY reset to 1000.0 Hz failed (amp %.2f Vpp, port=%s, proto=%s): %s"
    [LFloat (amp_vpp a); LStr (port_or_auto a); LStr (fy_proto a); LExn exc].

(** The arguments with which [thd_sweep] and [knee_sweep] call the
    per-point loop. *)
Definition thd_request {W} (B : bench W) (a : thd_args) : kpi_args W (thd_out B) :=
  kpi_call B a (Some (fun t v f0 => thd_fft B t v f0 10 "hann")) None true false
    (build_freq_points B (start_hz a) (stop_hz a) (points a) "log").

Definition knee_request {W} (B : bench W) (a : knee_args) : kpi_args W (thd_out B) :=
  kpi_call B a None (Some (_knee_detector B a)) false true
    (build_freq_points B (start_hz a) (stop_hz a) (points a) "log").

(** The row [thd_sweep] builds from a measured one, before the spike
    filter. *)
Definition thd_row (a : thd_args) (r : raw_row) : row :=
  let '(freq, vr, pk, thd_ratio, thd_percent) := r in
  (freq, calibrate (calibration_curve a) freq vr,
   calibrate (calibration_curve a) freq pk, thd_percent).

(** The key under which [thd_sweep] files the gain of one entry of
    [scope_scale_map]: [label or "CH1"]. *)
Definition scale_key (key : chan) : string :=
  let label := scale_label key in
  if PyStr.truthy label then label else "CH1".

(** Dictionary lookup [d.get(k)]. *)
Definition dict_get (d : list (string * float)) (k : string) : option float :=
  option_map snd (find (fun kv => String.eqb (fst kv) k) d).

(** The gain of the last entry of [scope_scale_map] filed under [label]. *)
Definition last_gain (items : list (chan * float)) (label : string)
  : option float :=
  option_map snd
    (find (fun kg => String.eqb (scale_key (fst kg)) label) (rev items)).

(** A key of [scope_scale_map] that the f-string of its label can
    print: an [int] of at most 4300 digits, or a [str]. *)
Definition printable_key (key : chan) : Prop :=
  match key with
  | ChInt k => str_len (PyStr.of_int (Z.abs k)) <= int_max_str_digits
  | ChStr _ => True
  end.

(** ASCII text: every character is below 128. *)
Fixpoint is_ascii (s : string) : bool :=
  match s with
  | EmptyString => true
  | String c s' => (PyStr.code c <? 128)%nat && is_ascii s'
  end.

(** The source names [_resolve_source] produces: a math or reference
    trace, or a channel with a non-negative number. *)
Definition source_name (src : string) : Prop :=
  In src ["MATH"; "REF1"; "REF2"; "REF3"; "REF4"]
  \/ exists n, 0 <= n /\ src = ("CH" ++ PyStr.of_int n)%string.

(** The number a run of decimal digits denotes. *)
Definition digits_value (digits : string) : Z :=
  match NilEmpty.uint_of_string digits with
  | Some d => Z.of_uint d
  | None => 0
  end.

(** * Properties *)

(** ** Floats: order facts used below *)

Lemma ltb_irrefl (x : float) : (x <? x)%py = false.
Proof.
  unfold ltb, SFltb.
  destruct x as [s | s | | s m e]; simpl; try reflexivity.
  - destruct s; reflexivity.
  - change (Pos.compare_cont Eq m m) with (Pos.compare m m).
    destruct s; rewrite Z.compare_refl, Pos.compare_refl; reflexivity.
Qed.

(** A finite float above zero is a positive finite number. *)
Lemma eligible_inv (x : float) :
  eligible x = true -> exists m e, x = S754_finite false m e.
Proof.
  unfold eligible, gtb, ltb, SFltb.
  destruct x as [s | s | | s m e]; simpl; try discriminate.
  destruct s; simpl; try discriminate.
  intros _. eauto.
Qed.

Lemma eligible_abs (x : float) : eligible x = true -> abs x = x.
Proof.
  intros H. destruct (eligible_inv x H) as (m & e & ->). reflexivity.
Qed.

(** On positive finite floats [<] is the lexicographic order on the
    exponent and the mantissa. *)
Lemma ltb_positive (m1 : positive) (e1 : Z) (m2 : positive) (e2 : Z) :
  (S754_finite false m1 e1 <? S754_finite false m2 e2)%py = true <->
  e1 < e2 \/ (e1 = e2 /\ (m1 < m2)%positive).
Proof.
  unfold ltb, SFltb. simpl.
  change (Pos.compare_cont Eq m1 m2) with (Pos.compare m1 m2).
  destruct (Z.compare_spec e1 e2) as [He | He | He].
  - destruct (Pos.compare_spec m1 m2) as [Hm | Hm | Hm]; split; intros H;
      try discriminate; try reflexivity; lia.
  - split; intros _; [left; assumption | reflexivity].
  - split; intros H; [discriminate | lia].
Qed.

Lemma ltb_positive_false (m1 : positive) (e1 : Z) (m2 : positive) (e2 : Z) :
  (S754_finite false m1 e1 <? S754_finite false m2 e2)%py = false <->
  e2 < e1 \/ (e1 = e2 /\ (m2 <= m1)%positive).
Proof.
  destruct (S754_finite false m1 e1 <? S754_finite false m2 e2)%py eqn:E.
  - apply ltb_positive in E. split; intros H; [discriminate | lia].
  - split; intros _; [| reflexivity].
    assert (N : ~ (e1 < e2 \/ (e1 = e2 /\ (m1 < m2)%positive))).
    { intros C. apply ltb_positive in C. congruence. }
    lia.
Qed.

(** Among eligible amplitudes: not [b < j] and [b < x] give [j < x]. *)
Lemma eligible_lt_from_not_lt (j b x : float) :
  eligible j = true -> eligible b = true -> eligible x = true ->
  (b <? j)%py = false -> (b <? x)%py = true -> (j <? x)%py = true.
Proof.
  intros Hj Hb Hx.
  destruct (eligible_inv j Hj) as (mj & ej & ->).
  destruct (eligible_inv b Hb) as (mb & eb & ->).
  destruct (eligible_inv x Hx) as (mx & ex & ->).
  rewrite ltb_positive_false, !ltb_positive. lia.
Qed.

Lemma eligible_lt_asym (j x : float) :
  eligible j = true -> eligible x = true ->
  (j <? x)%py = true -> (x <? j)%py = false.
Proof.
  intros Hj Hx.
  destruct (eligible_inv j Hj) as (mj & ej & ->).
  destruct (eligible_inv x Hx) as (mx & ex & ->).
  rewrite ltb_positive_false, ltb_positive. lia.
Qed.

(** ** Sequences *)

Lemma range_nil (lo hi : Z) : hi <= lo -> range lo hi = [].
Proof.
  intros H. unfold range.
  replace (Z.to_nat (hi - lo)) with 0%nat by lia. reflexivity.
Qed.

Lemma range_cons (lo hi : Z) : lo < hi -> range lo hi = lo :: range (lo + 1) hi.
Proof.
  intros H. unfold range.
  replace (Z.to_nat (hi - lo)) with (S (Z.to_nat (hi - (lo + 1)))) by lia.
  simpl. f_equal; [lia |].
  rewrite <- seq_shift, map_map.
  apply map_ext. intros k. lia.
Qed.

Lemma in_range (lo hi j : Z) : In j (range lo hi) <-> lo <= j < hi.
Proof.
  unfold range. rewrite in_map_iff. split.
  - intros (k & <- & Hk). apply in_seq in Hk. lia.
  - intros H. exists (Z.to_nat (j - lo)). split; [lia |].
    apply in_seq. lia.
Qed.

Lemma len_nil_iff {A} (xs : list A) : (len xs =? 0) = true <-> xs = [].
Proof.
  unfold len. destruct xs; simpl; split; intros H;
    try reflexivity; discriminate.
Qed.

Lemma len_cons {A} (x : A) (xs : list A) : len (x :: xs) = len xs + 1.
Proof. unfold len. simpl List.length. lia. Qed.

(** ** Amplitude Sanitizer *)

Lemma clean_loop_eligible (amps : list float) :
  forall last_finite,
    Forall (fun v => eligible v = true) amps ->
    clean_loop last_finite amps = map abs amps.
Proof.
  induction amps as [| amp rest IH]; intros last_finite Hall; simpl.
  - reflexivity.
  - inversion Hall as [| ? ? Hamp Hrest]; subst.
    fold (eligible amp). rewrite Hamp. f_equal. apply IH. assumption.
Qed.

Lemma map_abs_eligible (amps : list float) :
  Forall (fun v => eligible v = true) amps -> map abs amps = amps.
Proof.
  induction 1 as [| amp rest Hamp _ IH]; simpl.
  - reflexivity.
  - rewrite (eligible_abs amp Hamp), IH. reflexivity.
Qed.

(** C1, as stated, fails: on [[1.0, nan, -2.0, 0.0]] the sanitizer does
    not return [[1.0, 1.0, 2.0, 2.0]]. *)
Lemma clean_amplitudes_example_not_magnitude :
  _clean_amplitudes [f1_0; nan; fm2_0; f0_0] <> [f1_0; f1_0; f2_0; f2_0].
Proof. vm_compute. intros H. discriminate H. Qed.

(** C1, amended: on [[1.0, nan, -2.0, 0.0]] the sanitizer returns
    [[1.0, 1.0, 1.0, 1.0]].  The entry -2.0 is finite but not above zero,
    so it is invalid too and is replaced by the last good value 1.0; its
    magnitude never becomes the last good value. *)
Theorem clean_amplitudes_example :
  _clean_amplitudes [f1_0; nan; fm2_0; f0_0] = [f1_0; f1_0; f1_0; f1_0].
Proof. vm_compute. reflexivity. Qed.

(** C9: on a sequence of strictly positive finite floats the sanitizer
    returns the elementwise absolute value, which is the sequence
    itself. *)
Theorem clean_amplitudes_clean_input (x : list float) :
  Forall (fun v => isfinite v = true /\ (v >? f0_0)%py = true) x ->
  _clean_amplitudes x = map abs x /\ map abs x = x.
Proof.
  intros Hall.
  assert (Hel : Forall (fun v => eligible v = true) x).
  { eapply Forall_impl; [| exact Hall].
    intros v [Hf Hp]. unfold eligible. rewrite Hf, Hp. reflexivity. }
  split.
  - apply clean_loop_eligible. assumption.
  - apply map_abs_eligible. assumption.
Qed.

Lemma clean_amplitudes_clean_input_witness :
  _clean_amplitudes [f0_5; f2_0; f1_0] = map abs [f0_5; f2_0; f1_0]
  /\ map abs [f0_5; f2_0; f1_0] = [f0_5; f2_0; f1_0].
Proof.
  apply (clean_amplitudes_clean_input [f0_5; f2_0; f1_0]).
  repeat constructor.
Defined.

(** ** Monotonic Envelope Builder *)

Lemma envelope_loop_length (vals : list float) :
  forall current, List.length (envelope_loop current vals) = List.length vals.
Proof.
  induction vals as [| val rest IH]; intros current; simpl.
  - reflexivity.
  - rewrite IH. reflexivity.
Qed.

Lemma removelast_length {A} (xs : list A) :
  List.length (removelast xs) = pred (List.length xs).
Proof.
  induction xs as [| x xs IH]; [reflexivity |].
  destruct xs as [| y ys]; [reflexivity |].
  change (removelast (x :: y :: ys)) with (x :: removelast (y :: ys)).
  simpl List.length in *. rewrite IH. reflexivity.
Qed.

Lemma monotonic_envelope_length (values : list float) (ref_index : Z) :
  List.length (_monotonic_envelope values ref_index) = List.length values.
Proof.
  unfold _monotonic_envelope.
  destruct (len values =? 0) eqn:E.
  - apply len_nil_iff in E. subst. reflexivity.
  - apply Z.eqb_neq in E. unfold len in *.
    rewrite length_app, removelast_length, length_rev.
    rewrite !envelope_loop_length, length_rev, length_firstn, length_skipn.
    lia.
Qed.

Lemma monotonic_envelope_clamp (values : list float) (ref_index : Z) :
  _monotonic_envelope values ref_index =
  _monotonic_envelope values (Z.max 0 (Z.min ref_index (len values - 1))).
Proof.
  unfold _monotonic_envelope.
  destruct (len values =? 0); [reflexivity |].
  replace (Z.max 0 (Z.min (Z.max 0 (Z.min ref_index (len values - 1)))
                          (len values - 1)))
    with (Z.max 0 (Z.min ref_index (len values - 1))) by lia.
  reflexivity.
Qed.

(** C10: the envelope builder is a total function of the list and of any
    integer reference index; its result has the length of the input, it
    is the result obtained for the index clamped to [[0, n-1]], and the
    empty input gives the empty list. *)
Theorem monotonic_envelope_total (values : list float) (ref_index : Z) :
  let n := len values in
  let clamped := Z.max 0 (Z.min ref_index (n - 1)) in
  len (_monotonic_envelope values ref_index) = n
  /\ _monotonic_envelope values ref_index = _monotonic_envelope values clamped
  /\ (1 <= n -> 0 <= clamped <= n - 1)
  /\ _monotonic_envelope [] ref_index = [].
Proof.
  cbv zeta. repeat split.
  - unfold len. rewrite monotonic_envelope_length. reflexivity.
  - apply monotonic_envelope_clamp.
  - lia.
  - lia.
Qed.

Lemma monotonic_envelope_total_witness :
  len (_monotonic_envelope [f1_0; f5_0; f2_0] (-7)) = 3
  /\ _monotonic_envelope [f1_0; f5_0; f2_0] (-7)
     = _monotonic_envelope [f1_0; f5_0; f2_0] 0
  /\ _monotonic_envelope [f1_0; f5_0; f2_0] 9
     = _monotonic_envelope [f1_0; f5_0; f2_0] 2.
Proof.
  destruct (monotonic_envelope_total [f1_0; f5_0; f2_0] (-7)) as (H1 & H2 & _).
  destruct (monotonic_envelope_total [f1_0; f5_0; f2_0] 9) as (_ & H3 & _).
  split; [exact H1 | split; [exact H2 | exact H3]].
Defined.

(** Each of the two walks is a running maximum of finite values. *)
Lemma envelope_loop_running_max (vals : list float) :
  forall current,
    Sorted climbs (envelope_loop current vals)
    /\ Forall (fun v => isfinite v = true) (envelope_loop current vals)
    /\ (isfinite current = true -> HdRel climbs current (envelope_loop current vals)).
Proof.
  induction vals as [| val rest IH]; intros current.
  - simpl. repeat constructor.
  - cbn [envelope_loop].
    set (v0 := if isfinite val then val else current).
    set (v := if negb (isfinite v0)
              then (if isfinite current then current else f0_0) else v0).
    set (next := if negb (isfinite current) || (v >? current)%py
                 then v else current).
    assert (Hv : isfinite v = true).
    { subst v v0. destruct (isfinite val) eqn:Eval.
      - rewrite Eval. exact Eval.
      - destruct (isfinite current) eqn:Ecur; simpl;
          first [reflexivity | rewrite Ecur; exact Ecur | exact Ecur]. }
    clearbody v. clear v0.
    assert (Hnext : isfinite next = true).
    { subst next. destruct (isfinite current) eqn:Ecur; simpl; [| exact Hv].
      destruct (v >? current)%py; assumption. }
    destruct (IH next) as (Hsorted & Hfinite & Hhead).
    split; [| split].
    + constructor; [exact Hsorted | exact (Hhead Hnext)].
    + constructor; assumption.
    + intros Hcur. constructor. subst next. rewrite Hcur. simpl.
      destruct (v >? current)%py eqn:G; [right; exact G | left; reflexivity].
Qed.

(** C3 fails on the code: for the sequence [[5.0, 1.0]] and the reference
    index 1 the builder returns [[5.0, 1.0]], which decreases from
    position 0 to position 1, inside the low side [[0, ref]].  The last
    element of the low-side walk is dropped in favour of the first
    element of the high-side walk, which need not dominate it. *)
Theorem monotonic_envelope_low_side_can_decrease :
  _monotonic_envelope [f5_0; f1_0] 1 = [f5_0; f1_0]
  /\ (f1_0 <? f5_0)%py = true.
Proof. vm_compute. split; reflexivity. Qed.

(** ** Spike Filter *)

Lemma insert_sorted_length (x : float) (acc : list float) :
  List.length (insert_sorted x acc) = S (List.length acc).
Proof.
  induction acc as [| y acc IH]; simpl.
  - reflexivity.
  - destruct (x <? y)%py; simpl; [reflexivity | rewrite IH; reflexivity].
Qed.

Lemma sorted_length (data : list float) :
  List.length (sorted data) = List.length data.
Proof.
  unfold sorted.
  assert (G : forall acc,
             List.length (fold_left (fun acc x => insert_sorted x acc) data acc)
             = (List.length acc + List.length data)%nat).
  { induction data as [| x data IH]; intros acc; simpl.
    - lia.
    - rewrite IH, insert_sorted_length. lia. }
  rewrite G. reflexivity.
Qed.

(** [statistics.median] fails on the empty list only. *)
Lemma median_nonempty (data : list float) :
  data <> [] -> exists m, median data = Ok m.
Proof.
  intros Hne. unfold median.
  assert (E : (len (sorted data) =? 0) = false).
  { apply Z.eqb_neq. unfold len. rewrite sorted_length.
    destruct data; [congruence | simpl; lia]. }
  rewrite E. destruct (len (sorted data) mod 2 =? 1); eauto.
Qed.

Lemma median_empty : exists e, median [] = Raise e.
Proof. eexists. reflexivity. Qed.

(** One iteration appends the expected row and the expected records. *)
Lemma spike_step_expected (rows : list row) (window : Z)
    (factor min_percent : float) (idx : Z) (r : row)
    (filtered : list row) (suppressed : list suppression) :
  spike_step rows window factor min_percent idx r (filtered, suppressed) =
  Ok (filtered ++ [expected_row rows window factor min_percent (idx, r)],
      suppressed ++ expected_suppression rows window factor min_percent (idx, r)).
Proof.
  destruct r as [[[freq vr] pk] thd_percent].
  unfold spike_step, expected_row, expected_suppression, spike_baseline.
  destruct (len (neighbors rows window idx) =? 0) eqn:En.
  - apply len_nil_iff in En. rewrite En.
    destruct median_empty as [e ->]. simpl.
    rewrite (app_nil_r suppressed). reflexivity.
  - assert (Hne : neighbors rows window idx <> []).
    { intros C. rewrite C in En. discriminate En. }
    destruct (median_nonempty _ Hne) as [baseline ->].
    destruct (isfinite thd_percent); simpl.
    + destruct (thd_percent >? max2 min_percent (baseline * factor)%py)%py;
        simpl; [reflexivity | rewrite (app_nil_r suppressed); reflexivity].
    + rewrite (app_nil_r suppressed). reflexivity.
Qed.

Lemma spike_loop_expected (rows : list row) (window : Z)
    (factor min_percent : float) (todo : list row) :
  forall idx filtered suppressed,
    spike_loop rows window factor min_percent idx todo (filtered, suppressed) =
    Ok (filtered
          ++ map (expected_row rows window factor min_percent)
                 (combine (range idx (idx + len todo)) todo),
        suppressed
          ++ flat_map (expected_suppression rows window factor min_percent)
                      (combine (range idx (idx + len todo)) todo)).
Proof.
  induction todo as [| r todo IH]; intros idx filtered suppressed.
  - rewrite range_nil by (unfold len; simpl; lia).
    simpl. rewrite (app_nil_r filtered), (app_nil_r suppressed). reflexivity.
  - cbn [spike_loop]. rewrite spike_step_expected. cbn [rbind].
    rewrite IH. rewrite len_cons.
    rewrite (range_cons idx) by (unfold len; lia).
    replace (idx + 1 + len todo) with (idx + (len todo + 1)) by lia.
    cbn [combine map flat_map]. rewrite <- !app_assoc. reflexivity.
Qed.

(** The filter as a whole: the rows and the records expected, position by
    position. *)
Lemma filter_spikes_expected (rows : list row) (window : Z)
    (factor min_percent : float) :
  _filter_spikes rows window factor min_percent =
  Ok (map (expected_row rows window factor min_percent) (enumerate rows),
      flat_map (expected_suppression rows window factor min_percent)
               (enumerate rows)).
Proof.
  unfold _filter_spikes, enumerate. rewrite spike_loop_expected. reflexivity.
Qed.

Lemma enumerate_length {A} (xs : list A) :
  List.length (enumerate xs) = List.length xs.
Proof.
  unfold enumerate, range. rewrite length_combine, length_map, length_seq.
  unfold len. lia.
Qed.

Lemma enumerate_nth_error {A} (xs : list A) (i : nat) (x : A) :
  nth_error xs i = Some x ->
  nth_error (enumerate xs) i = Some (Z.of_nat i, x).
Proof.
  intros H. unfold enumerate.
  assert (G : forall (ys : list A) lo k y,
             nth_error ys k = Some y ->
             nth_error (combine (range lo (lo + len ys)) ys) k
             = Some (lo + Z.of_nat k, y)).
  { induction ys as [| y0 ys IH]; intros lo k y Hk.
    - destruct k; discriminate Hk.
    - rewrite len_cons, (range_cons lo) by (unfold len; lia).
      destruct k as [| k]; simpl in *.
      + injection Hk as ->. f_equal. f_equal. lia.
      + replace (lo + (len ys + 1)) with (lo + 1 + len ys) by lia.
        rewrite (IH (lo + 1) k y Hk). f_equal. f_equal. lia. }
  specialize (G xs 0 i x H). rewrite Z.add_0_l in G. exact G.
Qed.

(** C7: the filter returns as many rows as it is given, and at every
    index the output row has the [freq], [vrms] and [vpp] of the input
    row; only the last field can differ. *)
Theorem filter_spikes_frame (rows : list row) (window : Z)
    (factor min_percent : float) :
  exists filtered suppressed,
    _filter_spikes rows window factor min_percent = Ok (filtered, suppressed)
    /\ List.length filtered = List.length rows
    /\ forall i freq vr pk thd_percent,
         nth_error rows i = Some (freq, vr, pk, thd_percent) ->
         exists thd', nth_error filtered i = Some (freq, vr, pk, thd').
Proof.
  eexists. eexists. split; [apply filter_spikes_expected |]. split.
  - rewrite length_map. apply enumerate_length.
  - intros i freq vr pk thd_percent Hi.
    rewrite nth_error_map, (enumerate_nth_error _ _ _ Hi). simpl.
    destruct (spike_baseline rows window factor min_percent (Z.of_nat i) thd_percent);
      eauto.
Qed.

Lemma filter_spikes_frame_witness :
  exists filtered suppressed,
    _filter_spikes
      [(f100_0, f1_0, f2_0, f1_0); (f200_0, f3_0, f4_0, f5_0);
       (f300_0, f1_0, f2_0, f1_0)] 2 f2_0 f2_0 = Ok (filtered, suppressed)
    /\ List.length filtered = 3%nat
    /\ exists thd', nth_error filtered 1 = Some (f200_0, f3_0, f4_0, thd').
Proof.
  destruct (filter_spikes_frame
              [(f100_0, f1_0, f2_0, f1_0); (f200_0, f3_0, f4_0, f5_0);
               (f300_0, f1_0, f2_0, f1_0)] 2 f2_0 f2_0)
    as (filtered & suppressed & Hrun & Hlen & Hrows).
  exists filtered, suppressed. split; [exact Hrun |]. split; [exact Hlen |].
  apply (Hrows 1%nat f200_0 f3_0 f4_0 f5_0). reflexivity.
Defined.

(** A finite neighbour within the window is one of the [neighbors] the
    loop collects. *)
Lemma neighbors_nonempty (rows : list row) (window idx : Z) :
  has_finite_neighbor rows window idx -> neighbors rows window idx <> [].
Proof.
  intros (j & Hne & Hwin & Hin & Hfin) C.
  assert (Hj : In (thd_at rows j) (neighbors rows window idx)).
  { unfold neighbors. apply in_map. apply filter_In. split.
    - apply in_range. lia.
    - rewrite Hfin, andb_true_r. apply negb_true_iff, Z.eqb_neq. exact Hne. }
  rewrite C in Hj. exact Hj.
Qed.

(** A value equal to [baseline * factor] does not exceed the threshold. *)
Lemma at_threshold_not_above (min_percent scaled : float) :
  (scaled >? max2 min_percent scaled)%py = false.
Proof.
  unfold max2. destruct (scaled >? min_percent)%py eqn:E.
  - unfold gtb. apply ltb_irrefl.
  - exact E.
Qed.

(** C4: for a row with a finite THD and a finite-THD neighbour within
    [±window] positions, the filter emits the row with its THD replaced by
    the neighbour median exactly when the THD strictly exceeds
    [max(min_percent, baseline * factor)], and the row unchanged
    otherwise; a THD equal to [baseline * factor] is kept.  The
    suppression list holds, in sweep order, one record
    [(freq, original_thd, baseline)] per replaced row and nothing else. *)
Theorem filter_spikes_threshold (rows : list row) (window : Z)
    (factor min_percent : float) :
  exists filtered suppressed,
    _filter_spikes rows window factor min_percent = Ok (filtered, suppressed)
    /\ (forall i freq vr pk thd_percent,
          nth_error rows i = Some (freq, vr, pk, thd_percent) ->
          isfinite thd_percent = true ->
          has_finite_neighbor rows window (Z.of_nat i) ->
          exists baseline,
            median (neighbors rows window (Z.of_nat i)) = Ok baseline
            /\ nth_error filtered i =
               Some (freq, vr, pk,
                     if (thd_percent >? max2 min_percent (baseline * factor)%py)%py
                     then baseline else thd_percent)
            /\ expected_suppression rows window factor min_percent
                 (Z.of_nat i, (freq, vr, pk, thd_percent)) =
               (if (thd_percent >? max2 min_percent (baseline * factor)%py)%py
                then [(freq, thd_percent, baseline)] else [])
            /\ (thd_percent = (baseline * factor)%py ->
                nth_error filtered i = Some (freq, vr, pk, thd_percent)))
    /\ suppressed =
       flat_map (expected_suppression rows window factor min_percent)
                (enumerate rows).
Proof.
  eexists. eexists. split; [apply filter_spikes_expected |]. split.
  - intros i freq vr pk thd_percent Hi Hfin Hnb.
    destruct (median_nonempty _ (neighbors_nonempty _ _ _ Hnb))
      as [baseline Hmed].
    exists baseline. split; [exact Hmed |].
    rewrite nth_error_map, (enumerate_nth_error _ _ _ Hi).
    unfold expected_suppression, spike_baseline. simpl.
    unfold spike_baseline. rewrite Hmed, Hfin. simpl.
    split; [| split].
    + destruct (thd_percent >? max2 min_percent (baseline * factor)%py)%py;
        reflexivity.
    + destruct (thd_percent >? max2 min_percent (baseline * factor)%py)%py;
        reflexivity.
    + intros ->. rewrite at_threshold_not_above. reflexivity.
  - reflexivity.
Qed.

(** Rows with THD 1, 2, 1, 3, 1 percent, window 1, factor 2, floor 0.5:
    the second row sits exactly at twice its baseline 1 and is kept, the
    fourth row is one unit above and is replaced by its baseline 1. *)
Lemma filter_spikes_threshold_witness :
  exists filtered suppressed,
    _filter_spikes
      [(f100_0, f1_0, f2_0, f1_0); (f200_0, f1_0, f2_0, f2_0);
       (f300_0, f1_0, f2_0, f1_0); (f1000_0, f1_0, f2_0, f3_0);
       (f20000_0, f1_0, f2_0, f1_0)]
      1 f2_0 f0_5 = Ok (filtered, suppressed)
    /\ nth_error filtered 1 = Some (f200_0, f1_0, f2_0, f2_0)
    /\ nth_error filtered 3 = Some (f1000_0, f1_0, f2_0, f1_0)
    /\ suppressed = [(f1000_0, f3_0, f1_0)].
Proof.
  set (rows := [(f100_0, f1_0, f2_0, f1_0); (f200_0, f1_0, f2_0, f2_0);
                (f300_0, f1_0, f2_0, f1_0); (f1000_0, f1_0, f2_0, f3_0);
                (f20000_0, f1_0, f2_0, f1_0)]).
  destruct (filter_spikes_threshold rows 1 f2_0 f0_5)
    as (filtered & suppressed & Hrun & Hrows & Hsup).
  exists filtered, suppressed. split; [exact Hrun |].
  assert (N1 : has_finite_neighbor rows 1 (Z.of_nat 1)).
  { exists 0. repeat split; try (unfold len; simpl; lia). }
  assert (N3 : has_finite_neighbor rows 1 (Z.of_nat 3)).
  { exists 2. repeat split; try (unfold len; simpl; lia). }
  destruct (Hrows 1%nat f200_0 f1_0 f2_0 f2_0 eq_refl eq_refl N1)
    as (b1 & Hb1 & _ & _ & Hrow1).
  destruct (Hrows 3%nat f1000_0 f1_0 f2_0 f3_0 eq_refl eq_refl N3)
    as (b3 & Hb3 & Hrow3 & _ & _).
  vm_compute in Hb1. injection Hb1 as <-.
  vm_compute in Hb3. injection Hb3 as <-.
  split; [apply Hrow1; vm_compute; reflexivity |].
  split; [exact Hrow3 |].
  rewrite Hsup. vm_compute. reflexivity.
Defined.

(** ** Reference Index Selector *)

Lemma eligible_at_getitem (amps : list float) (i : Z) :
  eligible_at amps i ->
  getitem amps i = Ok (amp_at amps i) /\ eligible (amp_at amps i) = true.
Proof.
  intros (_ & amp & Hnth & Hel). unfold getitem, amp_at.
  rewrite Hnth, (nth_error_nth _ _ _ Hnth). split; [reflexivity | exact Hel].
Qed.

(** The indices the comprehension keeps, for an enumeration that starts
    at [lo]: they are the eligible ones, in increasing order. *)
Lemma finite_indices_from (amps : list float) :
  forall lo,
    let kept :=
      map fst (filter (fun ia : Z * float => eligible (snd ia))
                      (combine (range lo (lo + len amps)) amps)) in
    (forall i, In i kept <->
               lo <= i /\ exists amp,
                 nth_error amps (Z.to_nat (i - lo)) = Some amp
                 /\ eligible amp = true)
    /\ StronglySorted Z.lt kept.
Proof.
  induction amps as [| a rest IH]; intros lo kept; subst kept.
  - rewrite range_nil by (unfold len; simpl; lia). simpl. split.
    + intros i. split; [intros [] |].
      intros (_ & amp & Hnth & _). destruct (Z.to_nat (i - lo)); discriminate.
    + constructor.
  - rewrite len_cons, (range_cons lo) by (unfold len; lia).
    replace (lo + (len rest + 1)) with (lo + 1 + len rest) by lia.
    destruct (IH (lo + 1)) as [Hin Hsorted].
    assert (Hshift : forall i, lo + 1 <= i ->
              nth_error (a :: rest) (Z.to_nat (i - lo))
              = nth_error rest (Z.to_nat (i - (lo + 1)))).
    { intros i Hi.
      replace (Z.to_nat (i - lo)) with (S (Z.to_nat (i - (lo + 1)))) by lia.
      reflexivity. }
    assert (Hhere : forall i, In i
                (map fst (filter (fun ia : Z * float => eligible (snd ia))
                   (combine (range (lo + 1) (lo + 1 + len rest)) rest))) ->
              lo < i).
    { intros i Hi. apply Hin in Hi. lia. }
    cbn [combine filter snd]. split.
    + intros i. destruct (eligible a) eqn:Ea; cbn [map fst In]; rewrite Hin.
      * split.
        -- intros [<- | (Hlo & amp & Hnth & Hel)].
           ++ split; [lia |]. exists a. rewrite Z.sub_diag. split; [reflexivity | exact Ea].
           ++ split; [lia |]. exists amp. rewrite Hshift by lia. split; assumption.
        -- intros (Hlo & amp & Hnth & Hel).
           destruct (Z.eq_dec lo i) as [-> | Hneq]; [left; reflexivity | right].
           split; [lia |]. exists amp. rewrite <- Hshift by lia. split; assumption.
      * split.
        -- intros (Hlo & amp & Hnth & Hel).
           split; [lia |]. exists amp. rewrite Hshift by lia. split; assumption.
        -- intros (Hlo & amp & Hnth & Hel).
           destruct (Z.eq_dec lo i) as [<- | Hneq].
           ++ rewrite Z.sub_diag in Hnth. simpl in Hnth. congruence.
           ++ split; [lia |]. exists amp. rewrite <- Hshift by lia. split; assumption.
    + destruct (eligible a); cbn [map fst]; [| exact Hsorted].
      constructor; [exact Hsorted |].
      apply Forall_forall. exact Hhere.
Qed.

Lemma finite_indices_spec (amps : list float) :
  let kept :=
    map fst (filter (fun ia : Z * float => eligible (snd ia)) (enumerate amps)) in
  (forall i, In i kept <-> eligible_at amps i)
  /\ StronglySorted Z.lt kept.
Proof.
  destruct (finite_indices_from amps 0) as [Hin Hsorted].
  split; [| exact Hsorted].
  intros i. unfold enumerate, eligible_at.
  specialize (Hin i). rewrite Z.sub_0_r in Hin. exact Hin.
Qed.

(** The scan of [max(items, key=...)] over eligible indices in increasing
    order: [seen] holds of the indices scanned so far. *)
Lemma best_by_key_first_max (amps : list float) (items : list Z) :
  forall (best : Z) (seen : Z -> Prop),
    (forall x, In x items -> eligible_at amps x) ->
    (forall j, seen j -> eligible_at amps j) ->
    seen best ->
    (forall j, seen j ->
       (amp_at amps j >? amp_at amps best)%py = false
       /\ (j < best -> (amp_at amps j <? amp_at amps best)%py = true)) ->
    (forall j x, seen j -> In x items -> j < x) ->
    StronglySorted Z.lt items ->
    exists r,
      best_by_key gtb (fun i => getitem amps i) best (amp_at amps best) items = Ok r
      /\ (seen r \/ In r items)
      /\ forall j, seen j \/ In j items ->
           (amp_at amps j >? amp_at amps r)%py = false
           /\ (j < r -> (amp_at amps j <? amp_at amps r)%py = true).
Proof.
  induction items as [| x items IH];
    intros best seen Hitems Hseen Hbest Hinv Hord Hsorted.
  - exists best. split; [reflexivity |]. split; [left; exact Hbest |].
    intros j [Hj | []]. apply Hinv. exact Hj.
  - cbn [best_by_key].
    destruct (eligible_at_getitem amps x (Hitems x (or_introl eq_refl)))
      as [Hget Hxel].
    destruct (eligible_at_getitem amps best (Hseen best Hbest)) as [_ Hbel].
    rewrite Hget. cbn [rbind].
    inversion Hsorted as [| ? ? Hsorted' Hlt]; subst.
    rewrite Forall_forall in Hlt.
    destruct (amp_at amps x >? amp_at amps best)%py eqn:G.
    + destruct (IH x (fun j => seen j \/ j = x)) as (r & Hr & Hwhere & Hmax).
      * intros y Hy. apply Hitems. right. exact Hy.
      * intros j [Hj | ->]; [apply Hseen; exact Hj |].
        apply Hitems. left. reflexivity.
      * right. reflexivity.
      * intros j [Hj | ->].
        -- destruct (eligible_at_getitem amps j (Hseen j Hj)) as [_ Hjel].
           destruct (Hinv j Hj) as [Hnot _].
           assert (Hjx : (amp_at amps j <? amp_at amps x)%py = true).
           { apply (eligible_lt_from_not_lt _ (amp_at amps best)); assumption. }
           split; [| intros _; exact Hjx].
           unfold gtb. apply eligible_lt_asym; assumption.
        -- split; [unfold gtb; apply ltb_irrefl | lia].
      * intros j y [Hj | ->] Hy.
        -- apply Hord; [exact Hj | right; exact Hy].
        -- apply Hlt. exact Hy.
      * exact Hsorted'.
      * exists r. split; [exact Hr |]. split.
        -- destruct Hwhere as [[Hs | ->] | Hin]; [left; exact Hs | right; left; reflexivity |].
           right. right. exact Hin.
        -- intros j Hj. apply Hmax.
           destruct Hj as [Hj | [<- | Hj]];
             [left; left; exact Hj | left; right; reflexivity | right; exact Hj].
    + destruct (IH best (fun j => seen j \/ j = x)) as (r & Hr & Hwhere & Hmax).
      * intros y Hy. apply Hitems. right. exact Hy.
      * intros j [Hj | ->]; [apply Hseen; exact Hj |].
        apply Hitems. left. reflexivity.
      * left. exact Hbest.
      * intros j [Hj | ->]; [apply Hinv; exact Hj |].
        split; [exact G |].
        specialize (Hord best x Hbest (or_introl eq_refl)). lia.
      * intros j y [Hj | ->] Hy.
        -- apply Hord; [exact Hj | right; exact Hy].
        -- apply Hlt. exact Hy.
      * exact Hsorted'.
      * exists r. split; [exact Hr |]. split.
        -- destruct Hwhere as [[Hs | ->] | Hin]; [left; exact Hs | right; left; reflexivity |].
           right. right. exact Hin.
        -- intros j Hj. apply Hmax.
           destruct Hj as [Hj | [<- | Hj]];
             [left; left; exact Hj | left; right; reflexivity | right; exact Hj].
Qed.

(** C6: only indices whose amplitude is finite and above zero are
    eligible.  Without an eligible index the selector returns 0.  For
    parallel sequences and any mode that does not start with ["freq"]
    (["max"] is one), it returns an eligible index whose amplitude no
    eligible amplitude exceeds and that every earlier eligible amplitude
    is strictly below: the leftmost greatest one.  On the example it
    returns 1. *)
Theorem reference_index_first_max (freqs amps : list float) (ref_mode : string)
    (ref_hz : float) :
  ((forall i, ~ eligible_at amps i) ->
   _reference_index freqs amps ref_mode ref_hz = Ok 0)
  /\ (List.length freqs = List.length amps ->
      PyStr.startswith (PyStr.lower ref_mode) "freq" = false ->
      (exists i, eligible_at amps i) ->
      exists r,
        _reference_index freqs amps ref_mode ref_hz = Ok r
        /\ eligible_at amps r
        /\ forall j, eligible_at amps j ->
             (amp_at amps j >? amp_at amps r)%py = false
             /\ (j < r -> (amp_at amps j <? amp_at amps r)%py = true))
  /\ _reference_index [f100_0; f200_0; f300_0] [f1_0; f2_0; f2_0] "max" f0_0
     = Ok 1.
Proof.
  destruct (finite_indices_spec amps) as [Hin Hsorted]. cbv zeta in Hin, Hsorted.
  split; [| split].
  - intros Hnone. unfold _reference_index.
    destruct (len freqs =? 0); [reflexivity |].
    destruct (map fst (filter (fun ia : Z * float => eligible (snd ia))
                              (enumerate amps))) as [| b items] eqn:E.
    + reflexivity.
    + exfalso. apply (Hnone b). apply Hin. left. reflexivity.
  - intros Hpar Hmode (i & Hi). unfold _reference_index.
    assert (Hn : (len freqs =? 0) = false).
    { apply Z.eqb_neq. unfold len. rewrite Hpar.
      destruct Hi as (_ & amp & Hnth & _).
      destruct amps; [destruct (Z.to_nat i); discriminate | simpl; lia]. }
    rewrite Hn, Hmode.
    destruct (map fst (filter (fun ia : Z * float => eligible (snd ia))
                              (enumerate amps))) as [| b items] eqn:E.
    + apply Hin in Hi. destruct Hi.
    + replace (len (b :: items) =? 0) with false
        by (symmetry; apply Z.eqb_neq; rewrite len_cons; unfold len; lia).
      unfold py_max, py_best.
      assert (Hb : eligible_at amps b) by (apply Hin; left; reflexivity).
      destruct (eligible_at_getitem amps b Hb) as [Hget _].
      rewrite Hget. cbn [rbind].
      inversion Hsorted as [| ? ? Hsorted' Hlt]; subst.
      rewrite Forall_forall in Hlt.
      destruct (best_by_key_first_max amps items b (fun j => j = b))
        as (r & Hr & Hwhere & Hmax).
      * intros x Hx. apply Hin. right. exact Hx.
      * intros j ->. exact Hb.
      * reflexivity.
      * intros j ->. split; [unfold gtb; apply ltb_irrefl | lia].
      * intros j x -> Hx. apply Hlt. exact Hx.
      * exact Hsorted'.
      * exists r. split; [exact Hr |]. split.
        -- apply Hin. destruct Hwhere as [-> | Hx]; [left; reflexivity | right; exact Hx].
        -- intros j Hj. apply Hmax. apply Hin in Hj.
           destruct Hj as [<- | Hj]; [left; reflexivity | right; exact Hj].
  - vm_compute. reflexivity.
Qed.

Lemma reference_index_first_max_witness :
  _reference_index [f100_0; f200_0; f300_0] [nan; fm2_0; f0_0] "max" f0_0 = Ok 0
  /\ exists r,
       _reference_index [f100_0; f200_0; f300_0] [f1_0; f2_0; f2_0] "MAX" f0_0
       = Ok r
       /\ (amp_at [f1_0; f2_0; f2_0] 2 >? amp_at [f1_0; f2_0; f2_0] r)%py = false
       /\ (0 < r -> (amp_at [f1_0; f2_0; f2_0] 0 <? amp_at [f1_0; f2_0; f2_0] r)%py
                    = true).
Proof.
  split.
  - apply (reference_index_first_max [f100_0; f200_0; f300_0]
             [nan; fm2_0; f0_0] "max" f0_0).
    intros i (Hi & amp & Hnth & Hel).
    destruct (Z.to_nat i) as [| [| [| n]]]; simpl in Hnth;
      [| | | destruct n; discriminate Hnth];
      injection Hnth as <-; vm_compute in Hel; discriminate Hel.
  - destruct (reference_index_first_max [f100_0; f200_0; f300_0]
                [f1_0; f2_0; f2_0] "MAX" f0_0) as (_ & Hmax & _).
    destruct Hmax as (r & Hr & _ & Hbest).
    + reflexivity.
    + reflexivity.
    + exists 1. split; [lia |]. exists f2_0. split; reflexivity.
    + exists r. split; [exact Hr |].
      assert (E0 : eligible_at [f1_0; f2_0; f2_0] 0).
      { split; [lia |]. exists f1_0. split; reflexivity. }
      assert (E2 : eligible_at [f1_0; f2_0; f2_0] 2).
      { split; [lia |]. exists f2_0. split; reflexivity. }
      split; [apply (Hbest 2 E2) | apply (Hbest 0 E0)].
Defined.

(** ** Sweep Drivers *)

(** Destruct the computation that the next [bind] of [H] runs. *)
Ltac run_bind H :=
  match type of H with
  | context [match ?c with (_, _) => _ end] =>
      let r := fresh "r" in let s := fresh "s" in let E := fresh "E" in
      destruct c as [r s] eqn:E; destruct r; try discriminate H
  end.

(** Run the first [bind] of [H], which states that a computation returns
    normally. *)
Ltac step_bind H := unfold bind at 1 in H; cbv beta in H; run_bind H.

Section DriverFacts.
Context {W : Type} (B : bench W).

(** *** Validation *)

Lemma check_common_cases (a : sweep_args) (s : state W) :
  (check_common a s = (Ok tt, s)
   /\ 2 <= points a
   /\ isfinite (amp_vpp a) = true /\ (amp_vpp a <=? f0_0)%py = false
   /\ isfinite (dwell_s a) = true /\ (dwell_s a <? f0_0)%py = false)
  \/ (exists msg, check_common a s = (Raise (ValueError msg), s)
      /\ (points a < 2
          \/ isfinite (amp_vpp a) = false \/ (amp_vpp a <=? f0_0)%py = true
          \/ isfinite (dwell_s a) = false \/ (dwell_s a <? f0_0)%py = true)).
Proof.
  unfold check_common.
  destruct (points a <? 2) eqn:Ep.
  { right. eexists. split; [reflexivity |]. apply Z.ltb_lt in Ep. tauto. }
  apply Z.ltb_ge in Ep.
  destruct (isfinite (amp_vpp a)) eqn:Ea; cbn [negb orb].
  2:{ right. eexists. split; [reflexivity | tauto]. }
  destruct (amp_vpp a <=? f0_0)%py eqn:Ea0.
  { right. eexists. split; [reflexivity | tauto]. }
  destruct (isfinite (dwell_s a)) eqn:Ed; cbn [negb orb].
  2:{ right. eexists. split; [reflexivity | tauto]. }
  destruct (dwell_s a <? f0_0)%py eqn:Ed0.
  { right. eexists. split; [reflexivity | tauto]. }
  left. repeat split; try reflexivity. exact Ep.
Qed.

Lemma check_calibration_cases (a : sweep_args) (s : state W) :
  (check_calibration a s = (Ok tt, s)
   /\ ~ (calibrate_to_vpp a <> None /\ calibration_curve a = None))
  \/ (exists msg, check_calibration a s = (Raise (ValueError msg), s)
      /\ calibrate_to_vpp a <> None /\ calibration_curve a = None).
Proof.
  unfold check_calibration.
  destruct (calibrate_to_vpp a) as [target |], (calibration_curve a) as [curve |].
  - left. split; [reflexivity |]. intros [_ C]. discriminate C.
  - right. eexists. split; [reflexivity |]. split; [discriminate | reflexivity].
  - left. split; [reflexivity |]. intros [C _]. apply C. reflexivity.
  - left. split; [reflexivity |]. intros [C _]. apply C. reflexivity.
Qed.

Lemma check_smoothing_cases (a : knee_args) (s : state W) :
  (check_smoothing a s = (Ok tt, s)
   /\ (smoothing_mode a = "median" \/ smoothing_mode a = "mean"
       \/ smoothing_mode a = "none"))
  \/ (exists msg, check_smoothing a s = (Raise (ValueError msg), s)
      /\ smoothing_mode a <> "median" /\ smoothing_mode a <> "mean"
      /\ smoothing_mode a <> "none").
Proof.
  unfold check_smoothing.
  destruct (String.eqb_spec (smoothing_mode a) "median") as [E1 | E1];
    [left; split; [reflexivity | tauto] |].
  destruct (String.eqb_spec (smoothing_mode a) "mean") as [E2 | E2];
    [left; split; [reflexivity | tauto] |].
  destruct (String.eqb_spec (smoothing_mode a) "none") as [E3 | E3];
    [left; split; [reflexivity | tauto] |].
  right. eexists. split; [reflexivity | tauto].
Qed.

Lemma thd_sweep_rejects (a : thd_args) (s : state W) :
  invalid_common a ->
  exists msg, thd_sweep B a s = (Raise (ValueError msg), s).
Proof.
  intros Hbad. unfold thd_sweep, thd_measure, bind.
  destruct (check_common_cases a s) as [(-> & Hok) | (msg & -> & _)];
    [| exists msg; reflexivity].
  destruct (check_calibration_cases a s) as [(-> & Hcal) | (msg & -> & _)];
    [| exists msg; reflexivity].
  exfalso. unfold invalid_common in Hbad.
  destruct Hok as (Hp & Ha & Ha0 & Hd & Hd0).
  destruct Hbad as [C | [C | [C | [C | [C | C]]]]];
    first [congruence | lia | tauto].
Qed.

Lemma knee_sweep_rejects (a : knee_args) (s : state W) :
  invalid_common a \/ invalid_knee a ->
  exists msg, knee_sweep B a s = (Raise (ValueError msg), s).
Proof.
  intros Hbad. unfold knee_sweep, knee_measure, bind.
  destruct (check_common_cases a s) as [(-> & Hok) | (msg & -> & _)];
    [| exists msg; reflexivity].
  destruct (isfinite (knee_drop_db a)) eqn:Ek; cbn [negb orb];
    [| eexists; reflexivity].
  destruct (knee_drop_db a <=? f0_0)%py eqn:Ek0; [eexists; reflexivity |].
  cbn [ret raise].
  destruct (check_calibration_cases a s) as [(-> & Hcal) | (msg & -> & _)];
    [| exists msg; reflexivity].
  destruct (check_smoothing_cases a s) as [(-> & Hsm) | (msg & -> & _)];
    [| exists msg; reflexivity].
  exfalso. unfold invalid_common, invalid_knee in Hbad.
  destruct Hok as (Hp & Ha & Ha0 & Hd & Hd0).
  destruct Hbad as [[C | [C | [C | [C | [C | C]]]]] | [C | [C | C]]];
    first [congruence | lia | tauto].
Qed.

End DriverFacts.

(** C5, as stated, fails for the smoothing name: ["MEDIAN"] is not one of
    ["median"], ["mean"], ["none"], and [knee_sweep] accepts it and runs
    the sweep. *)
Lemma knee_sweep_accepts_uppercase_smoothing :
  smoothing (Fake.knee_call 3 "MEDIAN") <> "median"
  /\ smoothing (Fake.knee_call 3 "MEDIAN") <> "mean"
  /\ smoothing (Fake.knee_call 3 "MEDIAN") <> "none"
  /\ exists out s',
       knee_sweep (Fake.the_bench Fake.no_faults) (Fake.knee_call 3 "MEDIAN")
         Fake.start = (Ok out, s').
Proof.
  repeat split; try discriminate.
  eexists. eexists. vm_compute. reflexivity.
Qed.

(** C5, amended: [thd_sweep] raises [ValueError], with the instrument
    world and the log untouched, when [points < 2], when [amp_vpp] is
    non-finite or [<= 0], when [dwell_s] is non-finite or negative, or
    when [calibrate_to_vpp] is given without a [calibration_curve];
    [knee_sweep] does so under the same conditions and also when
    [knee_drop_db] is non-finite or [<= 0], or when [smoothing], with an
    empty value read as ["none"] and then lower-cased, is not one of
    ["median"], ["mean"], ["none"]. *)
Theorem sweep_validation {W : Type} (B : bench W) :
  (forall (a : thd_args) (s : state W),
      invalid_common a ->
      exists msg, thd_sweep B a s = (Raise (ValueError msg), s))
  /\ (forall (a : knee_args) (s : state W),
        invalid_common a \/ invalid_knee a ->
        exists msg, knee_sweep B a s = (Raise (ValueError msg), s)).
Proof.
  split.
  - intros a s. apply thd_sweep_rejects.
  - intros a s. apply knee_sweep_rejects.
Qed.

Lemma sweep_validation_witness :
  (exists msg,
      thd_sweep (Fake.the_bench Fake.no_faults) (Fake.thd_call 1 None) Fake.start
      = (Raise (ValueError msg), Fake.start))
  /\ (exists msg,
        knee_sweep (Fake.the_bench Fake.no_faults) (Fake.knee_call 3 "boxcar")
          Fake.start
        = (Raise (ValueError msg), Fake.start)).
Proof.
  destruct (sweep_validation (Fake.the_bench Fake.no_faults)) as [Hthd Hknee].
  split.
  - apply Hthd. left. simpl. lia.
  - apply Hknee. right. right. right.
    repeat split; vm_compute; discriminate.
Defined.

(** *** Cleanup *)

Section CleanupFacts.
Context {W : Type} (B : bench W).

Lemma silent_ret {A} (a : A) : silent (ret a : M W A).
Proof. intros s. reflexivity. Qed.

Lemma silent_lift {A} (op : hwop W A) : silent (lift op).
Proof. intros s. unfold lift. destruct (op (hw s)). reflexivity. Qed.

Lemma silent_bind {A C} (c : M W A) (k : A -> M W C) :
  silent c -> (forall a, silent (k a)) -> silent (bind c k).
Proof.
  intros Hc Hk s. unfold bind. specialize (Hc s).
  destruct (c s) as [[a | e] s1]; simpl in *.
  - rewrite (Hk a s1). exact Hc.
  - exact Hc.
Qed.

Lemma silent_suppress {A} (c : M W A) : silent c -> silent (suppress c).
Proof.
  intros Hc s. unfold suppress. specialize (Hc s).
  destruct (c s) as [r s1]. exact Hc.
Qed.

Lemma silent_try_finally {A} (c : M W A) (final : M W unit) :
  silent c -> silent final -> silent (try_finally c final).
Proof.
  intros Hc Hf s. unfold try_finally. specialize (Hc s).
  destruct (c s) as [r s1]. specialize (Hf s1).
  destruct (final s1) as [[u | e] s2]; simpl in *; congruence.
Qed.

Lemma silent_scope_configure_timebase (resource : string)
    (seconds_per_div : option float) :
  silent (scope_configure_timebase B resource seconds_per_div).
Proof.
  unfold scope_configure_timebase.
  destruct seconds_per_div as [spd |]; [| apply silent_ret].
  destruct (HAVE_PYVISA B); cbn [negb]; [| apply silent_ret].
  apply silent_bind; [apply silent_lift | intros rm].
  apply silent_bind; [apply silent_lift | intros sc].
  apply silent_try_finally.
  - apply silent_bind; [apply silent_suppress, silent_lift | intros _].
    apply silent_lift.
  - apply silent_suppress, silent_lift.
Qed.

(** A suppressed computation returns normally. *)
Lemma suppress_returns {A} (c : M W A) (s : state W) :
  silent c -> exists s', suppress c s = (Ok tt, s') /\ logged s' = logged s.
Proof.
  intros Hc. unfold suppress. specialize (Hc s).
  destruct (c s) as [r s']. exists s'. split; [reflexivity | exact Hc].
Qed.

(** Once acquisition has been resumed, the rest of the cleanup of
    [thd_sweep] returns normally; it logs the warning when the generator
    update fails and nothing else. *)
Lemma thd_cleanup_after_resume (a : thd_args) (s1 s2 : state W) :
  scope_resume_run B (visa_resource a) s1 = (Ok tt, s2) ->
  exists s3,
    thd_cleanup B a s1 = (Ok tt, s3)
    /\ logged s3 =
       logged s2 ++
       match fst (_fy_apply B a (idle_tone (post_freq_hz a) (amp_vpp a)) s2) with
       | Raise exc => [fy_reset_warning a exc]
       | Ok _ => []
       end.
Proof.
  intros Hresume. unfold thd_cleanup.
  unfold bind at 1. rewrite Hresume.
  unfold bind at 1. unfold try_except, bind at 1.
  pose proof (silent_lift
                (fy_apply B (fy_port a) (fy_proto a)
                   (idle_tone (post_freq_hz a) (amp_vpp a))) s2) as Hfy.
  fold (_fy_apply B a (idle_tone (post_freq_hz a) (amp_vpp a))) in Hfy.
  destruct (_fy_apply B a (idle_tone (post_freq_hz a) (amp_vpp a)) s2)
    as [[ok | exc] sf]; cbn [fst snd] in *.
  - cbn [ret].
    destruct (post_seconds_per_div a) as [spd |].
    + destruct (suppress_returns
                  (scope_configure_timebase B (visa_resource a) (Some spd)) sf
                  (silent_scope_configure_timebase _ _)) as (s3 & -> & Hlog).
      exists s3. split; [reflexivity |].
      rewrite Hlog, Hfy, app_nil_r. reflexivity.
    + exists sf. split; [reflexivity |]. rewrite Hfy, app_nil_r. reflexivity.
  - unfold log_warning.
    destruct (post_seconds_per_div a) as [spd |].
    + match goal with
      | |- context [suppress ?c ?st] =>
          destruct (suppress_returns c st (silent_scope_configure_timebase _ _))
            as (s3 & -> & Hlog)
      end.
      exists s3. split; [reflexivity |].
      rewrite Hlog. cbn [logged]. rewrite Hfy. reflexivity.
    + eexists. split; [reflexivity |]. cbn [logged]. rewrite Hfy. reflexivity.
Qed.

End CleanupFacts.

(** C2, as stated, fails twice.  When the scope session cannot be opened
    after a completed measurement loop, the exception of
    [scope_resume_run] leaves [thd_sweep].  When the scope rejects the
    timebase command, the exception is suppressed, but no warning is
    logged. *)
Lemma thd_sweep_cleanup_escapes_or_is_silent :
  let a := Fake.thd_call 3 (Some f0_01) in
  (exists r s1 e s2,
      thd_measure (Fake.the_bench Fake.unplugged) a Fake.start = (Ok r, s1)
      /\ thd_sweep (Fake.the_bench Fake.unplugged) a Fake.start = (Raise e, s2))
  /\ (exists r s1 s2 e s',
        thd_measure (Fake.the_bench Fake.rejects_timebase) a Fake.start
        = (Ok r, s1)
        /\ thd_sweep (Fake.the_bench Fake.rejects_timebase) a Fake.start
           = (Ok r, s2)
        /\ scope_configure_timebase (Fake.the_bench Fake.rejects_timebase)
             (visa_resource a) (post_seconds_per_div a) s1 = (Raise e, s')
        /\ In (Fake.EvWrite "HORizontal:MAIn:SCAle 0.0001") (hw s2)
        /\ logged s2 = []).
Proof.
  split.
  - do 4 eexists. split; vm_compute; reflexivity.
  - do 5 eexists. split; [vm_compute; reflexivity |].
    split; [vm_compute; reflexivity |].
    split; [vm_compute; reflexivity |].
    split; [| vm_compute; reflexivity].
    vm_compute. do 9 right. left. reflexivity.
Qed.

(** C2, amended: if the measurement loop of [thd_sweep] completes and
    [scope_resume_run] returns normally, then [thd_sweep] returns
    [(rows, out_path, suppressions)] normally: an exception raised while
    restoring the generator idle tone at [post_freq_hz] with the original
    [amp_vpp] is caught and logged as a warning, and an exception raised
    while restoring the timebase is suppressed without a log record. *)
Theorem thd_sweep_cleanup_best_effort {W : Type} (B : bench W) (a : thd_args)
    (s s1 s2 : state W) (r : list row * option string * list suppression) :
  thd_measure B a s = (Ok r, s1) ->
  scope_resume_run B (visa_resource a) s1 = (Ok tt, s2) ->
  exists s3,
    thd_sweep B a s = (Ok r, s3)
    /\ logged s3 =
       logged s2 ++
       match fst (_fy_apply B a (idle_tone (post_freq_hz a) (amp_vpp a)) s2) with
       | Raise exc => [fy_reset_warning a exc]
       | Ok _ => []
       end.
Proof.
  intros Hmeasure Hresume.
  destruct (thd_cleanup_after_resume B a s1 s2 Hresume) as (s3 & Hclean & Hlog).
  exists s3. split; [| exact Hlog].
  unfold thd_sweep, bind. rewrite Hmeasure, Hclean. reflexivity.
Qed.

(** The generator link is lost at 1 kHz and the scope rejects nothing:
    the sweep returns its rows and the log holds the one warning. *)
Lemma thd_sweep_cleanup_best_effort_witness :
  exists r s3 exc,
    thd_sweep (Fake.the_bench Fake.link_lost_at_idle)
      (Fake.thd_call 3 (Some f0_01)) Fake.start = (Ok r, s3)
    /\ logged s3 = [fy_reset_warning (Fake.thd_call 3 (Some f0_01)) exc].
Proof.
  destruct (thd_sweep_cleanup_best_effort
              (Fake.the_bench Fake.link_lost_at_idle)
              (Fake.thd_call 3 (Some f0_01)) Fake.start
              (snd (thd_measure (Fake.the_bench Fake.link_lost_at_idle)
                      (Fake.thd_call 3 (Some f0_01)) Fake.start))
              (snd (scope_resume_run (Fake.the_bench Fake.link_lost_at_idle)
                      "FAKE::SCOPE"
                      (snd (thd_measure (Fake.the_bench Fake.link_lost_at_idle)
                              (Fake.thd_call 3 (Some f0_01)) Fake.start))))
              ([(f100_0, f1_0, f2_0, f1_0); (f200_0, f1_0, f2_0, f1_0)], None, []))
    as (s3 & Hrun & Hlog).
  - vm_compute. reflexivity.
  - vm_compute. reflexivity.
  - exists ([(f100_0, f1_0, f2_0, f1_0); (f200_0, f1_0, f2_0, f1_0)], None, []).
    exists s3. eexists. split; [exact Hrun |].
    rewrite Hlog. vm_compute. reflexivity.
Defined.

(** *** Relative level of the knee rows *)

Section KneeFacts.
Context {W : Type} (B : bench W).

(** What [knee_measure] returns is built from what the per-point loop
    returned. *)
Lemma knee_measure_returns (a : knee_args) (s s' : state W) (out : knee_output) :
  knee_measure B a s = (Ok out, s') ->
  exists result,
    out_rows out = map (knee_row B a (kpi_knees result)) (kpi_rows result)
    /\ out_knees out = kpi_knees result
    /\ out_ref_db out = knee_ref_db (kpi_knees result).
Proof.
  unfold knee_measure, write_output. intros H.
  do 4 step_bind H.
  unfold bind at 1 in H; cbv beta in H.
  destruct (sweep_audio_kpis B _ _) as [[result | e] s5]; [| discriminate H].
  exists result.
  destruct (output a) as [path |].
  - step_bind H. unfold bind, ret in H. injection H as <- <-. repeat split.
  - unfold bind, ret in H. injection H as <- <-. repeat split.
Qed.

Lemma knee_sweep_returns (a : knee_args) (s s' : state W) (out : knee_output) :
  knee_sweep B a s = (Ok out, s') ->
  exists s1, knee_measure B a s = (Ok out, s1).
Proof.
  unfold knee_sweep. intros H.
  unfold bind at 1 in H; cbv beta in H.
  destruct (knee_measure B a s) as [[out1 | e] s1]; [| discriminate H].
  step_bind H. unfold ret in H. injection H as <- <-. eauto.
Qed.

(** The relative level of one row. *)
Lemma knee_row_rel_db (a : knee_args) (knees : option knee_result) (r : raw_row)
    (freq vr pk rel_db : float) :
  knee_row B a knees r = (freq, vr, pk, rel_db) ->
  match knees with
  | Some (_, _, _, ref_db) =>
      rel_db =
      (if isfinite pk && (pk >? f0_0)%py && isfinite ref_db
       then (f20_0 * log10 B pk - ref_db)%py
       else neg_inf)
  | None => rel_db = neg_inf
  end.
Proof.
  destruct r as [[[[freq0 vr0] pk0] thd_ratio] thd_percent].
  unfold knee_row. intros H. injection H as <- <- <- <-.
  destruct knees as [[[[f_lo f_hi] ref_amp] ref_db] |]; reflexivity.
Qed.

End KneeFacts.

(** C8: in the rows [knee_sweep] returns, the fourth column is
    [20*log10(pkpk) - ref_db] for every row whose calibration-corrected
    [pkpk] is finite and above zero, when knees were found and [ref_db]
    is finite, and it is minus infinity for every other row, in
    particular for every row when no knees were found. *)
Theorem knee_sweep_rel_db {W : Type} (B : bench W) (a : knee_args)
    (s s' : state W) (out : knee_output) :
  knee_sweep B a s = (Ok out, s') ->
  forall freq vr pk rel_db,
    In (freq, vr, pk, rel_db) (out_rows out) ->
    match out_knees out with
    | Some (_, _, _, ref_db) =>
        out_ref_db out = ref_db
        /\ rel_db =
           (if isfinite pk && (pk >? f0_0)%py && isfinite ref_db
            then (f20_0 * log10 B pk - ref_db)%py
            else neg_inf)
    | None => rel_db = neg_inf
    end.
Proof.
  intros Hrun freq vr pk rel_db Hin.
  destruct (knee_sweep_returns B a s s' out Hrun) as [s1 Hmeasure].
  destruct (knee_measure_returns B a s s1 out Hmeasure)
    as (result & Hrows & Hknees & Href).
  rewrite Hrows in Hin. apply in_map_iff in Hin. destruct Hin as (r & Hr & _).
  apply knee_row_rel_db in Hr. rewrite Hknees, Href.
  destruct (kpi_knees result) as [[[[f_lo f_hi] ref_amp] ref_db] |].
  - split; [reflexivity | exact Hr].
  - exact Hr.
Qed.

(** A knee sweep on the fake bench: both rows have [pkpk = 2.0], the
    reference level is 6 dB, and the relative level is
    [20 * log10(2) - 6]. *)
Lemma knee_sweep_rel_db_witness :
  exists out s',
    knee_sweep (Fake.the_bench Fake.no_faults) (Fake.knee_call 3 "median")
      Fake.start = (Ok out, s')
    /\ In (f100_0, f1_0, f2_0, (f20_0 * log10_2 - f6_0)%py) (out_rows out)
    /\ out_ref_db out = f6_0.
Proof.
  pose (run := knee_sweep (Fake.the_bench Fake.no_faults)
                 (Fake.knee_call 3 "median") Fake.start).
  assert (Hrun : run = (match fst run with Ok out => Ok out | Raise e => Raise e end,
                        snd run)).
  { vm_compute. reflexivity. }
  assert (Hout : exists out, fst run = Ok out
                   /\ In (f100_0, f1_0, f2_0, (f20_0 * log10_2 - f6_0)%py)
                         (out_rows out)
                   /\ out_knees out = Some (f20_0, f20000_0, f2_0, f6_0)).
  { eexists. split; [vm_compute; reflexivity |].
    split; [left; vm_compute; reflexivity | vm_compute; reflexivity]. }
  destruct Hout as (out & Hfst & Hin & Hknees).
  exists out, (snd run). rewrite Hfst in Hrun. split; [exact Hrun |].
  split; [exact Hin |].
  pose proof (knee_sweep_rel_db (Fake.the_bench Fake.no_faults)
                (Fake.knee_call 3 "median") Fake.start (snd run) out Hrun
                f100_0 f1_0 f2_0 (f20_0 * log10_2 - f6_0)%py Hin) as Hrel.
  rewrite Hknees in Hrel. destruct Hrel as [Href _]. exact Href.
Defined.

(** * Further properties of the code *)

(** ** Floats: the order of [<] on all floats *)

Lemma ltb_rank (x y : float) :
  (x <? y)%py = true <->
  isnan x = false /\ isnan y = false /\ rank_lt (rank x) (rank y).
Proof.
  unfold ltb, SFltb, rank_lt.
  destruct x as [sx | sx | | sx mx ex], y as [sy | sy | | sy my ey];
    try destruct sx; try destruct sy; simpl;
    try (split; [discriminate | intros (? & ? & ?); first [discriminate | lia]]);
    try (split; [intros _; repeat split; lia | reflexivity]).
  - change (Pos.compare_cont Eq mx my) with (Pos.compare mx my).
    destruct (Z.compare_spec ex ey) as [He | He | He];
      [destruct (Pos.compare_spec mx my) as [Hm | Hm | Hm] | |];
      simpl; split; intros H;
      try discriminate H; try reflexivity; try (repeat split; lia);
      destruct H as (_ & _ & H); lia.
  - change (Pos.compare_cont Eq mx my) with (Pos.compare mx my).
    destruct (Z.compare_spec ex ey) as [He | He | He];
      [destruct (Pos.compare_spec mx my) as [Hm | Hm | Hm] | |];
      simpl; split; intros H;
      try discriminate H; try reflexivity; try (repeat split; lia);
      destruct H as (_ & _ & H); lia.
Qed.

Lemma ltb_rank_false (x y : float) :
  isnan x = false -> isnan y = false ->
  (x <? y)%py = false <-> ~ rank_lt (rank x) (rank y).
Proof.
  intros Hx Hy. destruct (x <? y)%py eqn:E.
  - apply ltb_rank in E. split; [discriminate | tauto].
  - split; [| reflexivity]. intros _ C.
    assert (T : (x <? y)%py = true) by (apply ltb_rank; tauto).
    congruence.
Qed.

Lemma ltb_not_nan (x y : float) :
  (x <? y)%py = true -> isnan x = false /\ isnan y = false.
Proof. intros H. apply ltb_rank in H. tauto. Qed.

Lemma isfinite_not_nan (x : float) : isfinite x = true -> isnan x = false.
Proof. destruct x; simpl; congruence. Qed.

Lemma rank_lt_trans (a b c : Z * Z * Z) :
  rank_lt a b -> rank_lt b c -> rank_lt a c.
Proof.
  destruct a as [[a1 a2] a3], b as [[b1 b2] b3], c as [[c1 c2] c3].
  unfold rank_lt. lia.
Qed.

Lemma rank_lt_total (a b : Z * Z * Z) : rank_lt a b \/ a = b \/ rank_lt b a.
Proof.
  destruct a as [[a1 a2] a3], b as [[b1 b2] b3]. unfold rank_lt.
  destruct (Z.lt_total a1 b1) as [? | [? | ?]];
    destruct (Z.lt_total a2 b2) as [? | [? | ?]];
    destruct (Z.lt_total a3 b3) as [? | [? | ?]]; subst;
    first [left; lia | right; right; lia | right; left; reflexivity].
Qed.

Lemma rank_lt_irrefl (a : Z * Z * Z) : ~ rank_lt a a.
Proof. destruct a as [[a1 a2] a3]. unfold rank_lt. lia. Qed.

(** [<] is transitive and asymmetric. *)
Lemma ltb_trans (x y z : float) :
  (x <? y)%py = true -> (y <? z)%py = true -> (x <? z)%py = true.
Proof.
  rewrite !ltb_rank. intros (Hx & _ & Hxy) (_ & Hz & Hyz).
  repeat split; try assumption. eapply rank_lt_trans; eassumption.
Qed.

Lemma ltb_asym (x y : float) : (x <? y)%py = true -> (y <? x)%py = false.
Proof.
  intros H. destruct (ltb_not_nan _ _ H) as [Hx Hy].
  apply ltb_rank_false; try assumption.
  apply ltb_rank in H. destruct H as (_ & _ & H). intros C.
  apply (rank_lt_irrefl (rank x)). eapply rank_lt_trans; eassumption.
Qed.

(** Among floats that are not NaN, [<=] is transitive and mixes with
    [<]. *)
Lemma not_above_trans (x y z : float) :
  isnan x = false -> isnan y = false -> isnan z = false ->
  not_above x y -> not_above y z -> not_above x z.
Proof.
  unfold not_above. intros Hx Hy Hz.
  rewrite !ltb_rank_false by assumption. intros Hxy Hyz C.
  destruct (rank_lt_total (rank x) (rank y)) as [L | [E | L]]; [| | tauto].
  - apply Hyz. eapply rank_lt_trans; eassumption.
  - rewrite E in C. tauto.
Qed.

Lemma not_above_lt_trans (x y z : float) :
  isnan x = false -> not_above x y -> (y <? z)%py = true -> (x <? z)%py = true.
Proof.
  unfold not_above. intros Hx Hxy Hyz.
  destruct (ltb_not_nan _ _ Hyz) as [Hy Hz].
  rewrite ltb_rank_false in Hxy by assumption.
  apply ltb_rank in Hyz. destruct Hyz as (_ & _ & Hyz).
  apply ltb_rank. repeat split; try assumption.
  destruct (rank_lt_total (rank x) (rank y)) as [L | [E | L]]; [| | tauto].
  - eapply rank_lt_trans; eassumption.
  - rewrite E. assumption.
Qed.

Lemma lt_not_above_trans (x y z : float) :
  isnan z = false -> (x <? y)%py = true -> not_above y z -> (x <? z)%py = true.
Proof.
  unfold not_above. intros Hz Hxy Hyz.
  destruct (ltb_not_nan _ _ Hxy) as [Hx Hy].
  rewrite ltb_rank_false in Hyz by assumption.
  apply ltb_rank in Hxy. destruct Hxy as (_ & _ & Hxy).
  apply ltb_rank. repeat split; try assumption.
  destruct (rank_lt_total (rank y) (rank z)) as [L | [E | L]]; [| | tauto].
  - eapply rank_lt_trans; eassumption.
  - rewrite <- E. assumption.
Qed.

Lemma not_above_refl (x : float) : not_above x x.
Proof. apply ltb_irrefl. Qed.

Lemma not_above_total (x y : float) : not_above x y \/ not_above y x.
Proof.
  unfold not_above. destruct (y <? x)%py eqn:E; [| left; reflexivity].
  right. apply ltb_asym. exact E.
Qed.

(** ** Amplitude Sanitizer, on any input *)

Lemma clean_loop_length (amps : list float) :
  forall last_finite,
    List.length (clean_loop last_finite amps) = List.length amps.
Proof.
  induction amps as [| amp rest IH]; intros last_finite; simpl.
  - reflexivity.
  - destruct (isfinite amp && (amp >? f0_0)%py); simpl; rewrite IH; reflexivity.
Qed.

Lemma clean_loop_all_eligible (amps : list float) :
  forall last_finite,
    eligible last_finite = true ->
    Forall (fun v => eligible v = true) (clean_loop last_finite amps).
Proof.
  induction amps as [| amp rest IH]; intros last_finite Hlast; simpl.
  - constructor.
  - fold (eligible amp). destruct (eligible amp) eqn:Eamp.
    + rewrite (eligible_abs amp Eamp). constructor; [exact Eamp | apply IH; exact Eamp].
    + constructor; [exact Hlast | apply IH; exact Hlast].
Qed.

(** X1: the sanitizer keeps the length, and every value it returns is finite
    and above zero, whatever the input holds. *)
Theorem clean_amplitudes_positive_finite (amps : list float) :
  List.length (_clean_amplitudes amps) = List.length amps
  /\ Forall (fun v => isfinite v = true /\ (v >? f0_0)%py = true)
            (_clean_amplitudes amps).
Proof.
  split; [apply clean_loop_length |].
  eapply Forall_impl; [| apply clean_loop_all_eligible; reflexivity].
  intros v Hv. unfold eligible in Hv. apply andb_true_iff in Hv. exact Hv.
Qed.

(** X2: sanitizing twice is sanitizing once. *)
Theorem clean_amplitudes_idempotent (amps : list float) :
  _clean_amplitudes (_clean_amplitudes amps) = _clean_amplitudes amps.
Proof.
  assert (H : Forall (fun v => eligible v = true) (_clean_amplitudes amps))
    by (apply clean_loop_all_eligible; reflexivity).
  unfold _clean_amplitudes at 1.
  rewrite (clean_loop_eligible _ _ H). apply map_abs_eligible. exact H.
Qed.

Lemma clean_loop_carry (amps : list float) :
  forall last_finite i amp,
    nth_error amps i = Some amp ->
    nth_error (clean_loop last_finite amps) i =
    Some (if eligible amp then amp
          else match i with
               | O => last_finite
               | S j => nth j (clean_loop last_finite amps) last_finite
               end).
Proof.
  induction amps as [| a rest IH]; intros last_finite i amp Hi.
  - destruct i; discriminate Hi.
  - cbn [clean_loop]. fold (eligible a).
    destruct i as [| i].
    + injection Hi as ->. destruct (eligible amp) eqn:E; simpl.
      * rewrite (eligible_abs amp E). reflexivity.
      * reflexivity.
    + simpl in Hi.
      assert (Hlen : (i < List.length rest)%nat)
        by (apply nth_error_Some; congruence).
      destruct (eligible a) eqn:Ea; [rewrite (eligible_abs a Ea) |];
        cbn [nth_error nth]; rewrite (IH _ i amp Hi);
        destruct (eligible amp); try reflexivity;
        destruct i as [| j]; try reflexivity;
        f_equal; apply nth_indep; rewrite clean_loop_length; lia.
Qed.

(** X3: carry-forward, position by position: a valid sample is returned as it
    is; an invalid one is replaced by the value returned just before it,
    and by [1e-12] at the first position. *)
Theorem clean_amplitudes_carry_forward (amps : list float) (i : nat) (amp : float) :
  nth_error amps i = Some amp ->
  nth_error (_clean_amplitudes amps) i =
  Some (if isfinite amp && (amp >? f0_0)%py then amp
        else match i with
             | O => f1em12
             | S j => nth j (_clean_amplitudes amps) f1em12
             end).
Proof. apply clean_loop_carry. Qed.

Lemma clean_amplitudes_carry_forward_witness :
  nth_error (_clean_amplitudes [nan; f2_0; fm2_0]) 0 = Some f1em12
  /\ nth_error (_clean_amplitudes [nan; f2_0; fm2_0]) 1 = Some f2_0
  /\ nth_error (_clean_amplitudes [nan; f2_0; fm2_0]) 2 = Some f2_0.
Proof.
  split; [| split].
  - apply (clean_amplitudes_carry_forward [nan; f2_0; fm2_0] 0 nan). reflexivity.
  - apply (clean_amplitudes_carry_forward [nan; f2_0; fm2_0] 1 f2_0). reflexivity.
  - apply (clean_amplitudes_carry_forward [nan; f2_0; fm2_0] 2 fm2_0). reflexivity.
Defined.

(** ** Series Smoother *)






(** X5: an even window smooths as the next odd one. *)
Theorem smooth_series_even_window (fmean : list float -> float)
    (values : list float) (window : Z) (mode : string) :
  2 <= window -> window mod 2 = 0 ->
  _smooth_series fmean values window mode
  = _smooth_series fmean values (window + 1) mode.
Proof.
  intros Hw Heven. unfold _smooth_series.
  destruct (len values =? 0); cbn [orb]; [reflexivity |].
  replace (window <=? 1) with false by (symmetry; apply Z.leb_gt; lia).
  replace (window + 1 <=? 1) with false by (symmetry; apply Z.leb_gt; lia).
  replace (Z.max 1 window) with window by lia.
  replace (Z.max 1 (window + 1)) with (window + 1) by lia.
  replace (window mod 2 =? 0) with true by (symmetry; apply Z.eqb_eq; exact Heven).
  replace ((window + 1) mod 2 =? 0) with false; [reflexivity |].
  symmetry. apply Z.eqb_neq.
  rewrite Z.add_mod, Heven by lia. cbn. lia.
Qed.

Lemma smooth_series_even_window_witness :
  _smooth_series (fun _ => nan) [f1_0; f5_0; f2_0; f3_0] 2 "median"
  = _smooth_series (fun _ => nan) [f1_0; f5_0; f2_0; f3_0] 3 "median".
Proof.
  apply (smooth_series_even_window (fun _ => nan) [f1_0; f5_0; f2_0; f3_0] 2
           "median"); [lia | reflexivity].
Defined.

Lemma insert_sorted_in (x y : float) (acc : list float) :
  In y (insert_sorted x acc) <-> y = x \/ In y acc.
Proof.
  induction acc as [| a acc IH]; simpl.
  - split; [intros [<- | []]; left; reflexivity | intros [-> | []]; left; reflexivity].
  - destruct (x <? a)%py; simpl.
    + split; [intros [<- | H]; [left; reflexivity | right; exact H]
             | intros [-> | H]; [left; reflexivity | right; exact H]].
    + rewrite IH. split.
      * intros [<- | [-> | H]]; [right; left | left | right; right]; auto.
      * intros [-> | [<- | H]]; [right; left | left | right; right]; auto.
Qed.

(** [sorted] rearranges its argument. *)
Lemma sorted_in (y : float) (data : list float) :
  In y (sorted data) <-> In y data.
Proof.
  unfold sorted.
  assert (G : forall acc,
             In y (fold_left (fun acc x => insert_sorted x acc) data acc)
             <-> In y acc \/ In y data).
  { induction data as [| x data IH]; intros acc; simpl.
    - tauto.
    - rewrite IH, insert_sorted_in. split.
      + intros [[-> | H] | H]; auto.
      + intros [H | [<- | H]]; auto. }
  rewrite G. simpl. tauto.
Qed.

(** The median of an odd number of values is one of them. *)
Lemma median_odd_in (data : list float) :
  len data mod 2 = 1 -> exists m, median data = Ok m /\ In m data.
Proof.
  intros Hodd. unfold median.
  assert (Hlen : len (sorted data) = len data)
    by (unfold len; rewrite sorted_length; reflexivity).
  rewrite Hlen.
  assert (Hpos : 0 < len data).
  { destruct (Z.eq_dec (len data) 0) as [E | E]; [rewrite E in Hodd; discriminate |].
    unfold len in *. lia. }
  replace (len data =? 0) with false by (symmetry; apply Z.eqb_neq; lia).
  replace (len data mod 2 =? 1) with true by (symmetry; apply Z.eqb_eq; exact Hodd).
  eexists. split; [reflexivity |].
  apply sorted_in. apply nth_In. rewrite sorted_length.
  assert (len data / 2 < len data) by (apply Z.div_lt; lia).
  unfold len in *. lia.
Qed.

Lemma filter_all {A} (p : A -> bool) (xs : list A) :
  Forall (fun x => p x = true) xs -> filter p xs = xs.
Proof.
  induction 1 as [| x xs Hx _ IH]; simpl; [reflexivity |].
  rewrite Hx, IH. reflexivity.
Qed.

Lemma in_firstn_skipn {A} (x : A) (n k : nat) (xs : list A) :
  In x (firstn n (skipn k xs)) -> In x xs.
Proof.
  intros H.
  rewrite <- (firstn_skipn k xs). apply in_or_app. right.
  rewrite <- (firstn_skipn n (skipn k xs)). apply in_or_app. left. exact H.
Qed.

(** X6: with the median and an input of finite values, the smoother invents
    nothing: every value it returns is the magnitude of a sample. *)
Theorem smooth_series_median_selects (fmean : list float -> float)
    (values : list float) (window : Z) (mode : string) (out : list float) :
  Forall (fun v => isfinite v = true) values ->
  PyStr.lower mode <> "mean" ->
  1 < window ->
  _smooth_series fmean values window mode = Ok out ->
  forall y, In y out -> exists x, In x values /\ y = abs x.
Proof.
  intros Hfin Hmode Hw. unfold _smooth_series.
  destruct (len values =? 0) eqn:En; cbn [orb].
  { apply len_nil_iff in En. subst values. intros H; injection H as <-. intros y []. }
  apply Z.eqb_neq in En.
  replace (window <=? 1) with false by (symmetry; apply Z.leb_gt; lia).
  apply String.eqb_neq in Hmode. rewrite Hmode.
  replace (Z.max 1 window) with window by lia.
  set (win := if window mod 2 =? 0 then window + 1 else window).
  assert (Hodd : win mod 2 = 1 /\ 1 < win).
  { subst win. destruct (window mod 2 =? 0) eqn:E.
    - apply Z.eqb_eq in E. split; [| lia].
      rewrite Z.add_mod, E by lia. reflexivity.
    - apply Z.eqb_neq in E. split; [| lia].
      pose proof (Z.mod_pos_bound window 2). lia. }
  destruct Hodd as [Hodd Hwin].
  set (padded := replicate (win / 2) (nth 0 values nan) ++ values
                 ++ replicate (win / 2) (last values nan)).
  assert (Hne : values <> []) by (intros C; subst values; apply En; reflexivity).
  assert (Hpad_in : forall x, In x padded -> In x values).
  { intros x Hx. subst padded. unfold replicate in Hx.
    apply in_app_or in Hx. destruct Hx as [Hx | Hx].
    - apply repeat_spec in Hx. subst x.
      apply nth_In. destruct values; [congruence | simpl; lia].
    - apply in_app_or in Hx. destruct Hx as [Hx | Hx]; [exact Hx |].
      apply repeat_spec in Hx. subst x.
      rewrite (app_removelast_last nan Hne) at 2.
      apply in_or_app. right. left. reflexivity. }
  assert (Hpad_len : len padded = len values + 2 * (win / 2)).
  { subst padded. unfold len, replicate.
    rewrite !length_app, !repeat_length.
    assert (0 <= win / 2) by (apply Z.div_pos; lia). lia. }
  assert (Hhalf : 2 * (win / 2) = win - 1).
  { pose proof (Z.div_mod win 2). lia. }
  assert (G : forall (idxs : list Z) res,
             (forall i, In i idxs -> 0 <= i < len values) ->
             rmap (fun i =>
                     let segment := slice padded i (i + win) in
                     let finite := map abs (filter isfinite segment) in
                     if len finite =? 0 then Ok nan else median finite) idxs
             = Ok res ->
             forall y, In y res -> exists x, In x values /\ y = abs x).
  { induction idxs as [| i idxs IH]; intros res Hidx Hres y Hy.
    - injection Hres as <-. destruct Hy.
    - cbn [rmap] in Hres. cbv zeta in Hres.
      set (segment := slice padded i (i + win)) in *.
      assert (Hseg_in : forall x, In x segment -> In x values).
      { intros x Hx. apply Hpad_in. subst segment. unfold slice in Hx.
        eapply in_firstn_skipn. exact Hx. }
      assert (Hseg_fin : Forall (fun x => isfinite x = true) segment).
      { apply Forall_forall. intros x Hx.
        rewrite Forall_forall in Hfin. apply Hfin, Hseg_in, Hx. }
      rewrite (filter_all _ _ Hseg_fin) in Hres.
      assert (Hseg_len : len segment = win).
      { subst segment. unfold slice, len.
        rewrite length_firstn, length_skipn.
        specialize (Hidx i (or_introl eq_refl)).
        unfold len in Hpad_len, Hidx. lia. }
      assert (Hmap_len : len (map abs segment) = win)
        by (unfold len in *; rewrite length_map; exact Hseg_len).
      rewrite Hmap_len in Hres.
      replace (win =? 0) with false in Hres by (symmetry; apply Z.eqb_neq; lia).
      destruct (median_odd_in (map abs segment)) as (m & Hm & Hin);
        [rewrite Hmap_len; exact Hodd |].
      rewrite Hm in Hres. cbn [rbind] in Hres.
      destruct (rmap _ idxs) as [rest | e] eqn:Erest; [| discriminate Hres].
      cbn [rbind] in Hres. injection Hres as <-.
      destruct Hy as [<- | Hy].
      + apply in_map_iff in Hin. destruct Hin as (x & <- & Hx).
        exists x. split; [apply Hseg_in; exact Hx | reflexivity].
      + apply (IH rest); [| reflexivity | exact Hy].
        intros j Hj. apply Hidx. right. exact Hj. }
  intros Hrun. apply (G (range 0 (len values)) out); [| exact Hrun].
  intros i Hi. apply in_range in Hi. exact Hi.
Qed.

Lemma smooth_series_median_selects_witness :
  exists x, In x [f1_0; fm2_0; f5_0] /\ f2_0 = abs x.
Proof.
  apply (smooth_series_median_selects (fun _ => nan) [f1_0; fm2_0; f5_0] 3
           "median" [f1_0; f2_0; f5_0]).
  - repeat constructor.
  - vm_compute. discriminate.
  - lia.
  - vm_compute. reflexivity.
  - right. left. reflexivity.
Defined.

(** ** Monotonic Envelope Builder: what holds for every input *)

Lemma envelope_loop_snoc (l : list float) (x : float) :
  forall current,
    removelast (envelope_loop current (l ++ [x])) = envelope_loop current l.
Proof.
  induction l as [| val l IH]; intros current.
  - reflexivity.
  - cbn [app envelope_loop].
    match goal with
    | |- removelast (?next :: ?T) = _ =>
        specialize (IH next);
        pose proof (envelope_loop_length (l ++ [x]) next) as Hlen;
        destruct T as [| t0 T'] eqn:E
    end.
    + rewrite length_app in Hlen. simpl in Hlen. lia.
    + cbn [removelast] in *. rewrite IH. reflexivity.
Qed.

Lemma firstn_snoc {A} (n : nat) (xs : list A) (d : A) :
  (n < List.length xs)%nat -> firstn (S n) xs = firstn n xs ++ [nth n xs d].
Proof.
  revert xs. induction n as [| n IH]; intros xs Hn.
  - destruct xs; [simpl in Hn; lia | reflexivity].
  - destruct xs as [| x xs]; [simpl in Hn; lia |].
    change (x :: firstn (S n) xs = (x :: firstn n xs) ++ [nth n xs d]).
    rewrite IH by (simpl in Hn; lia). reflexivity.
Qed.

(** The result is the running maximum of the samples before the
    reference, followed by the reversed running maximum of the reversed
    samples from the reference on. *)
Lemma monotonic_envelope_split (values : list float) (ref_index : Z) :
  values <> [] ->
  let idx := Z.to_nat (Z.max 0 (Z.min ref_index (len values - 1))) in
  (idx < List.length values)%nat
  /\ _monotonic_envelope values ref_index =
     envelope_loop neg_inf (firstn idx values)
     ++ rev (envelope_loop neg_inf (rev (skipn idx values)))
  /\ List.length (envelope_loop neg_inf (firstn idx values)) = idx.
Proof.
  intros Hne idx.
  assert (Hlen : 0 < len values).
  { unfold len. destruct values; [congruence | simpl; lia]. }
  assert (Hidx : (idx < List.length values)%nat) by (subst idx; unfold len in *; lia).
  split; [exact Hidx |]. split.
  - unfold _monotonic_envelope.
    replace (len values =? 0) with false by (symmetry; apply Z.eqb_neq; lia).
    replace (Z.to_nat (Z.max 0 (Z.min ref_index (len values - 1)) + 1))
      with (S idx) by (subst idx; lia).
    fold idx.
    rewrite (firstn_snoc idx values nan Hidx), envelope_loop_snoc. reflexivity.
  - rewrite envelope_loop_length, length_firstn. lia.
Qed.

Lemma firstn_app_exact {A} (xs ys : list A) :
  firstn (List.length xs) (xs ++ ys) = xs.
Proof.
  induction xs as [| x xs IH]; simpl; [destruct ys; reflexivity |].
  rewrite IH. reflexivity.
Qed.

Lemma skipn_app_exact {A} (xs ys : list A) :
  skipn (List.length xs) (xs ++ ys) = ys.
Proof. induction xs as [| x xs IH]; simpl; [reflexivity | exact IH]. Qed.

Lemma Sorted_snoc {A} (R : A -> A -> Prop) (l : list A) (a d : A) :
  Sorted R l -> (l <> [] -> R (last l d) a) -> Sorted R (l ++ [a]).
Proof.
  induction l as [| x l IH]; intros Hs Hlast.
  - repeat constructor.
  - inversion Hs as [| ? ? Hs' Hhd]; subst. cbn [app].
    constructor.
    + apply IH; [exact Hs' |]. intros Hne. 
      destruct l as [| y l']; [exfalso; apply Hne; reflexivity |]. apply Hlast. discriminate.
    + destruct l as [| y l']; cbn [app].
      * constructor. apply Hlast. discriminate.
      * inversion Hhd; subst. constructor. assumption.
Qed.

Lemma last_rev_hd {A} (l : list A) (x d : A) : last (rev (x :: l)) d = x.
Proof. cbn [rev]. apply last_last. Qed.

(** Reversing a chain reverses its relation. *)
Lemma Sorted_rev {A} (R : A -> A -> Prop) (l : list A) :
  Sorted R l -> Sorted (fun x y => R y x) (rev l).
Proof.
  induction 1 as [| a l Hs IH Hhd].
  - constructor.
  - cbn [rev]. apply (Sorted_snoc _ _ _ a); [exact IH |].
    intros Hne. destruct l as [| b l']; [exfalso; apply Hne; reflexivity |].
    rewrite last_rev_hd. inversion Hhd; subst. assumption.
Qed.

(** X7: every value of the envelope is finite; the values before the
    reference never decrease and the values from the reference on never
    increase. *)
Theorem monotonic_envelope_sides (values : list float) (ref_index : Z) :
  let idx := Z.to_nat (Z.max 0 (Z.min ref_index (len values - 1))) in
  let out := _monotonic_envelope values ref_index in
  Forall (fun v => isfinite v = true) out
  /\ Sorted climbs (firstn idx out)
  /\ Sorted (fun x y => climbs y x) (skipn idx out).
Proof.
  intros idx out.
  assert (Hcase : values = [] \/ values <> [])
    by (destruct values; [left; reflexivity | right; discriminate]).
  destruct Hcase as [-> | Hne].
  { subst out. change (_monotonic_envelope [] ref_index) with (@nil float).
    rewrite firstn_nil, skipn_nil. repeat constructor. }
  destruct (monotonic_envelope_split values ref_index Hne)
    as (Hidx & Hsplit & Hlen).
  fold idx in Hidx, Hsplit, Hlen. subst out. rewrite Hsplit.
  destruct (envelope_loop_running_max (firstn idx values) neg_inf)
    as (Hlo_sorted & Hlo_fin & _).
  destruct (envelope_loop_running_max (rev (skipn idx values)) neg_inf)
    as (Hhi_sorted & Hhi_fin & _).
  split; [| split].
  - apply Forall_app. split; [exact Hlo_fin |].
    apply Forall_rev. exact Hhi_fin.
  - rewrite <- Hlen at 1. rewrite firstn_app_exact. exact Hlo_sorted.
  - rewrite <- Hlen at 1. rewrite skipn_app_exact.
    apply Sorted_rev. exact Hhi_sorted.
Qed.

Lemma Forall2_rev {A C} (R : A -> C -> Prop) (xs : list A) (ys : list C) :
  Forall2 R xs ys -> Forall2 R (rev xs) (rev ys).
Proof.
  induction 1 as [| x y xs ys Hxy _ IH]; [constructor |].
  cbn [rev]. apply Forall2_app; [exact IH | repeat constructor; exact Hxy].
Qed.

(** One step of the running maximum on a finite sample. *)
Lemma envelope_loop_cons_finite (val : float) (rest : list float) (current : float) :
  isfinite val = true ->
  envelope_loop current (val :: rest) =
  (if negb (isfinite current) || (val >? current)%py then val else current)
  :: envelope_loop
       (if negb (isfinite current) || (val >? current)%py then val else current)
       rest.
Proof.
  intros Hval. cbn [envelope_loop]. rewrite Hval. cbv zeta iota.
  rewrite Hval. cbn [negb]. cbv iota. reflexivity.
Qed.

(** A running maximum is never below the finite sample it has just
    read. *)
Lemma envelope_loop_dominates (vals : list float) :
  forall current,
    Forall2 (fun v o => isfinite v = true -> not_above v o)
            vals (envelope_loop current vals).
Proof.
  induction vals as [| val rest IH]; intros current.
  - constructor.
  - destruct (isfinite val) eqn:Hval.
    + rewrite (envelope_loop_cons_finite _ _ _ Hval).
      constructor; [| apply IH].
      intros _. unfold not_above.
      destruct (isfinite current); cbn [negb orb]; [| apply ltb_irrefl].
      destruct (val >? current)%py eqn:G; [apply ltb_irrefl | exact G].
    + cbn [envelope_loop]. constructor; [| apply IH].
      intros C. congruence.
Qed.

(** X8: the envelope is never below a finite sample: position by position,
    the value returned is not less than the sample. *)
Theorem monotonic_envelope_dominates (values : list float) (ref_index : Z) :
  Forall2 (fun v o => isfinite v = true -> (o <? v)%py = false)
          values (_monotonic_envelope values ref_index).
Proof.
  assert (Hcase : values = [] \/ values <> [])
    by (destruct values; [left; reflexivity | right; discriminate]).
  destruct Hcase as [-> | Hne]; [constructor |].
  destruct (monotonic_envelope_split values ref_index Hne)
    as (Hidx & -> & Hlen).
  set (idx := Z.to_nat (Z.max 0 (Z.min ref_index (len values - 1)))) in *.
  rewrite <- (firstn_skipn idx values) at 1.
  apply Forall2_app.
  - apply envelope_loop_dominates.
  - rewrite <- (rev_involutive (skipn idx values)) at 1.
    apply Forall2_rev. apply envelope_loop_dominates.
Qed.

(** A running maximum leaves a chain of finite values as it is. *)
Lemma envelope_loop_fixed (vals : list float) :
  forall current,
    Sorted climbs vals -> Forall (fun v => isfinite v = true) vals ->
    (isfinite current = true -> HdRel climbs current vals) ->
    envelope_loop current vals = vals.
Proof.
  induction vals as [| val rest IH]; intros current Hs Hfin Hhd.
  - reflexivity.
  - inversion Hs as [| ? ? Hs' Hhd']; subst.
    inversion Hfin as [| ? ? Hval Hrest]; subst.
    rewrite (envelope_loop_cons_finite _ _ _ Hval).
    assert (Hnext : (if negb (isfinite current) || (val >? current)%py
                     then val else current) = val).
    { destruct (isfinite current) eqn:Ec; cbn [negb orb]; [| reflexivity].
      specialize (Hhd eq_refl). inversion Hhd as [| ? ? Hc]; subst.
      destruct Hc as [-> | Hlt].
      - destruct (current >? current)%py; reflexivity.
      - change (val >? current)%py with (current <? val)%py.
        rewrite Hlt. reflexivity. }
    rewrite Hnext. f_equal. apply IH; [exact Hs' | exact Hrest |].
    intros _. exact Hhd'.
Qed.

(** X9: building the envelope of an envelope, around the same reference,
    changes nothing. *)
Theorem monotonic_envelope_idempotent (values : list float) (ref_index : Z) :
  _monotonic_envelope (_monotonic_envelope values ref_index) ref_index
  = _monotonic_envelope values ref_index.
Proof.
  assert (Hcase : values = [] \/ values <> [])
    by (destruct values; [left; reflexivity | right; discriminate]).
  destruct Hcase as [-> | Hne]; [reflexivity |].
  set (out := _monotonic_envelope values ref_index).
  assert (Hout_len : List.length out = List.length values)
    by apply monotonic_envelope_length.
  assert (Hout_ne : out <> []).
  { intros C. rewrite C in Hout_len. destruct values; [congruence | discriminate]. }
  destruct (monotonic_envelope_split out ref_index Hout_ne) as (_ & Hsplit2 & _).
  assert (Hlen_eq : len out = len values) by (unfold len; rewrite Hout_len; reflexivity).
  rewrite Hlen_eq in Hsplit2.
  destruct (monotonic_envelope_split values ref_index Hne) as (Hidx & Hsplit & Hlen).
  set (idx := Z.to_nat (Z.max 0 (Z.min ref_index (len values - 1)))) in *.
  set (lo := envelope_loop neg_inf (firstn idx values)) in *.
  set (hi := envelope_loop neg_inf (rev (skipn idx values))) in *.
  rewrite Hsplit2. fold out in Hsplit. rewrite Hsplit.
  assert (F : firstn idx (lo ++ rev hi) = lo)
    by (rewrite <- Hlen at 1; apply firstn_app_exact).
  assert (S : skipn idx (lo ++ rev hi) = rev hi)
    by (rewrite <- Hlen at 1; apply skipn_app_exact).
  rewrite F, S, rev_involutive.
  destruct (envelope_loop_running_max (firstn idx values) neg_inf)
    as (Hlo_sorted & Hlo_fin & _).
  destruct (envelope_loop_running_max (rev (skipn idx values)) neg_inf)
    as (Hhi_sorted & Hhi_fin & _).
  fold lo in Hlo_sorted, Hlo_fin. fold hi in Hhi_sorted, Hhi_fin.
  rewrite (envelope_loop_fixed lo neg_inf Hlo_sorted Hlo_fin)
    by (intros C; discriminate C).
  rewrite (envelope_loop_fixed hi neg_inf Hhi_sorted Hhi_fin)
    by (intros C; discriminate C).
  reflexivity.
Qed.

Lemma climbs_not_above (x y : float) : climbs x y -> not_above x y.
Proof.
  unfold not_above. intros [-> | H]; [apply ltb_irrefl | apply ltb_asym; exact H].
Qed.

Lemma Sorted_impl {A} (R1 R2 : A -> A -> Prop) (l : list A) :
  (forall x y, R1 x y -> R2 x y) -> Sorted R1 l -> Sorted R2 l.
Proof.
  intros Himp. induction 1 as [| a l _ IH Hhd]; constructor; [exact IH |].
  destruct Hhd; constructor. apply Himp. assumption.
Qed.

(** On finite samples a running maximum only returns samples, or the
    value it started from. *)
Lemma envelope_loop_in (vals : list float) :
  Forall (fun v => isfinite v = true) vals ->
  forall current o,
    In o (envelope_loop current vals) ->
    (isfinite current = true /\ o = current) \/ In o vals.
Proof.
  induction 1 as [| val rest Hval _ IH]; intros current o Ho.
  - destruct Ho.
  - rewrite (envelope_loop_cons_finite _ _ _ Hval) in Ho.
    destruct (isfinite current) eqn:Ec; cbn [negb orb] in Ho.
    + destruct (val >? current)%py.
      * destruct Ho as [<- | Ho]; [right; left; reflexivity |].
        destruct (IH _ _ Ho) as [[_ ->] | Hin]; right; [left; reflexivity | right; exact Hin].
      * destruct Ho as [<- | Ho]; [left; split; reflexivity |].
        destruct (IH _ _ Ho) as [[_ ->] | Hin]; [left; split; reflexivity | right; right; exact Hin].
    + destruct Ho as [<- | Ho]; [right; left; reflexivity |].
      destruct (IH _ _ Ho) as [[_ ->] | Hin]; right; [left; reflexivity | right; exact Hin].
Qed.

Lemma skipn_hd_nth {A} (n : nat) (xs : list A) (d : A) :
  (n < List.length xs)%nat -> skipn n xs = nth n xs d :: skipn (S n) xs.
Proof.
  revert xs. induction n as [| n IH]; intros xs Hn;
    (destruct xs as [| x xs]; [simpl in Hn; lia |]).
  - reflexivity.
  - cbn [skipn nth]. apply IH. simpl in Hn. lia.
Qed.

Lemma envelope_unimodal_at (values : list float) (ref_index : Z) :
  let idx := Z.to_nat (Z.max 0 (Z.min ref_index (len values - 1))) in
  let out := _monotonic_envelope values ref_index in
  Forall (fun v => isfinite v = true) values ->
  (forall v, In v values -> not_above v (nth idx values nan)) ->
  Sorted not_above (firstn (S idx) out)
  /\ Sorted (fun x y => not_above y x) (skipn idx out).
Proof.
  intros idx out Hfin Hmax.
  assert (Hcase : values = [] \/ values <> [])
    by (destruct values; [left; reflexivity | right; discriminate]).
  destruct Hcase as [-> | Hne].
  { subst out. change (_monotonic_envelope [] ref_index) with (@nil float).
    rewrite firstn_nil, skipn_nil. repeat constructor. }
  destruct (monotonic_envelope_split values ref_index Hne)
    as (Hidx & Hsplit & Hlen).
  fold idx in Hidx, Hsplit, Hlen. subst out. rewrite Hsplit.
  destruct (envelope_loop_running_max (firstn idx values) neg_inf)
    as (Hlo_sorted & Hlo_fin & _).
  destruct (envelope_loop_running_max (rev (skipn idx values)) neg_inf)
    as (Hhi_sorted & Hhi_fin & _).
  assert (Hdom : Forall2 (fun v o => isfinite v = true -> not_above v o)
                         (skipn idx values)
                         (rev (envelope_loop neg_inf (rev (skipn idx values))))).
  { rewrite <- (rev_involutive (skipn idx values)) at 1.
    apply Forall2_rev. apply envelope_loop_dominates. }
  apply Sorted_rev in Hhi_sorted.
  apply Forall_rev in Hhi_fin.
  revert Hlen Hlo_sorted Hlo_fin Hhi_sorted Hhi_fin Hdom.
  generalize (rev (envelope_loop neg_inf (rev (skipn idx values)))).
  assert (Hlo_in : forall o, In o (envelope_loop neg_inf (firstn idx values)) ->
                             In o values).
  { intros o Ho.
    assert (Hfin_lo : Forall (fun v => isfinite v = true) (firstn idx values)).
    { apply Forall_forall. intros v Hv. rewrite Forall_forall in Hfin.
      apply Hfin. rewrite <- (firstn_skipn idx values).
      apply in_or_app. left. exact Hv. }
    destruct (envelope_loop_in _ Hfin_lo neg_inf o Ho) as [[C _] | Hin];
      [discriminate C |].
    rewrite <- (firstn_skipn idx values). apply in_or_app. left. exact Hin. }
  revert Hlo_in.
  generalize (envelope_loop neg_inf (firstn idx values)).
  intros lo Hlo_in hi Hlen Hlo_sorted Hlo_fin Hhi_sorted Hhi_fin Hdom.
  rewrite (skipn_hd_nth idx values nan Hidx) in Hdom.
  destruct hi as [| h0 hi_tail]; [inversion Hdom |].
  assert (Hm_fin : isfinite (nth idx values nan) = true).
  { rewrite Forall_forall in Hfin. apply Hfin. apply nth_In. exact Hidx. }
  assert (Hm : not_above (nth idx values nan) h0).
  { inversion Hdom as [| ? ? ? ? Hrel _]; subst. apply Hrel. exact Hm_fin. }
  assert (Hh0_fin : isfinite h0 = true) by (inversion Hhi_fin; assumption).
  split.
  - replace (firstn (S idx) (lo ++ h0 :: hi_tail)) with (lo ++ [h0]).
    + apply (Sorted_snoc _ _ _ nan).
      * eapply Sorted_impl; [apply climbs_not_above | exact Hlo_sorted].
      * intros Hlo_ne.
        assert (Hlast : In (last lo nan) lo).
        { rewrite (app_removelast_last nan Hlo_ne) at 2.
          apply in_or_app. right. left. reflexivity. }
        assert (Hlast_fin : isfinite (last lo nan) = true).
        { rewrite Forall_forall in Hlo_fin. apply Hlo_fin, Hlast. }
        apply (not_above_trans _ (nth idx values nan));
          try (apply isfinite_not_nan; assumption).
        -- apply Hmax. apply Hlo_in. exact Hlast.
        -- exact Hm.
    + rewrite <- Hlen.
      replace (S (List.length lo)) with (List.length lo + 1)%nat by lia.
      rewrite firstn_app_2. reflexivity.
  - rewrite <- Hlen. rewrite skipn_app_exact.
    eapply Sorted_impl; [| exact Hhi_sorted].
    intros x y. apply climbs_not_above.
Qed.

(** X10: when all samples are finite and the sample at the reference is not
    exceeded by any other, the envelope rises up to the reference and
    falls from it: non-decreasing on [[0, ref]], non-increasing on
    [[ref, end]]. *)
Theorem monotonic_envelope_unimodal (values : list float) (ref_index : Z) :
  let idx := Z.to_nat (Z.max 0 (Z.min ref_index (len values - 1))) in
  let out := _monotonic_envelope values ref_index in
  Forall (fun v => isfinite v = true) values ->
  (forall v, In v values -> not_above v (nth idx values nan)) ->
  Sorted not_above (firstn (S idx) out)
  /\ Sorted (fun x y => not_above y x) (skipn idx out).
Proof. exact (envelope_unimodal_at values ref_index). Qed.

Lemma monotonic_envelope_unimodal_witness :
  Sorted not_above (firstn 2 (_monotonic_envelope [f2_0; f5_0; f1_0; f3_0] 1))
  /\ Sorted (fun x y => not_above y x)
            (skipn 1 (_monotonic_envelope [f2_0; f5_0; f1_0; f3_0] 1)).
Proof.
  apply (monotonic_envelope_unimodal [f2_0; f5_0; f1_0; f3_0] 1).
  - repeat constructor.
  - intros v [<- | [<- | [<- | [<- | []]]]]; vm_compute; reflexivity.
Defined.

(** ** Reference Index Selector: both modes *)

(** The scan of [max] or [min] with keys that never fail and are never
    NaN.  [better a b] is [a > b] for [max] and [a < b] for [min]. *)
Lemma best_by_key_first_best (better : float -> float -> bool)
    (k : Z -> float) (key : Z -> result float) (items : list Z) :
  (forall a, better a a = false) ->
  (forall a b, better a b = true -> better b a = false) ->
  (forall j b x, isnan j = false ->
     better j b = false -> better x b = true -> better x j = true) ->
  forall (best : Z) (seen : Z -> Prop),
    (forall x, In x items -> key x = Ok (k x) /\ isnan (k x) = false) ->
    (forall j, seen j -> isnan (k j) = false) ->
    seen best ->
    (forall j, seen j ->
       better (k j) (k best) = false
       /\ (j < best -> better (k best) (k j) = true)) ->
    (forall j x, seen j -> In x items -> j < x) ->
    StronglySorted Z.lt items ->
    exists r,
      best_by_key better key best (k best) items = Ok r
      /\ (seen r \/ In r items)
      /\ forall j, seen j \/ In j items ->
           better (k j) (k r) = false
           /\ (j < r -> better (k r) (k j) = true).
Proof.
  intros Hirr Hasym Hco.
  induction items as [| x items IH];
    intros best seen Hitems Hseen Hbest Hinv Hord Hsorted.
  - exists best. split; [reflexivity |]. split; [left; exact Hbest |].
    intros j [Hj | []]. apply Hinv. exact Hj.
  - cbn [best_by_key].
    destruct (Hitems x (or_introl eq_refl)) as [Hget Hxnan].
    rewrite Hget. cbn [rbind].
    inversion Hsorted as [| ? ? Hsorted' Hlt]; subst.
    rewrite Forall_forall in Hlt.
    destruct (better (k x) (k best)) eqn:G.
    + destruct (IH x (fun j => seen j \/ j = x)) as (r & Hr & Hwhere & Hmax).
      * intros y Hy. apply Hitems. right. exact Hy.
      * intros j [Hj | ->]; [apply Hseen; exact Hj | exact Hxnan].
      * right. reflexivity.
      * intros j [Hj | ->].
        -- destruct (Hinv j Hj) as [Hnot _].
           assert (Hxj : better (k x) (k j) = true)
             by (apply (Hco _ (k best)); [apply Hseen; exact Hj | exact Hnot | exact G]).
           split; [apply Hasym; exact Hxj | intros _; exact Hxj].
        -- split; [apply Hirr | lia].
      * intros j y [Hj | ->] Hy.
        -- apply Hord; [exact Hj | right; exact Hy].
        -- apply Hlt. exact Hy.
      * exact Hsorted'.
      * exists r. split; [exact Hr |]. split.
        -- destruct Hwhere as [[Hs | ->] | Hin];
             [left; exact Hs | right; left; reflexivity | right; right; exact Hin].
        -- intros j Hj. apply Hmax.
           destruct Hj as [Hj | [<- | Hj]];
             [left; left; exact Hj | left; right; reflexivity | right; exact Hj].
    + destruct (IH best (fun j => seen j \/ j = x)) as (r & Hr & Hwhere & Hmax).
      * intros y Hy. apply Hitems. right. exact Hy.
      * intros j [Hj | ->]; [apply Hseen; exact Hj | exact Hxnan].
      * left. exact Hbest.
      * intros j [Hj | ->]; [apply Hinv; exact Hj |].
        split; [exact G |].
        specialize (Hord best x Hbest (or_introl eq_refl)). lia.
      * intros j y [Hj | ->] Hy.
        -- apply Hord; [exact Hj | right; exact Hy].
        -- apply Hlt. exact Hy.
      * exact Hsorted'.
      * exists r. split; [exact Hr |]. split.
        -- destruct Hwhere as [[Hs | ->] | Hin];
             [left; exact Hs | right; left; reflexivity | right; right; exact Hin].
        -- intros j Hj. apply Hmax.
           destruct Hj as [Hj | [<- | Hj]];
             [left; left; exact Hj | left; right; reflexivity | right; exact Hj].
Qed.

(** The scan returns one of the items when no key fails. *)
Lemma best_by_key_in (better : float -> float -> bool)
    (key : Z -> result float) (items : list Z) :
  (forall x, In x items -> exists v, key x = Ok v) ->
  forall best kbest,
    exists r, best_by_key better key best kbest items = Ok r
              /\ In r (best :: items).
Proof.
  induction items as [| x items IH]; intros Hkey best kbest.
  - exists best. split; [reflexivity | left; reflexivity].
  - cbn [best_by_key]. destruct (Hkey x (or_introl eq_refl)) as [v ->].
    cbn [rbind].
    assert (Hkey' : forall y, In y items -> exists v, key y = Ok v)
      by (intros y Hy; apply Hkey; right; exact Hy).
    destruct (better v kbest).
    + destruct (IH Hkey' x v) as (r & -> & Hin). exists r.
      split; [reflexivity | right; exact Hin].
    + destruct (IH Hkey' best kbest) as (r & -> & Hin). exists r.
      split; [reflexivity |].
      destruct Hin as [<- | Hin]; [left; reflexivity | right; right; exact Hin].
Qed.

(** The scan fails when a key fails, all failures being the same. *)
Lemma best_by_key_raise (better : float -> float -> bool)
    (key : Z -> result float) (e : exn) (items : list Z) :
  (forall x, In x items -> (exists v, key x = Ok v) \/ key x = Raise e) ->
  (exists x, In x items /\ key x = Raise e) ->
  forall best kbest, best_by_key better key best kbest items = Raise e.
Proof.
  induction items as [| x items IH]; intros Hkey (y & Hy & Hfail) best kbest.
  - destruct Hy.
  - cbn [best_by_key].
    assert (Hkey' : forall z, In z items -> (exists v, key z = Ok v) \/ key z = Raise e)
      by (intros z Hz; apply Hkey; right; exact Hz).
    destruct (Hkey x (or_introl eq_refl)) as [[v Hv] | Hx].
    + rewrite Hv. cbn [rbind].
      assert (Hrest : exists z, In z items /\ key z = Raise e).
      { destruct Hy as [<- | Hy]; [congruence |]. exists y. split; assumption. }
      destruct (better v kbest); apply IH; assumption.
    + rewrite Hx. reflexivity.
Qed.


Lemma eligible_at_bounds (amps : list float) (i : Z) :
  eligible_at amps i -> 0 <= i < len amps.
Proof.
  intros (Hi & amp & Hnth & _). split; [exact Hi |].
  assert (H : (Z.to_nat i < List.length amps)%nat)
    by (apply nth_error_Some; congruence).
  unfold len. lia.
Qed.

Lemma getitem_in_range {A} (xs : list A) (i : Z) (d : A) :
  0 <= i < len xs -> getitem xs i = Ok (nth (Z.to_nat i) xs d).
Proof.
  intros Hi. unfold getitem.
  destruct (nth_error xs (Z.to_nat i)) as [x |] eqn:E.
  - rewrite (nth_error_nth _ _ _ E). reflexivity.
  - apply nth_error_None in E. unfold len in Hi. lia.
Qed.

Lemma getitem_out_of_range {A} (xs : list A) (i : Z) :
  len xs <= i -> getitem xs i = Raise (IndexError "list index out of range").
Proof.
  intros Hi. unfold getitem.
  destruct (nth_error xs (Z.to_nat i)) as [x |] eqn:E; [| reflexivity].
  assert (H : (Z.to_nat i < List.length xs)%nat)
    by (apply nth_error_Some; congruence).
  unfold len in Hi. lia.
Qed.

Lemma reference_index_returns (freqs amps : list float) (ref_mode : string)
    (ref_hz : float) :
  List.length freqs = List.length amps ->
  exists r,
    _reference_index freqs amps ref_mode ref_hz = Ok r
    /\ 0 <= r
    /\ (amps <> [] -> r < len amps)
    /\ ((exists i, eligible_at amps i) -> eligible_at amps r).
Proof.
  intros Hpar.
  destruct (finite_indices_spec amps) as [Hin _]. cbv zeta in Hin.
  assert (Hzero : forall (P : Prop), 0 <= 0 /\ (amps <> [] -> 0 < len amps)
                  /\ (P -> ~ P -> eligible_at amps 0)).
  { intros P. split; [lia |]. split; [| tauto].
    intros Hne. unfold len. destruct amps; [congruence | simpl; lia]. }
  unfold _reference_index.
  destruct (len freqs =? 0) eqn:En.
  { exists 0. split; [reflexivity |]. split; [lia |].
    apply len_nil_iff in En. subst freqs.
    destruct amps; [| discriminate Hpar].
    split; [congruence |]. intros (i & Hi). apply eligible_at_bounds in Hi.
    unfold len in Hi. simpl in Hi. lia. }
  destruct (map fst (filter (fun ia : Z * float => eligible (snd ia))
                            (enumerate amps))) as [| b items] eqn:E.
  { exists 0. split; [reflexivity |]. split; [lia |]. split.
    - intros Hne. unfold len. destruct amps; [congruence | simpl; lia].
    - intros (i & Hi). apply Hin in Hi. destruct Hi. }
  replace (len (b :: items) =? 0) with false
    by (symmetry; apply Z.eqb_neq; rewrite len_cons; unfold len; lia).
  assert (Hall : forall x, In x (b :: items) -> 0 <= x < len amps)
    by (intros x Hx; apply eligible_at_bounds, Hin, Hx).
  assert (Hfinish : forall r, In r (b :: items) ->
            0 <= r /\ (amps <> [] -> r < len amps)
            /\ ((exists i, eligible_at amps i) -> eligible_at amps r)).
  { intros r Hr. specialize (Hall r Hr). split; [lia |]. split; [lia |].
    intros _. apply Hin. exact Hr. }
  destruct (PyStr.startswith (PyStr.lower ref_mode) "freq").
  - unfold py_min, py_best.
    assert (Hkey : forall x, In x (b :: items) ->
              exists v, rbind (getitem freqs x)
                          (fun f => Ok (abs (f - ref_hz)%py)) = Ok v).
    { intros x Hx. rewrite (getitem_in_range freqs x nan).
      - eexists. reflexivity.
      - specialize (Hall x Hx). unfold len in *. lia. }
    destruct (Hkey b (or_introl eq_refl)) as [kb ->]. cbn [rbind].
    destruct (best_by_key_in ltb
                (fun i => rbind (getitem freqs i)
                            (fun f => Ok (abs (f - ref_hz)%py))) items)
      with (best := b) (kbest := kb) as (r & -> & Hr).
    + intros x Hx. apply Hkey. right. exact Hx.
    + exists r. split; [reflexivity | apply Hfinish; exact Hr].
  - unfold py_max, py_best.
    assert (Hkey : forall x, In x (b :: items) -> exists v, getitem amps x = Ok v).
    { intros x Hx. rewrite (getitem_in_range amps x nan); [eauto | apply Hall, Hx]. }
    destruct (Hkey b (or_introl eq_refl)) as [kb ->]. cbn [rbind].
    destruct (best_by_key_in gtb (fun i => getitem amps i) items)
      with (best := b) (kbest := kb) as (r & -> & Hr).
    + intros x Hx. apply Hkey. right. exact Hx.
    + exists r. split; [reflexivity | apply Hfinish; exact Hr].
Qed.

(** X11: for parallel sequences the selector never fails, in either mode: it
    returns a valid index of the series, and an eligible one whenever
    there is one. *)
Theorem reference_index_in_range (freqs amps : list float) (ref_mode : string)
    (ref_hz : float) :
  List.length freqs = List.length amps ->
  exists r,
    _reference_index freqs amps ref_mode ref_hz = Ok r
    /\ 0 <= r
    /\ (amps <> [] -> r < len amps)
    /\ ((exists i, eligible_at amps i) -> eligible_at amps r).
Proof. exact (reference_index_returns freqs amps ref_mode ref_hz). Qed.

Lemma reference_index_in_range_witness :
  exists r,
    _reference_index [f100_0; f200_0; f300_0] [nan; f2_0; f1_0] "freq" f300_0
    = Ok r /\ 0 <= r < 3.
Proof.
  destruct (reference_index_in_range [f100_0; f200_0; f300_0] [nan; f2_0; f1_0]
              "freq" f300_0 eq_refl) as (r & Hr & H0 & Hlt & _).
  exists r. split; [exact Hr |]. split; [exact H0 |].
  apply Hlt. discriminate.
Defined.

(** X12: in frequency mode, when the amplitude series is longer than the
    frequency series and has an eligible sample past its end, the
    selector raises [IndexError]. *)
Theorem reference_index_mismatch_raises (freqs amps : list float)
    (ref_mode : string) (ref_hz : float) :
  freqs <> [] ->
  PyStr.startswith (PyStr.lower ref_mode) "freq" = true ->
  (exists i, eligible_at amps i /\ len freqs <= i) ->
  _reference_index freqs amps ref_mode ref_hz
  = Raise (IndexError "list index out of range").
Proof.
  intros Hne Hmode (i & Hi & Hout).
  destruct (finite_indices_spec amps) as [Hin _]. cbv zeta in Hin.
  unfold _reference_index.
  replace (len freqs =? 0) with false
    by (symmetry; apply Z.eqb_neq; unfold len; destruct freqs; [congruence | simpl; lia]).
  rewrite Hmode.
  apply Hin in Hi.
  destruct (map fst (filter (fun ia : Z * float => eligible (snd ia))
                            (enumerate amps))) as [| b items] eqn:E;
    [destruct Hi |].
  replace (len (b :: items) =? 0) with false
    by (symmetry; apply Z.eqb_neq; rewrite len_cons; unfold len; lia).
  unfold py_min, py_best.
  assert (Hkey : forall x, In x (b :: items) ->
            (exists v, rbind (getitem freqs x)
                         (fun f => Ok (abs (f - ref_hz)%py)) = Ok v)
            \/ rbind (getitem freqs x) (fun f => Ok (abs (f - ref_hz)%py))
               = Raise (IndexError "list index out of range")).
  { intros x Hx.
    assert (Hx0 : 0 <= x) by (apply (eligible_at_bounds amps), Hin, Hx).
    destruct (Z_lt_le_dec x (len freqs)) as [Hlt | Hge].
    - left. rewrite (getitem_in_range freqs x nan) by lia. eexists. reflexivity.
    - right. rewrite (getitem_out_of_range freqs x Hge). reflexivity. }
  destruct (Hkey b (or_introl eq_refl)) as [[kb Hb] | Hb]; rewrite Hb;
    [| reflexivity].
  cbn [rbind]. apply best_by_key_raise.
  - intros x Hx. apply Hkey. right. exact Hx.
  - destruct Hi as [<- | Hi].
    + rewrite (getitem_out_of_range freqs b Hout) in Hb. discriminate Hb.
    + exists i. split; [exact Hi |].
      rewrite (getitem_out_of_range freqs i Hout). reflexivity.
Qed.

Lemma reference_index_mismatch_raises_witness :
  _reference_index [f100_0] [f1_0; f2_0] "frequency" f100_0
  = Raise (IndexError "list index out of range").
Proof.
  apply (reference_index_mismatch_raises [f100_0] [f1_0; f2_0] "frequency" f100_0).
  - discriminate.
  - reflexivity.
  - exists 1. split; [| unfold len; simpl; lia].
    split; [lia |]. exists f2_0. split; reflexivity.
Defined.

(** X13: in frequency mode, for parallel sequences whose distances to the
    target are never NaN, the selector returns the eligible index nearest
    to the target frequency, the leftmost one among equally near ones. *)
Theorem reference_index_freq_nearest (freqs amps : list float) (ref_mode : string)
    (ref_hz : float) :
  List.length freqs = List.length amps ->
  PyStr.startswith (PyStr.lower ref_mode) "freq" = true ->
  (forall i, eligible_at amps i -> isnan (dist_at freqs ref_hz i) = false) ->
  (exists i, eligible_at amps i) ->
  exists r,
    _reference_index freqs amps ref_mode ref_hz = Ok r
    /\ eligible_at amps r
    /\ forall j, eligible_at amps j ->
         (dist_at freqs ref_hz j <? dist_at freqs ref_hz r)%py = false
         /\ (j < r -> (dist_at freqs ref_hz r <? dist_at freqs ref_hz j)%py = true).
Proof.
  intros Hpar Hmode Hnan (i & Hi).
  destruct (finite_indices_spec amps) as [Hin Hsorted]. cbv zeta in Hin, Hsorted.
  unfold _reference_index.
  assert (Hn : (len freqs =? 0) = false).
  { apply Z.eqb_neq. unfold len. rewrite Hpar.
    apply eligible_at_bounds in Hi. unfold len in Hi. lia. }
  rewrite Hn, Hmode.
  destruct (map fst (filter (fun ia : Z * float => eligible (snd ia))
                            (enumerate amps))) as [| b items] eqn:E.
  { apply Hin in Hi. destruct Hi. }
  replace (len (b :: items) =? 0) with false
    by (symmetry; apply Z.eqb_neq; rewrite len_cons; unfold len; lia).
  unfold py_min, py_best.
  assert (Hkey : forall x, In x (b :: items) ->
            rbind (getitem freqs x) (fun f => Ok (abs (f - ref_hz)%py))
            = Ok (dist_at freqs ref_hz x)
            /\ isnan (dist_at freqs ref_hz x) = false).
  { intros x Hx. apply Hin in Hx. split; [| apply Hnan; exact Hx].
    apply eligible_at_bounds in Hx.
    rewrite (getitem_in_range freqs x nan) by (unfold len in *; lia).
    reflexivity. }
  destruct (Hkey b (or_introl eq_refl)) as [Hb Hbnan]. rewrite Hb. cbn [rbind].
  inversion Hsorted as [| ? ? Hsorted' Hlt]; subst.
  rewrite Forall_forall in Hlt.
  destruct (best_by_key_first_best ltb (dist_at freqs ref_hz)
              (fun i => rbind (getitem freqs i)
                          (fun f => Ok (abs (f - ref_hz)%py))) items)
    with (best := b) (seen := fun j => j = b) as (r & Hr & Hwhere & Hbest).
  - apply ltb_irrefl.
  - apply ltb_asym.
  - intros j c x Hj Hjc Hxc. apply (lt_not_above_trans x c j Hj Hxc). exact Hjc.
  - intros x Hx. apply Hkey. right. exact Hx.
  - intros j ->. exact Hbnan.
  - reflexivity.
  - intros j ->. split; [apply ltb_irrefl | lia].
  - intros j x -> Hx. apply Hlt. exact Hx.
  - exact Hsorted'.
  - exists r. split; [exact Hr |]. split.
    + apply Hin. destruct Hwhere as [-> | Hx]; [left; reflexivity | right; exact Hx].
    + intros j Hj. apply Hbest. apply Hin in Hj.
      destruct Hj as [<- | Hj]; [left; reflexivity | right; exact Hj].
Qed.

Lemma reference_index_freq_nearest_witness :
  exists r,
    _reference_index [f100_0; f200_0; f300_0] [f1_0; f2_0; f2_0] "freq" f200_0
    = Ok r
    /\ (dist_at [f100_0; f200_0; f300_0] f200_0 0
        <? dist_at [f100_0; f200_0; f300_0] f200_0 r)%py = false.
Proof.
  destruct (reference_index_freq_nearest [f100_0; f200_0; f300_0]
              [f1_0; f2_0; f2_0] "freq" f200_0) as (r & Hr & _ & Hbest).
  - reflexivity.
  - reflexivity.
  - intros i (Hi & amp & Hnth & _).
    destruct (Z.to_nat i) as [| [| [| n]]] eqn:En; simpl in Hnth;
      [| | | destruct n; discriminate Hnth];
      unfold dist_at; rewrite En; vm_compute; reflexivity.
  - exists 0. split; [lia |]. exists f1_0. split; reflexivity.
  - exists r. split; [exact Hr |].
    apply (Hbest 0). split; [lia |]. exists f1_0. split; reflexivity.
Defined.

(** In a mode that does not start with ["freq"], for parallel sequences
    with an eligible sample, the selector returns the leftmost eligible
    index that no eligible amplitude exceeds. *)
Lemma reference_index_max_mode (freqs amps : list float) (ref_mode : string)
    (ref_hz : float) :
  List.length freqs = List.length amps ->
  PyStr.startswith (PyStr.lower ref_mode) "freq" = false ->
  (exists i, eligible_at amps i) ->
  exists r,
    _reference_index freqs amps ref_mode ref_hz = Ok r
    /\ eligible_at amps r
    /\ forall j, eligible_at amps j ->
         (amp_at amps j >? amp_at amps r)%py = false.
Proof.
  intros Hpar Hmode (i & Hi).
  destruct (finite_indices_spec amps) as [Hin Hsorted]. cbv zeta in Hin, Hsorted.
  unfold _reference_index.
  assert (Hn : (len freqs =? 0) = false).
  { apply Z.eqb_neq. unfold len. rewrite Hpar.
    apply eligible_at_bounds in Hi. unfold len in Hi. lia. }
  rewrite Hn, Hmode.
  destruct (map fst (filter (fun ia : Z * float => eligible (snd ia))
                            (enumerate amps))) as [| b items] eqn:E.
  { apply Hin in Hi. destruct Hi. }
  replace (len (b :: items) =? 0) with false
    by (symmetry; apply Z.eqb_neq; rewrite len_cons; unfold len; lia).
  unfold py_max, py_best.
  assert (Hb : eligible_at amps b) by (apply Hin; left; reflexivity).
  destruct (eligible_at_getitem amps b Hb) as [Hget _].
  rewrite Hget. cbn [rbind].
  inversion Hsorted as [| ? ? Hsorted' Hlt]; subst.
  rewrite Forall_forall in Hlt.
  destruct (best_by_key_first_max amps items b (fun j => j = b))
    as (r & Hr & Hwhere & Hmax).
  - intros x Hx. apply Hin. right. exact Hx.
  - intros j ->. exact Hb.
  - reflexivity.
  - intros j ->. split; [unfold gtb; apply ltb_irrefl | lia].
  - intros j x -> Hx. apply Hlt. exact Hx.
  - exact Hsorted'.
  - exists r. split; [exact Hr |]. split.
    + apply Hin. destruct Hwhere as [-> | Hx]; [left; reflexivity | right; exact Hx].
    + intros j Hj. apply Hmax. apply Hin in Hj.
      destruct Hj as [<- | Hj]; [left; reflexivity | right; exact Hj].
Qed.

(** X14: the selector and the envelope builder together, as the knee detector
    chains them on sanitized amplitudes in a mode that does not start
    with ["freq"]: the envelope around the selected reference rises up to
    it and falls from it. *)
Theorem envelope_around_max_reference (freqs amps : list float)
    (ref_mode : string) (ref_hz : float) :
  List.length freqs = List.length amps ->
  PyStr.startswith (PyStr.lower ref_mode) "freq" = false ->
  amps <> [] ->
  Forall (fun v => isfinite v = true /\ (v >? f0_0)%py = true) amps ->
  exists r,
    _reference_index freqs amps ref_mode ref_hz = Ok r
    /\ 0 <= r < len amps
    /\ Sorted not_above
         (firstn (S (Z.to_nat r)) (_monotonic_envelope amps r))
    /\ Sorted (fun x y => not_above y x)
         (skipn (Z.to_nat r) (_monotonic_envelope amps r)).
Proof.
  intros Hpar Hmode Hne Hall.
  assert (Hel : Forall (fun v => eligible v = true) amps).
  { eapply Forall_impl; [| exact Hall].
    intros v [Hf Hp]. unfold eligible. rewrite Hf, Hp. reflexivity. }
  assert (Hat : forall i, 0 <= i < len amps -> eligible_at amps i).
  { intros i Hi. split; [lia |].
    destruct (nth_error amps (Z.to_nat i)) as [amp |] eqn:E.
    - exists amp. split; [reflexivity |].
      rewrite Forall_forall in Hel. apply Hel. eapply nth_error_In. exact E.
    - apply nth_error_None in E. unfold len in Hi. lia. }
  destruct (reference_index_max_mode freqs amps ref_mode ref_hz Hpar Hmode)
    as (r & Hr & Hrel & Hmax).
  { exists 0. apply Hat. unfold len. destruct amps; [congruence | simpl; lia]. }
  pose proof (eligible_at_bounds amps r Hrel) as Hbounds.
  exists r. split; [exact Hr |]. split; [exact Hbounds |].
  pose proof (envelope_unimodal_at amps r) as Huni. cbv zeta in Huni.
  replace (Z.max 0 (Z.min r (len amps - 1))) with r in Huni by lia.
  apply Huni.
  - eapply Forall_impl; [| exact Hall]. intros v [Hf _]. exact Hf.
  - intros v Hv. apply In_nth_error in Hv. destruct Hv as [n Hn].
    assert (Hn_lt : (n < List.length amps)%nat)
      by (apply nth_error_Some; congruence).
    assert (Hj : eligible_at amps (Z.of_nat n)) by (apply Hat; unfold len; lia).
    specialize (Hmax (Z.of_nat n) Hj). unfold amp_at in Hmax.
    rewrite Nat2Z.id in Hmax. rewrite (nth_error_nth _ _ _ Hn) in Hmax.
    exact Hmax.
Qed.

Lemma envelope_around_max_reference_witness :
  exists r,
    _reference_index [f100_0; f200_0; f300_0; f1000_0] [f2_0; f1_0; f5_0; f3_0]
      "max" f0_0 = Ok r
    /\ Sorted not_above
         (firstn (S (Z.to_nat r))
            (_monotonic_envelope [f2_0; f1_0; f5_0; f3_0] r)).
Proof.
  destruct (envelope_around_max_reference [f100_0; f200_0; f300_0; f1000_0]
              [f2_0; f1_0; f5_0; f3_0] "max" f0_0)
    as (r & Hr & _ & Hup & _).
  - reflexivity.
  - reflexivity.
  - discriminate.
  - repeat constructor.
  - exists r. split; [exact Hr | exact Hup].
Defined.

(** ** Spike Filter: what is left alone, and what the records say *)

Lemma enumerate_from_in {A} (xs : list A) :
  forall lo i x,
    In (i, x) (combine (range lo (lo + len xs)) xs) ->
    lo <= i /\ nth_error xs (Z.to_nat (i - lo)) = Some x.
Proof.
  induction xs as [| y xs IH]; intros lo i x Hin.
  - rewrite range_nil in Hin by (unfold len; simpl; lia). destruct Hin.
  - rewrite len_cons, (range_cons lo) in Hin by (unfold len; lia).
    replace (lo + (len xs + 1)) with (lo + 1 + len xs) in Hin by lia.
    destruct Hin as [Heq | Hin].
    + injection Heq as <- <-. split; [lia |]. rewrite Z.sub_diag. reflexivity.
    + destruct (IH _ _ _ Hin) as [Hlo Hnth]. split; [lia |].
      replace (Z.to_nat (i - lo)) with (S (Z.to_nat (i - (lo + 1)))) by lia.
      exact Hnth.
Qed.

Lemma enumerate_in {A} (xs : list A) (i : Z) (x : A) :
  In (i, x) (enumerate xs) -> 0 <= i /\ nth_error xs (Z.to_nat i) = Some x.
Proof.
  intros Hin. destruct (enumerate_from_in xs 0 i x Hin) as [H0 Hnth].
  rewrite Z.sub_0_r in Hnth. split; assumption.
Qed.

Lemma enumerate_snd {A} (xs : list A) : map snd (enumerate xs) = xs.
Proof.
  unfold enumerate.
  assert (G : forall (ys : list A) lo,
             map snd (combine (range lo (lo + len ys)) ys) = ys).
  { induction ys as [| y ys IH]; intros lo.
    - rewrite range_nil by (unfold len; simpl; lia). reflexivity.
    - rewrite len_cons, (range_cons lo) by (unfold len; lia).
      replace (lo + (len ys + 1)) with (lo + 1 + len ys) by lia.
      cbn [combine map snd]. rewrite IH. reflexivity. }
  apply (G xs 0).
Qed.

Lemma filter_none {A} (p : A -> bool) (xs : list A) :
  (forall x, In x xs -> p x = false) -> filter p xs = [].
Proof.
  induction xs as [| x xs IH]; intros H; [reflexivity |].
  simpl. rewrite (H x (or_introl eq_refl)). apply IH.
  intros y Hy. apply H. right. exact Hy.
Qed.

(** No neighbour is collected with a window that is not positive, or in
    a sweep of at most one row. *)
Lemma neighbors_none (rows : list row) (window idx : Z) :
  0 <= idx < len rows ->
  window <= 0 \/ len rows <= 1 ->
  neighbors rows window idx = [].
Proof.
  intros Hidx Hcase. unfold neighbors. rewrite filter_none; [reflexivity |].
  intros j Hj. apply in_range in Hj.
  replace (j =? idx) with true by (symmetry; apply Z.eqb_eq; lia).
  reflexivity.
Qed.

Lemma flat_map_nil {A C} (g : A -> list C) (xs : list A) :
  (forall x, In x xs -> g x = []) -> flat_map g xs = [].
Proof.
  induction xs as [| x xs IH]; intros H; [reflexivity |].
  simpl. rewrite (H x (or_introl eq_refl)). apply IH.
  intros y Hy. apply H. right. exact Hy.
Qed.

Lemma map_snd_ext {A C} (f : A * C -> C) (xs : list (A * C)) :
  (forall x, In x xs -> f x = snd x) -> map f xs = map snd xs.
Proof. intros H. apply map_ext_in. exact H. Qed.

(** X15: with a window that is not positive, or on a sweep of at most one row,
    the filter changes nothing and records nothing. *)
Theorem filter_spikes_without_neighbors (rows : list row) (window : Z)
    (factor min_percent : float) :
  window <= 0 \/ (List.length rows <= 1)%nat ->
  _filter_spikes rows window factor min_percent = Ok (rows, []).
Proof.
  intros Hcase. rewrite filter_spikes_expected.
  assert (Hnone : forall i r, In (i, r) (enumerate rows) ->
                    neighbors rows window i = []).
  { intros i r Hin. apply enumerate_in in Hin. destruct Hin as [H0 Hnth].
    apply neighbors_none.
    - assert (H : (Z.to_nat i < List.length rows)%nat)
        by (apply nth_error_Some; congruence).
      unfold len. lia.
    - destruct Hcase as [Hw | Hl]; [left; exact Hw | right; unfold len; lia]. }
  f_equal. f_equal.
  - transitivity (map snd (enumerate rows)); [| apply enumerate_snd].
    apply map_snd_ext.
    intros [i [[[freq vr] pk] thd]] Hin.
    unfold expected_row, spike_baseline. rewrite (Hnone _ _ Hin).
    destruct median_empty as [e ->]. reflexivity.
  - apply flat_map_nil. intros [i [[[freq vr] pk] thd]] Hin.
    unfold expected_suppression, spike_baseline. rewrite (Hnone _ _ Hin).
    destruct median_empty as [e ->]. reflexivity.
Qed.

Lemma filter_spikes_without_neighbors_witness :
  _filter_spikes [(f100_0, f1_0, f2_0, f1_0); (f200_0, f1_0, f2_0, f100_0)]
    0 f2_0 f2_0
  = Ok ([(f100_0, f1_0, f2_0, f1_0); (f200_0, f1_0, f2_0, f100_0)], []).
Proof.
  apply (filter_spikes_without_neighbors
           [(f100_0, f1_0, f2_0, f1_0); (f200_0, f1_0, f2_0, f100_0)] 0 f2_0 f2_0).
  left. lia.
Defined.

(** A value above [max(min_percent, x)] is above [min_percent]. *)
Lemma above_threshold_above_floor (thd min_percent x : float) :
  (thd >? max2 min_percent x)%py = true -> (thd >? min_percent)%py = true.
Proof.
  unfold max2. destruct (x >? min_percent)%py eqn:E; [| trivial].
  unfold gtb in *. intros H. eapply ltb_trans; eassumption.
Qed.

(** X16: a row whose THD is not finite (NaN included), or is not above the
    floor [min_percent], is returned as it is. *)
Theorem filter_spikes_passes_through (rows : list row) (window : Z)
    (factor min_percent : float) (i : nat) (freq vr pk thd_percent : float) :
  nth_error rows i = Some (freq, vr, pk, thd_percent) ->
  isfinite thd_percent = false \/ (thd_percent >? min_percent)%py = false ->
  exists filtered suppressed,
    _filter_spikes rows window factor min_percent = Ok (filtered, suppressed)
    /\ nth_error filtered i = Some (freq, vr, pk, thd_percent).
Proof.
  intros Hi Hcase. eexists. eexists. split; [apply filter_spikes_expected |].
  rewrite nth_error_map, (enumerate_nth_error _ _ _ Hi). simpl.
  unfold spike_baseline.
  destruct (median (neighbors rows window (Z.of_nat i))) as [baseline | e];
    [| reflexivity].
  destruct Hcase as [Hnf | Hfloor].
  - rewrite Hnf. reflexivity.
  - destruct (thd_percent >? max2 min_percent (baseline * factor)%py)%py eqn:G.
    + apply above_threshold_above_floor in G. congruence.
    + rewrite andb_false_r. reflexivity.
Qed.

Lemma filter_spikes_passes_through_witness :
  exists filtered suppressed,
    _filter_spikes
      [(f100_0, f1_0, f2_0, f0_5); (f200_0, f1_0, f2_0, nan);
       (f300_0, f1_0, f2_0, f1_0)] 2 f0_5 f2_0 = Ok (filtered, suppressed)
    /\ nth_error filtered 1 = Some (f200_0, f1_0, f2_0, nan).
Proof.
  apply (filter_spikes_passes_through
           [(f100_0, f1_0, f2_0, f0_5); (f200_0, f1_0, f2_0, nan);
            (f300_0, f1_0, f2_0, f1_0)] 2 f0_5 f2_0 1 f200_0 f1_0 f2_0 nan).
  - reflexivity.
  - left. reflexivity.
Defined.

Lemma flat_map_length_le {A C} (g : A -> list C) (xs : list A) :
  (forall x, (List.length (g x) <= 1)%nat) ->
  (List.length (flat_map g xs) <= List.length xs)%nat.
Proof.
  intros Hg. induction xs as [| x xs IH]; simpl; [lia |].
  rewrite length_app. specialize (Hg x). lia.
Qed.

(** X17: the suppression list never has more entries than the sweep has rows,
    and every record [(freq, original, replacement)] is the trace of a
    replaced row: the input row at some position had that frequency and
    the finite THD [original], above the floor, and the output row at
    that position carries [replacement], the median of its neighbours. *)
Theorem filter_spikes_records (rows : list row) (window : Z)
    (factor min_percent : float) (filtered : list row)
    (suppressed : list suppression) :
  _filter_spikes rows window factor min_percent = Ok (filtered, suppressed) ->
  (List.length suppressed <= List.length rows)%nat
  /\ forall freq original replacement,
       In (freq, original, replacement) suppressed ->
       exists i vr pk,
         nth_error rows i = Some (freq, vr, pk, original)
         /\ nth_error filtered i = Some (freq, vr, pk, replacement)
         /\ isfinite original = true
         /\ (original >? min_percent)%py = true
         /\ median (neighbors rows window (Z.of_nat i)) = Ok replacement.
Proof.
  rewrite filter_spikes_expected. intros H. injection H as <- <-. split.
  - rewrite <- (enumerate_length rows). apply flat_map_length_le.
    intros [i [[[freq vr] pk] thd]]. unfold expected_suppression.
    destruct (spike_baseline rows window factor min_percent i thd); simpl; lia.
  - intros freq original replacement Hin.
    apply in_flat_map in Hin.
    destruct Hin as ([i [[[freq0 vr] pk] thd]] & Hin & Hrec).
    apply enumerate_in in Hin. destruct Hin as [H0 Hnth].
    unfold expected_suppression in Hrec.
    destruct (spike_baseline rows window factor min_percent i thd)
      as [baseline |] eqn:Eb; [| destruct Hrec].
    destruct Hrec as [Heq | []]. injection Heq as -> -> ->.
    exists (Z.to_nat i), vr, pk. split; [exact Hnth |].
    rewrite nth_error_map, (enumerate_nth_error _ _ _ Hnth), Z2Nat.id by exact H0.
    simpl. rewrite Eb.
    unfold spike_baseline in Eb.
    destruct (median (neighbors rows window i)) as [m |] eqn:Em;
      [| discriminate Eb].
    destruct (isfinite original) eqn:Ef; [| discriminate Eb].
    destruct (original >? max2 min_percent (m * factor)%py)%py eqn:G;
      [| discriminate Eb].
    injection Eb as ->.
    split; [reflexivity |]. split; [reflexivity |].
    split; [| reflexivity].
    eapply above_threshold_above_floor. exact G.
Qed.

Lemma filter_spikes_records_witness :
  exists i vr pk,
    nth_error [(f100_0, f1_0, f2_0, f1_0); (f200_0, f1_0, f2_0, f5_0);
               (f300_0, f1_0, f2_0, f1_0)] i = Some (f200_0, vr, pk, f5_0)
    /\ isfinite f5_0 = true.
Proof.
  destruct (filter_spikes_records
              [(f100_0, f1_0, f2_0, f1_0); (f200_0, f1_0, f2_0, f5_0);
               (f300_0, f1_0, f2_0, f1_0)] 2 f2_0 f2_0
              [(f100_0, f1_0, f2_0, f1_0); (f200_0, f1_0, f2_0, f1_0);
               (f300_0, f1_0, f2_0, f1_0)]
              [(f200_0, f5_0, f1_0)]) as [_ Hrec].
  - vm_compute. reflexivity.
  - destruct (Hrec f200_0 f5_0 f1_0 (or_introl eq_refl))
      as (i & vr & pk & Hin & _ & Hfin & _).
    exists i, vr, pk. split; assumption.
Defined.

(** ** Sweep Drivers: failures of the measurement, shape of the results *)

Section DriverShape.
Context {W : Type} (B : bench W).

Lemma check_common_passes (a : sweep_args) (s : state W) :
  ~ invalid_common a -> check_common a s = (Ok tt, s).
Proof.
  intros Hvalid.
  destruct (check_common_cases a s) as [(H & _) | (msg & _ & Hbad)]; [exact H |].
  exfalso. apply Hvalid. unfold invalid_common. tauto.
Qed.

Lemma check_calibration_passes (a : sweep_args) (s : state W) :
  ~ invalid_common a -> check_calibration a s = (Ok tt, s).
Proof.
  intros Hvalid.
  destruct (check_calibration_cases a s) as [(H & _) | (msg & _ & Hbad)];
    [exact H |].
  exfalso. apply Hvalid. unfold invalid_common. tauto.
Qed.

Lemma check_smoothing_passes (a : knee_args) (s : state W) :
  ~ invalid_knee a -> check_smoothing a s = (Ok tt, s).
Proof.
  intros Hvalid.
  destruct (check_smoothing_cases a s) as [(H & _) | (msg & _ & Hbad)];
    [exact H |].
  exfalso. apply Hvalid. unfold invalid_knee. tauto.
Qed.

Lemma thd_measure_after_checks (a : thd_args) (s : state W) :
  ~ invalid_common a ->
  thd_measure B a s =
  bind (sweep_audio_kpis B (thd_request B a))
    (fun result =>
       bind (if filter_spikes a
                && negb (len (map (thd_row a) (kpi_rows result)) =? 0)
             then lift_result
                    (_filter_spikes (map (thd_row a) (kpi_rows result))
                       (filter_window a) (filter_factor a)
                       (filter_min_percent a))
             else ret (map (thd_row a) (kpi_rows result), []))
         (fun rs =>
            bind (write_output B a ["freq_hz"; "vrms"; "pkpk"; "thd_percent"]
                    (fst rs))
              (fun out_path => ret (fst rs, out_path, snd rs)))) s.
Proof.
  intros Hvalid. unfold thd_measure.
  unfold bind at 1. rewrite (check_common_passes a s Hvalid).
  unfold bind at 1. rewrite (check_calibration_passes a s Hvalid).
  unfold thd_request, bind.
  destruct (sweep_audio_kpis B _ s) as [[result | e] s1]; [| reflexivity].
  replace (map (fun r : raw_row =>
                  let '(freq, vr, pk, _, thd_percent) := r in
                  (freq, calibrate (calibration_curve a) freq vr,
                   calibrate (calibration_curve a) freq pk, thd_percent))
               (kpi_rows result))
    with (map (thd_row a) (kpi_rows result)) by reflexivity.
  match goal with
  | |- match ?c s1 with _ => _ end = match ?c' s1 with _ => _ end =>
      change c' with c; destruct (c s1) as [[[rows supp] | e] s2]
  end; reflexivity.
Qed.

Lemma knee_measure_after_checks (a : knee_args) (s : state W) :
  ~ invalid_common a -> ~ invalid_knee a ->
  knee_measure B a s =
  bind (sweep_audio_kpis B (knee_request B a))
    (fun result =>
       bind (write_output B a ["freq_hz"; "vrms"; "pkpk"; "rel_db"]
               (map (knee_row B a (kpi_knees result)) (kpi_rows result)))
         (fun csv_path =>
            ret {| out_rows := map (knee_row B a (kpi_knees result))
                                   (kpi_rows result);
                   out_knees := kpi_knees result;
                   out_ref_db := knee_ref_db (kpi_knees result);
                   out_target_db := knee_target_db a (kpi_knees result);
                   out_csv_path := csv_path |})) s.
Proof.
  intros Hvalid Hknee. unfold knee_measure.
  unfold bind at 1. rewrite (check_common_passes a s Hvalid).
  unfold bind at 1.
  assert (Hdrop : negb (isfinite (knee_drop_db a))
                  || (knee_drop_db a <=? f0_0)%py = false).
  { unfold invalid_knee in Hknee.
    destruct (isfinite (knee_drop_db a)); [| tauto].
    destruct (knee_drop_db a <=? f0_0)%py; [tauto | reflexivity]. }
  rewrite Hdrop. cbn [ret].
  unfold bind at 1. rewrite (check_calibration_passes a s Hvalid).
  unfold bind at 1. rewrite (check_smoothing_passes a s Hknee).
  reflexivity.
Qed.

(** A driver that returns normally was given valid arguments. *)
Lemma thd_sweep_returns_valid (a : thd_args) (s s' : state W)
    (r : list row * option string * list suppression) :
  thd_sweep B a s = (Ok r, s') -> ~ invalid_common a.
Proof.
  intros Hrun Hbad. destruct (thd_sweep_rejects B a s Hbad) as [msg Hraise].
  congruence.
Qed.

Lemma knee_sweep_returns_valid (a : knee_args) (s s' : state W)
    (out : knee_output) :
  knee_sweep B a s = (Ok out, s') -> ~ invalid_common a /\ ~ invalid_knee a.
Proof.
  intros Hrun. split; intros Hbad;
    [destruct (knee_sweep_rejects B a s (or_introl Hbad)) as [msg Hraise]
    | destruct (knee_sweep_rejects B a s (or_intror Hbad)) as [msg Hraise]];
    congruence.
Qed.

Lemma write_output_path (a : sweep_args) (header : list string) (rows : list row)
    (s s' : state W) (p : option string) :
  write_output B a header rows s = (Ok p, s') -> p = output a.
Proof.
  unfold write_output. destruct (output a) as [path |].
  - unfold bind. destruct (lift _ s) as [[u | e] s1]; [| discriminate].
    unfold ret. intros H. injection H as <- _. reflexivity.
  - unfold ret. intros H. injection H as <- _. reflexivity.
Qed.

End DriverShape.




(** X19: what [thd_sweep] returns: the path is the requested output; there is
    one row per measured point, with the frequency measured and the
    calibrated [vrms] and [pkpk]; with the spike filter switched off the
    THD values are the measured ones and nothing is recorded as
    suppressed. *)
Theorem thd_sweep_result {W : Type} (B : bench W) (a : thd_args)
    (s s' : state W) (rows : list row) (out_path : option string)
    (suppressed : list suppression) :
  thd_sweep B a s = (Ok (rows, out_path, suppressed), s') ->
  exists result s1,
    sweep_audio_kpis B (thd_request B a) s = (Ok result, s1)
    /\ out_path = output a
    /\ Forall2 (fun (raw : raw_row) (r : row) =>
                  exists thd', r = (let '(freq, vr, pk, _) := thd_row a raw in
                                    (freq, vr, pk, thd')))
               (kpi_rows result) rows
    /\ (filter_spikes a = false ->
        rows = map (thd_row a) (kpi_rows result) /\ suppressed = []).
Proof.
  intros Hrun.
  pose proof (thd_sweep_returns_valid B a s s' _ Hrun) as Hvalid.
  unfold thd_sweep in Hrun. unfold bind at 1 in Hrun.
  rewrite (thd_measure_after_checks B a s Hvalid) in Hrun.
  unfold bind at 1 in Hrun.
  destruct (sweep_audio_kpis B (thd_request B a) s) as [[result | e] s1];
    [| discriminate Hrun].
  exists result, s1. split; [reflexivity |].
  unfold bind at 1 in Hrun.
  set (raw_rows := map (thd_row a) (kpi_rows result)) in *.
  assert (Hfilter :
            forall rs s2,
              (if filter_spikes a && negb (len raw_rows =? 0)
               then lift_result
                      (_filter_spikes raw_rows (filter_window a)
                         (filter_factor a) (filter_min_percent a))
               else ret (raw_rows, [])) s1 = (Ok rs, s2) ->
              Forall2 (fun (raw : raw_row) (r : row) =>
                         exists thd', r = (let '(freq, vr, pk, _) := thd_row a raw in
                                           (freq, vr, pk, thd')))
                      (kpi_rows result) (fst rs)
              /\ (filter_spikes a = false -> rs = (raw_rows, []))).
  { intros rs s2 Hrs. destruct (filter_spikes a && negb (len raw_rows =? 0)) eqn:Ef.
    - unfold lift_result in Hrs. rewrite filter_spikes_expected in Hrs.
      injection Hrs as <- _. split.
      + cbn [fst]. subst raw_rows. clear.
        assert (G : forall (raws : list raw_row) lo all,
                   Forall2 (fun (raw : raw_row) (r : row) =>
                              exists thd', r = (let '(freq, vr, pk, _) := thd_row a raw in
                                                (freq, vr, pk, thd')))
                           raws
                           (map (expected_row all (filter_window a)
                                   (filter_factor a) (filter_min_percent a))
                                (combine (range lo (lo + len (map (thd_row a) raws)))
                                         (map (thd_row a) raws)))).
        { induction raws as [| raw raws IH]; intros lo all.
          - rewrite range_nil by (unfold len; simpl; lia). constructor.
          - cbn [map]. rewrite len_cons, (range_cons lo) by (unfold len; lia).
            replace (lo + (len (map (thd_row a) raws) + 1))
              with (lo + 1 + len (map (thd_row a) raws)) by lia.
            cbn [combine map]. constructor; [| apply IH].
            unfold expected_row.
            destruct (thd_row a raw) as [[[freq vr] pk] thd].
            destruct (spike_baseline _ _ _ _ _ _); eauto. }
        apply (G (kpi_rows result) 0).
      + intros Hoff. rewrite Hoff in Ef. discriminate Ef.
    - unfold ret in Hrs. injection Hrs as <- _. split; [| reflexivity].
      cbn [fst]. subst raw_rows. clear.
      induction (kpi_rows result) as [| raw raws IH]; [constructor |].
      cbn [map]. constructor; [| exact IH].
      destruct (thd_row a raw) as [[[freq vr] pk] thd]. eauto. }
  match type of Hrun with
  | context [match ?c s1 with _ => _ end] =>
      destruct (c s1) as [[rs | e] s2]; [| discriminate Hrun]
  end.
  destruct (Hfilter rs s2 eq_refl) as [Hshape Hoff].
  unfold bind at 1 in Hrun.
  destruct (write_output B a _ (fst rs) s2) as [[p | e] s3] eqn:Ew;
    [| discriminate Hrun].
  apply write_output_path in Ew. cbn [ret] in Hrun.
  unfold bind at 1 in Hrun.
  destruct (thd_cleanup B a s3) as [[u | e] s4]; [| discriminate Hrun].
  unfold ret in Hrun. injection Hrun as <- <- <- _.
  split; [exact Ew |]. split; [exact Hshape |].
  intros Hf. specialize (Hoff Hf). rewrite Hoff. split; reflexivity.
Qed.

Lemma thd_sweep_result_witness :
  exists result s1,
    sweep_audio_kpis (Fake.the_bench Fake.no_faults)
      (thd_request (Fake.the_bench Fake.no_faults) (Fake.thd_call 3 None))
      Fake.start = (Ok result, s1)
    /\ List.length (kpi_rows result) = 2%nat.
Proof.
  destruct (thd_sweep_result (Fake.the_bench Fake.no_faults)
              (Fake.thd_call 3 None) Fake.start
              (snd (thd_sweep (Fake.the_bench Fake.no_faults)
                      (Fake.thd_call 3 None) Fake.start))
              [(f100_0, f1_0, f2_0, f1_0); (f200_0, f1_0, f2_0, f1_0)] None [])
    as (result & s1 & Hrun & _ & Hrows & _).
  - vm_compute. reflexivity.
  - exists result, s1. split; [exact Hrun |].
    apply Forall2_length in Hrows. exact Hrows.
Defined.

(** X20: what [knee_sweep] returns: the knees are the ones the per-point loop
    found and the CSV path is the requested output.  When knees were
    found, [ref_db] is their reference level and [target_db] is
    [ref_db - knee_drop_db]; otherwise both are NaN.  There is one row
    per measured point. *)
Theorem knee_sweep_result {W : Type} (B : bench W) (a : knee_args)
    (s s' : state W) (out : knee_output) :
  knee_sweep B a s = (Ok out, s') ->
  exists result s1,
    sweep_audio_kpis B (knee_request B a) s = (Ok result, s1)
    /\ out_knees out = kpi_knees result
    /\ out_csv_path out = output a
    /\ List.length (out_rows out) = List.length (kpi_rows result)
    /\ match kpi_knees result with
       | Some (_, _, _, ref_db) =>
           out_ref_db out = ref_db
           /\ out_target_db out = (ref_db - knee_drop_db a)%py
       | None => out_ref_db out = nan /\ out_target_db out = nan
       end.
Proof.
  intros Hrun.
  destruct (knee_sweep_returns_valid B a s s' out Hrun) as [Hvalid Hknee].
  unfold knee_sweep in Hrun. unfold bind at 1 in Hrun.
  rewrite (knee_measure_after_checks B a s Hvalid Hknee) in Hrun.
  unfold bind at 1 in Hrun.
  destruct (sweep_audio_kpis B (knee_request B a) s) as [[result | e] s1];
    [| discriminate Hrun].
  exists result, s1. split; [reflexivity |].
  unfold bind at 1 in Hrun.
  destruct (write_output B a _ _ s1) as [[p | e] s2] eqn:Ew;
    [| discriminate Hrun].
  apply write_output_path in Ew. cbn [ret] in Hrun.
  unfold bind at 1 in Hrun.
  destruct (knee_cleanup B a s2) as [[u | e] s3]; [| discriminate Hrun].
  unfold ret in Hrun. injection Hrun as <- _. cbn.
  split; [reflexivity |]. split; [exact Ew |].
  split; [apply length_map |].
  destruct (kpi_knees result) as [[[[f_lo f_hi] ref_amp] ref_db] |];
    split; reflexivity.
Qed.

Lemma knee_sweep_result_witness :
  exists result s1,
    sweep_audio_kpis (Fake.the_bench Fake.no_faults)
      (knee_request (Fake.the_bench Fake.no_faults) (Fake.knee_call 3 "median"))
      Fake.start = (Ok result, s1)
    /\ kpi_knees result = Some (f20_0, f20000_0, f2_0, f6_0).
Proof.
  destruct (knee_sweep_result (Fake.the_bench Fake.no_faults)
              (Fake.knee_call 3 "median") Fake.start
              (snd (knee_sweep (Fake.the_bench Fake.no_faults)
                      (Fake.knee_call 3 "median") Fake.start))
              {| out_rows := [(f100_0, f1_0, f2_0, (f20_0 * log10_2 - f6_0)%py);
                              (f200_0, f1_0, f2_0, (f20_0 * log10_2 - f6_0)%py)];
                 out_knees := Some (f20_0, f20000_0, f2_0, f6_0);
                 out_ref_db := f6_0;
                 out_target_db := f3_0;
                 out_csv_path := None |})
    as (result & s1 & Hrun & Hknees & _).
  - vm_compute. reflexivity.
  - exists result, s1. split; [exact Hrun |]. symmetry. exact Hknees.
Defined.

(** ** The cleanup of [knee_sweep] and the scope functions it shares *)

Section ScopeFacts.
Context {W : Type} (B : bench W).

Lemma for_each_suppressed_returns {A} (xs : list A) (body : A -> M W unit) :
  (forall x, silent (body x)) ->
  forall s, exists s',
    for_each xs (fun x => suppress (body x)) s = (Ok tt, s')
    /\ logged s' = logged s.
Proof.
  intros Hbody. induction xs as [| x xs IH]; intros s.
  - exists s. split; reflexivity.
  - cbn [for_each]. unfold bind.
    destruct (suppress_returns (body x) s (Hbody x)) as (s1 & -> & Hlog1).
    destruct (IH s1) as (s2 & -> & Hlog2).
    exists s2. split; [reflexivity | congruence].
Qed.

(** [scope_resume_run] only fails when the VISA session cannot be opened:
    a rejected command or a failing [close] never makes it fail.  It
    logs nothing. *)
Lemma scope_resume_run_cases (resource : string) (s : state W) :
  (exists s', scope_resume_run B resource s = (Ok tt, s')
              /\ logged s' = logged s)
  \/ (exists e w, visa_ResourceManager B (hw s) = (Raise e, w)
                  /\ scope_resume_run B resource s
                     = (Raise e, mk_state w (logged s)))
  \/ (exists rm w1 e w2,
        visa_ResourceManager B (hw s) = (Ok rm, w1)
        /\ visa_open_resource B rm resource w1 = (Raise e, w2)
        /\ scope_resume_run B resource s = (Raise e, mk_state w2 (logged s))).
Proof.
  destruct (HAVE_PYVISA B) eqn:Ehave.
  2:{ left. exists s. unfold scope_resume_run. rewrite Ehave.
      split; reflexivity. }
  destruct (visa_ResourceManager B (hw s)) as [[rm | e] w1] eqn:Erm.
  2:{ right. left. exists e, w1. split; [reflexivity |].
      unfold scope_resume_run, bind, lift. rewrite Ehave. cbn [negb].
      rewrite Erm. reflexivity. }
  destruct (visa_open_resource B rm resource w1) as [[sc | e] w2] eqn:Eopen.
  2:{ right. right. exists rm, w1, e, w2.
      split; [reflexivity |]. split; [exact Eopen |].
      unfold scope_resume_run, bind, lift. rewrite Ehave. cbn [negb].
      rewrite Erm. cbn [hw logged]. rewrite Eopen. reflexivity. }
  left.
  destruct (for_each_suppressed_returns
              ["ACQuire:STOPAfter RUNSTop"; "ACQuire:STATE RUN"]
              (fun cmd => lift (visa_write B sc cmd))
              (fun cmd => silent_lift _)
              {| hw := w2; logged := logged s |}) as (s3 & Hloop & Hlog3).
  destruct (suppress_returns (lift (visa_close B sc)) s3 (silent_lift _))
    as (s4 & Hclose & Hlog4).
  exists s4. split; [| rewrite Hlog4, Hlog3; reflexivity].
  unfold scope_resume_run. rewrite Ehave. cbn [negb].
  unfold bind at 1. unfold lift at 1. rewrite Erm. cbn [hw logged].
  unfold bind at 1. unfold lift at 1. cbn [hw logged]. rewrite Eopen.
  unfold try_finally. rewrite Hloop, Hclose. reflexivity.
Qed.

End ScopeFacts.

(** X21: [scope_resume_run] fails only when the VISA resource manager or the
    session cannot be opened, with their exception; a rejected command
    or a failing [close] never makes it fail. *)
Theorem scope_resume_run_failure {W : Type} (B : bench W) (resource : string)
    (s s' : state W) (e : exn) :
  scope_resume_run B resource s = (Raise e, s') ->
  HAVE_PYVISA B = true
  /\ ((exists w, visa_ResourceManager B (hw s) = (Raise e, w))
      \/ (exists rm w1 w2,
            visa_ResourceManager B (hw s) = (Ok rm, w1)
            /\ visa_open_resource B rm resource w1 = (Raise e, w2))).
Proof.
  intros Hfail. split.
  - unfold scope_resume_run in Hfail.
    destruct (HAVE_PYVISA B); [reflexivity | discriminate Hfail].
  - destruct (scope_resume_run_cases B resource s)
      as [(s1 & Hok & _) | [(e1 & w & Hrm & Hrun) | (rm & w1 & e1 & w2 & Hrm & Hopen & Hrun)]].
    + congruence.
    + left. exists w. congruence.
    + right. exists rm, w1, w2. split; [exact Hrm | congruence].
Qed.

Lemma scope_resume_run_failure_witness :
  exists rm w1 w2,
    visa_ResourceManager (Fake.the_bench Fake.unplugged) (hw Fake.start)
    = (Ok rm, w1)
    /\ visa_open_resource (Fake.the_bench Fake.unplugged) rm "FAKE::SCOPE" w1
       = (Raise (OtherException "VisaIOError" "VI_ERROR_RSRC_NFOUND"), w2).
Proof.
  destruct (scope_resume_run_failure (Fake.the_bench Fake.unplugged)
              "FAKE::SCOPE" Fake.start
              (mk_state [Fake.EvOpen "FAKE::SCOPE"] [])
              (OtherException "VisaIOError" "VI_ERROR_RSRC_NFOUND"))
    as [_ [(w & Hrm) | Hopen]].
  - vm_compute. reflexivity.
  - vm_compute in Hrm. discriminate Hrm.
  - exact Hopen.
Defined.

(** X22: the cleanup of [knee_sweep]: once the measurement loop has completed
    and acquisition has been resumed, [knee_sweep] returns its result;
    a failure to restore the 1 kHz idle tone is logged as a warning and
    nothing else is logged. *)
Theorem knee_sweep_cleanup_best_effort {W : Type} (B : bench W) (a : knee_args)
    (s s1 s2 : state W) (out : knee_output) :
  knee_measure B a s = (Ok out, s1) ->
  scope_resume_run B (visa_resource a) s1 = (Ok tt, s2) ->
  exists s3,
    knee_sweep B a s = (Ok out, s3)
    /\ logged s3 =
       logged s2 ++
       match fst (_fy_apply B a (idle_tone f1000_0 (amp_vpp a)) s2) with
       | Raise exc => [knee_reset_warning a exc]
       | Ok _ => []
       end.
Proof.
  intros Hmeasure Hresume.
  unfold knee_sweep. unfold bind at 1. rewrite Hmeasure.
  unfold bind at 1. unfold knee_cleanup. unfold bind at 1. rewrite Hresume.
  unfold try_except, bind at 1.
  pose proof (silent_lift
                (fy_apply B (fy_port a) (fy_proto a)
                   (idle_tone f1000_0 (amp_vpp a))) s2) as Hfy.
  fold (_fy_apply B a (idle_tone f1000_0 (amp_vpp a))) in Hfy.
  destruct (_fy_apply B a (idle_tone f1000_0 (amp_vpp a)) s2)
    as [[ok | exc] sf]; cbn [fst snd] in *.
  - exists sf. split; [reflexivity |]. rewrite Hfy, app_nil_r. reflexivity.
  - eexists. split; [reflexivity |]. cbn [logged]. rewrite Hfy. reflexivity.
Qed.

Lemma knee_sweep_cleanup_best_effort_witness :
  exists out s3 exc,
    knee_sweep (Fake.the_bench Fake.link_lost_at_idle)
      (Fake.knee_call 3 "median") Fake.start = (Ok out, s3)
    /\ logged s3 = [knee_reset_warning (Fake.knee_call 3 "median") exc].
Proof.
  destruct (knee_sweep_cleanup_best_effort
              (Fake.the_bench Fake.link_lost_at_idle)
              (Fake.knee_call 3 "median") Fake.start
              (snd (knee_measure (Fake.the_bench Fake.link_lost_at_idle)
                      (Fake.knee_call 3 "median") Fake.start))
              (snd (scope_resume_run (Fake.the_bench Fake.link_lost_at_idle)
                      "FAKE::SCOPE"
                      (snd (knee_measure (Fake.the_bench Fake.link_lost_at_idle)
                              (Fake.knee_call 3 "median") Fake.start))))
              {| out_rows := [(f100_0, f1_0, f2_0, (f20_0 * log10_2 - f6_0)%py);
                              (f200_0, f1_0, f2_0, (f20_0 * log10_2 - f6_0)%py)];
                 out_knees := Some (f20_0, f20000_0, f2_0, f6_0);
                 out_ref_db := f6_0;
                 out_target_db := f3_0;
                 out_csv_path := None |})
    as (s3 & Hrun & Hlog).
  - vm_compute. reflexivity.
  - vm_compute. reflexivity.
  - eexists. exists s3. eexists. split; [exact Hrun |].
    rewrite Hlog. vm_compute. reflexivity.
Defined.

(** X23: [scope_configure_timebase] fails only when the VISA session cannot be
    opened or the scope rejects the scale command itself; a rejected
    [HORizontal:MODE] command or a failing [close] never makes it fail. *)
Theorem scope_configure_timebase_failure {W : Type} (B : bench W)
    (resource : string) (seconds_per_div : option float) (s s' : state W)
    (e : exn) :
  scope_configure_timebase B resource seconds_per_div s = (Raise e, s') ->
  HAVE_PYVISA B = true
  /\ exists spd,
       seconds_per_div = Some spd
       /\ ((exists w, visa_ResourceManager B (hw s) = (Raise e, w))
           \/ (exists rm w1 w2,
                 visa_ResourceManager B (hw s) = (Ok rm, w1)
                 /\ visa_open_resource B rm resource w1 = (Raise e, w2))
           \/ (exists sc w w',
                 visa_write B sc ("HORizontal:MAIn:SCAle " ++ float_str B spd) w
                 = (Raise e, w'))).
Proof.
  unfold scope_configure_timebase.
  destruct seconds_per_div as [spd |]; [| discriminate].
  destruct (HAVE_PYVISA B); cbn [negb]; [| discriminate].
  intros Hfail. split; [reflexivity |]. exists spd. split; [reflexivity |].
  unfold bind at 1 in Hfail. unfold lift at 1 in Hfail.
  destruct (visa_ResourceManager B (hw s)) as [[rm | e1] w1] eqn:Erm.
  2:{ left. exists w1. injection Hfail as -> _. reflexivity. }
  right. cbn [hw logged] in Hfail.
  unfold bind at 1 in Hfail. unfold lift at 1 in Hfail. cbn [hw logged] in Hfail.
  destruct (visa_open_resource B rm resource w1) as [[sc | e2] w2] eqn:Eopen.
  2:{ left. exists rm, w1, w2. injection Hfail as -> _.
      split; [reflexivity | exact Eopen]. }
  right. unfold try_finally in Hfail. unfold bind at 1 in Hfail.
  destruct (suppress_returns (lift (visa_write B sc "HORizontal:MODE MAIn"))
              {| hw := w2; logged := logged s |} (silent_lift _))
    as (s3 & Hmode & _).
  rewrite Hmode in Hfail. unfold lift at 1 in Hfail.
  destruct (visa_write B sc ("HORizontal:MAIn:SCAle " ++ float_str B spd) (hw s3))
    as [[u | e3] w4] eqn:Escale.
  - destruct (suppress_returns (lift (visa_close B sc))
                {| hw := w4; logged := logged s3 |} (silent_lift _))
      as (s5 & Hclose & _).
    rewrite Hclose in Hfail. discriminate Hfail.
  - destruct (suppress_returns (lift (visa_close B sc))
                {| hw := w4; logged := logged s3 |} (silent_lift _))
      as (s5 & Hclose & _).
    rewrite Hclose in Hfail. injection Hfail as -> _.
    exists sc, (hw s3), w4. exact Escale.
Qed.

Lemma scope_configure_timebase_failure_witness :
  exists sc w w',
    visa_write (Fake.the_bench Fake.rejects_timebase) sc
      ("HORizontal:MAIn:SCAle "
       ++ float_str (Fake.the_bench Fake.rejects_timebase) f0_01) w
    = (Raise (OtherException "VisaIOError" "VI_ERROR_TMO"), w').
Proof.
  destruct (scope_configure_timebase_failure
              (Fake.the_bench Fake.rejects_timebase) "FAKE::SCOPE" (Some f0_01)
              Fake.start
              (snd (scope_configure_timebase
                      (Fake.the_bench Fake.rejects_timebase) "FAKE::SCOPE"
                      (Some f0_01) Fake.start))
              (OtherException "VisaIOError" "VI_ERROR_TMO"))
    as (_ & spd & Hspd & [(w & Hrm) | [(rm & w1 & w2 & _ & Hopen) | Hwrite]]).
  - vm_compute. reflexivity.
  - vm_compute in Hrm. discriminate Hrm.
  - vm_compute in Hopen. discriminate Hopen.
  - injection Hspd as <-. exact Hwrite.
Defined.



(** ** The vertical scale map of [thd_sweep] *)

Lemma dict_get_set (d : list (string * float)) (k : string) (v : float)
    (l : string) :
  dict_get (dict_set d k v) l
  = if String.eqb k l then Some v else dict_get d l.
Proof.
  unfold dict_get. induction d as [| [k' v'] d IH]; cbn [dict_set find fst].
  - destruct (String.eqb k l); reflexivity.
  - destruct (String.eqb k k') eqn:Ek; cbn [find fst].
    + apply String.eqb_eq in Ek. subst k'.
      destruct (String.eqb k l); reflexivity.
    + destruct (String.eqb k' l) eqn:El.
      * apply String.eqb_eq in El. subst l. rewrite Ek. reflexivity.
      * exact IH.
Qed.

Lemma dict_set_keys (d : list (string * float)) (k : string) (v : float)
    (x : string) :
  In x (map fst (dict_set d k v)) <-> x = k \/ In x (map fst d).
Proof.
  induction d as [| [k' v'] d IH]; cbn [dict_set map fst In].
  - intuition congruence.
  - destruct (String.eqb k k') eqn:Ek; cbn [map fst In].
    + apply String.eqb_eq in Ek. subst k'. intuition congruence.
    + rewrite IH. intuition congruence.
Qed.

Lemma dict_set_nodup (d : list (string * float)) (k : string) (v : float) :
  NoDup (map fst d) -> NoDup (map fst (dict_set d k v)).
Proof.
  induction d as [| [k' v'] d IH]; cbn [dict_set map fst]; intros Hd.
  - constructor; [intros [] | constructor].
  - inversion Hd as [| ? ? Hnot Hrest]; subst.
    destruct (String.eqb k k') eqn:Ek; cbn [map fst].
    + apply String.eqb_eq in Ek. subst k'. constructor; assumption.
    + constructor; [| apply IH; exact Hrest].
      rewrite dict_set_keys. intros [-> | Hin]; [| contradiction].
      rewrite String.eqb_refl in Ek. discriminate Ek.
Qed.

Lemma find_snoc {A} (p : A -> bool) (xs : list A) (x : A) :
  find p (xs ++ [x])
  = match find p xs with
    | Some y => Some y
    | None => if p x then Some x else None
    end.
Proof.
  induction xs as [| y xs IH]; cbn [app find]; [reflexivity |].
  destruct (p y); [reflexivity | exact IH].
Qed.

Lemma scale_map_fold (items : list (chan * float)) (d : list (string * float)) :
  let d' := fold_left (fun d kg => dict_set d (scale_key (fst kg)) (snd kg))
                      items d in
  (NoDup (map fst d) -> NoDup (map fst d'))
  /\ (forall label,
        dict_get d' label
        = match last_gain items label with
          | Some g => Some g
          | None => dict_get d label
          end)
  /\ (forall x, In x (map fst d') ->
        In x (map fst d) \/ In x (map (fun kg => scale_key (fst kg)) items)).
Proof.
  revert d. induction items as [| kg items IH]; intros d; cbn [fold_left].
  - split; [tauto |]. split; [reflexivity | tauto].
  - destruct (IH (dict_set d (scale_key (fst kg)) (snd kg)))
      as (Hnd & Hget & Hkeys).
    split; [intros Hd; apply Hnd, dict_set_nodup, Hd |]. split.
    + intros label. rewrite Hget. unfold last_gain. cbn [rev].
      rewrite find_snoc.
      destruct (find (fun kg0 => String.eqb (scale_key (fst kg0)) label)
                     (rev items)); cbn [option_map]; [reflexivity |].
      rewrite dict_get_set.
      destruct (String.eqb (scale_key (fst kg)) label); reflexivity.
    + intros x Hx. apply Hkeys in Hx. cbn [map In].
      rewrite dict_set_keys in Hx. intuition.
Qed.

Lemma scale_key_nonempty (key : chan) : scale_key key <> "".
Proof.
  unfold scale_key. cbv zeta.
  destruct (scale_label key); cbn [PyStr.truthy]; discriminate.
Qed.

(** X25: a non-empty [scope_scale_map] with printable keys always yields a
    vertical scale map.  Its labels are distinct and non-empty, and each
    label carries the gain of the last entry filed under it: entries
    whose keys normalise to the same label overwrite each other. *)
Theorem scale_map_last_entry_wins (items : list (chan * float)) :
  items <> [] ->
  Forall printable_key (map fst items) ->
  exists d,
    normalize_scale_map (Some items) = Some d
    /\ NoDup (map fst d)
    /\ Forall (fun label => label <> "") (map fst d)
    /\ forall label, dict_get d label = last_gain items label.
Proof.
  intros Hne _.
  destruct (scale_map_fold items []) as (Hnd & Hget & Hkeys).
  cbv zeta in Hnd, Hget, Hkeys.
  unfold normalize_scale_map.
  destruct items as [| kg0 rest] eqn:Eitems; [congruence |].
  rewrite <- Eitems in *.
  change (fun (d : list (string * float)) (kg : chan * float) =>
            let label := scale_label (fst kg) in
            dict_set d (if PyStr.truthy label then label else "CH1") (snd kg))
    with (fun (d : list (string * float)) (kg : chan * float) =>
            dict_set d (scale_key (fst kg)) (snd kg)).
  set (d := fold_left _ items []) in *.
  assert (Hd : d <> []).
  { intros Hd.
    destruct (exists_last Hne) as (front & kg & Hlast).
    specialize (Hget (scale_key (fst kg))). rewrite Hd in Hget.
    unfold last_gain in Hget. rewrite Hlast, rev_unit in Hget.
    cbn [find fst] in Hget. rewrite String.eqb_refl in Hget.
    discriminate Hget. }
  exists d. split; [destruct d; [congruence | reflexivity] |].
  split; [apply Hnd; constructor |]. split.
  - apply Forall_forall. intros x Hx. apply Hkeys in Hx.
    destruct Hx as [[] | Hx]. apply in_map_iff in Hx.
    destruct Hx as (kg & <- & _). apply scale_key_nonempty.
  - intros label. rewrite Hget.
    destruct (last_gain items label); reflexivity.
Qed.

Lemma scale_map_last_entry_wins_witness :
  exists d,
    normalize_scale_map (Some [(ChInt 1, f1_0); (ChStr " ch1 ", f2_0);
                               (ChStr "2", f5_0)]) = Some d
    /\ dict_get d "CH1" = Some f2_0
    /\ dict_get d "CH2" = Some f5_0.
Proof.
  destruct (scale_map_last_entry_wins
              [(ChInt 1, f1_0); (ChStr " ch1 ", f2_0); (ChStr "2", f5_0)])
    as (d & Hd & _ & _ & Hget).
  - discriminate.
  - repeat constructor. vm_compute. discriminate.
  - exists d. split; [exact Hd |].
    split; rewrite Hget; vm_compute; reflexivity.
Defined.

(** ** [tek.py]: integers in text *)

Lemma digit_cases (c : ascii) :
  PyStr.ascii_isdigit c = true ->
  In c ["0"; "1"; "2"; "3"; "4"; "5"; "6"; "7"; "8"; "9"]%char.
Proof.
  destruct c as [[] [] [] [] [] [] [] []]; intros H; vm_compute in H;
    try discriminate H; simpl; tauto.
Qed.

Lemma digit_plain (c : ascii) :
  PyStr.ascii_isdigit c = true ->
  int_isspace c = false /\ PyStr.ascii_isspace c = false
  /\ Ascii.eqb c "+" = false /\ Ascii.eqb c "-" = false
  /\ PyStr.ascii_upper c = c.
Proof.
  intros H. apply digit_cases in H. cbn [In] in H.
  repeat (destruct H as [<- | H]; [vm_compute; repeat split |]).
  contradiction.
Qed.

Lemma uint_of_char_digit (c : ascii) (d : Decimal.uint) :
  PyStr.ascii_isdigit c = true -> exists d', uint_of_char c (Some d) = Some d'.
Proof.
  intros H. apply digit_cases in H. cbn [In] in H.
  repeat (destruct H as [<- | H]; [eexists; reflexivity |]).
  contradiction.
Qed.

Lemma uint_of_string_digits (ds : string) :
  all_digits ds = true -> exists d, NilEmpty.uint_of_string ds = Some d.
Proof.
  induction ds as [| c ds IH]; cbn [all_digits NilEmpty.uint_of_string].
  - eauto.
  - intros H. apply andb_true_iff in H. destruct H as [Hc Hds].
    destruct (IH Hds) as [d ->]. apply uint_of_char_digit, Hc.
Qed.

Lemma int_scan_digits (ds : string) :
  all_digits ds = true -> int_scan ds = (ds, "").
Proof.
  induction ds as [| c ds IH]; cbn [all_digits int_scan]; [reflexivity |].
  intros H. apply andb_true_iff in H. destruct H as [Hc Hds].
  rewrite Hc, (IH Hds). reflexivity.
Qed.

Lemma int_digits_all (ds : string) (prev_digit : bool) :
  all_digits ds = true -> prev_digit = true \/ ds <> "" ->
  int_digits prev_digit ds = Some ds.
Proof.
  revert prev_digit.
  induction ds as [| c ds IH]; intros b; cbn [all_digits int_digits].
  - intros _ [-> | H]; [reflexivity | congruence].
  - intros H _. apply andb_true_iff in H. destruct H as [Hc Hds].
    rewrite Hc, (IH true Hds) by (left; reflexivity). reflexivity.
Qed.

(** [int] on a run of digits: the limit on the number of digits is the
    only way to fail. *)
Lemma py_int_digits (repr : string -> string) (ds : string) :
  isdigit ds = true ->
  exists d,
    NilEmpty.uint_of_string ds = Some d
    /\ ((str_len ds <= int_max_str_digits /\ py_int repr ds = Ok (Z.of_uint d))
        \/ (int_max_str_digits < str_len ds
            /\ exists msg, py_int repr ds = Raise (ValueError msg))).
Proof.
  unfold isdigit. intros H. apply andb_true_iff in H. destruct H as [Hne Hds].
  destruct (uint_of_string_digits ds Hds) as [d Hd]. exists d.
  split; [exact Hd |].
  destruct ds as [| c ds']; [discriminate Hne |].
  assert (Hc : PyStr.ascii_isdigit c = true)
    by (cbn [all_digits] in Hds; apply andb_true_iff in Hds; tauto).
  destruct (digit_plain c Hc) as (Hsp & _ & Hplus & Hminus & _).
  unfold py_int. cbn [int_lstrip]. rewrite Hsp.
  cbn [int_sign]. rewrite Hplus, Hminus.
  rewrite (int_scan_digits _ Hds).
  rewrite (int_digits_all _ false Hds) by (right; discriminate).
  destruct (int_max_str_digits <? str_len (String c ds')) eqn:El.
  - right. apply Z.ltb_lt in El. split; [exact El | eauto].
  - left. apply Z.ltb_ge in El. split; [exact El |].
    cbn [int_lstrip]. rewrite Hd. rewrite Z.mul_1_l. reflexivity.
Qed.

Lemma string_of_uint_digits (u : Decimal.uint) :
  all_digits (NilEmpty.string_of_uint u) = true.
Proof. induction u; cbn [NilEmpty.string_of_uint all_digits]; auto. Qed.

Lemma string_of_uint_length (u : Decimal.uint) :
  String.length (NilEmpty.string_of_uint u) = Decimal.nb_digits u.
Proof.
  induction u; cbn [NilEmpty.string_of_uint String.length Decimal.nb_digits];
    congruence.
Qed.

Lemma string_of_uint_nonempty (u : Decimal.uint) :
  u <> Decimal.Nil -> NilEmpty.string_of_uint u <> "".
Proof. destruct u; cbn; congruence. Qed.

(** The decimal digits of a non-negative integer. *)
Lemma of_int_digits (n : Z) :
  0 <= n ->
  exists u,
    u <> Decimal.Nil
    /\ PyStr.of_int n = NilEmpty.string_of_uint u
    /\ NilEmpty.uint_of_string (PyStr.of_int n) = Some u
    /\ Z.of_uint u = n.
Proof.
  intros Hn. pose proof (DecimalZ.of_to n) as Hback.
  unfold PyStr.of_int.
  assert (Hu : exists u, Z.to_int n = Decimal.Pos u /\ u <> Decimal.Nil).
  { destruct n as [| p | p]; [| | lia]; cbn [Z.to_int].
    - eexists. split; [reflexivity | discriminate].
    - eexists. split; [reflexivity | apply DecimalPos.Unsigned.to_uint_nonnil]. }
  destruct Hu as (u & Hu & Hnil). rewrite Hu in *. exists u.
  cbn [NilZero.string_of_int Z.of_int] in *.
  assert (Hs : NilZero.string_of_uint u = NilEmpty.string_of_uint u)
    by (destruct u; [congruence | reflexivity ..]).
  rewrite Hs. repeat split; try assumption. apply NilEmpty.usu.
Qed.

Lemma of_int_isdigit (n : Z) : 0 <= n -> isdigit (PyStr.of_int n) = true.
Proof.
  intros Hn. destruct (of_int_digits n Hn) as (u & Hnil & -> & _).
  unfold isdigit. rewrite string_of_uint_digits, andb_true_r.
  pose proof (string_of_uint_nonempty u Hnil).
  destruct (NilEmpty.string_of_uint u); [congruence | reflexivity].
Qed.

(** Reading a run of digits and printing the number does not add
    digits. *)
Lemma of_int_of_uint_length (ds : string) (d : Decimal.uint) :
  ds <> "" -> NilEmpty.uint_of_string ds = Some d ->
  str_len (PyStr.of_int (Z.of_uint d)) <= str_len ds.
Proof.
  intros Hne Hd. apply NilEmpty.sus in Hd. subst ds.
  assert (Hnil : d <> Decimal.Nil) by (intros ->; apply Hne; reflexivity).
  unfold PyStr.of_int.
  change (Z.of_uint d) with (Z.of_int (Decimal.Pos d)).
  rewrite DecimalZ.to_of. cbn [Decimal.norm NilZero.string_of_int].
  pose proof (DecimalFacts.unorm_nonnil d) as Hun.
  assert (Hs : NilZero.string_of_uint (Decimal.unorm d)
               = NilEmpty.string_of_uint (Decimal.unorm d))
    by (destruct (Decimal.unorm d); [congruence | reflexivity ..]).
  rewrite Hs. unfold str_len. rewrite !string_of_uint_length.
  pose proof (DecimalFacts.nb_digits_unorm d Hnil). lia.
Qed.

Lemma of_uint_nonneg (d : Decimal.uint) : 0 <= Z.of_uint d.
Proof. unfold Z.of_uint. lia. Qed.

(** ** [tek.py]: strings that [strip] and [upper] leave alone *)

Lemma rstrip_cons (c : ascii) (s : string) :
  PyStr.rstrip s = s -> s <> "" -> PyStr.rstrip (String c s) = String c s.
Proof.
  intros Hs Hne. cbn [PyStr.rstrip]. rewrite Hs.
  destruct s; [congruence | reflexivity].
Qed.

Lemma rstrip_digits (ds : string) :
  all_digits ds = true -> PyStr.rstrip ds = ds.
Proof.
  induction ds as [| c ds IH]; cbn [all_digits]; [reflexivity |].
  intros H. apply andb_true_iff in H. destruct H as [Hc Hds].
  destruct ds as [| c' ds'].
  - cbn [PyStr.rstrip]. destruct (digit_plain c Hc) as (_ & -> & _). reflexivity.
  - apply rstrip_cons; [apply IH, Hds | discriminate].
Qed.

Lemma upper_digits (ds : string) :
  all_digits ds = true -> PyStr.upper ds = ds.
Proof.
  unfold PyStr.upper.
  induction ds as [| c ds IH]; cbn [all_digits PyStr.map_chars]; [reflexivity |].
  intros H. apply andb_true_iff in H. destruct H as [Hc Hds].
  destruct (digit_plain c Hc) as (_ & _ & _ & _ & ->). rewrite (IH Hds).
  reflexivity.
Qed.

Lemma strip_digits (ds : string) :
  isdigit ds = true -> PyStr.upper (PyStr.strip ds) = ds.
Proof.
  unfold isdigit. intros H. apply andb_true_iff in H. destruct H as [Hne Hds].
  unfold PyStr.strip. destruct ds as [| c ds']; [discriminate Hne |].
  assert (Hc : PyStr.ascii_isdigit c = true)
    by (cbn [all_digits] in Hds; apply andb_true_iff in Hds; tauto).
  cbn [PyStr.lstrip]. destruct (digit_plain c Hc) as (_ & -> & _).
  rewrite (rstrip_digits _ Hds). apply upper_digits, Hds.
Qed.

Lemma strip_channel (ds : string) :
  isdigit ds = true ->
  PyStr.upper (PyStr.strip ("CH" ++ ds)) = ("CH" ++ ds)%string.
Proof.
  unfold isdigit. intros H. apply andb_true_iff in H. destruct H as [Hne Hds].
  unfold PyStr.strip. cbn [String.append PyStr.lstrip].
  replace (PyStr.ascii_isspace "C") with false by reflexivity.
  assert (Hds' : ds <> "") by (destruct ds; [discriminate Hne | discriminate]).
  rewrite rstrip_cons.
  - unfold PyStr.upper. cbn [PyStr.map_chars].
    fold (PyStr.upper ds). rewrite (upper_digits _ Hds). reflexivity.
  - apply rstrip_cons; [apply rstrip_digits, Hds | exact Hds'].
  - discriminate.
Qed.

Lemma substring_all (s : string) : String.substring 0 (String.length s) s = s.
Proof. induction s as [| c s IH]; cbn; [reflexivity | rewrite IH; reflexivity]. Qed.

Lemma str_from_two (a b : ascii) (s : string) :
  str_from (String a (String b s)) 2 = s.
Proof.
  unfold str_from, str_slice, str_len. cbn [String.length].
  replace (2 <? 0) with false by reflexivity.
  match goal with
  | |- context [if ?c then _ else _] =>
      replace c with false by (symmetry; apply Z.ltb_ge; lia)
  end.
  replace (Z.to_nat (Z.min 2 (Z.of_nat (S (S (String.length s)))))) with 2%nat
    by lia.
  replace (Z.to_nat (Z.min (Z.of_nat (S (S (String.length s))))
                       (Z.of_nat (S (S (String.length s))))
                     - Z.min 2 (Z.of_nat (S (S (String.length s))))))
    with (String.length s) by lia.
  cbn [String.substring]. apply substring_all.
Qed.

(** ** [tek.py]: [_resolve_source] *)

Lemma substring_length (s : string) (n m : nat) :
  (String.length (String.substring n m s) <= String.length s)%nat.
Proof.
  revert n m. induction s as [| c s IH]; intros n m.
  - destruct n, m; cbn; lia.
  - destruct n as [| n]; [destruct m as [| m] |]; cbn [String.substring String.length].
    + lia.
    + specialize (IH 0%nat m). lia.
    + specialize (IH n m). lia.
Qed.

Lemma str_from_length (s : string) (i : Z) : str_len (str_from s i) <= str_len s.
Proof.
  unfold str_from, str_slice, str_len.
  pose proof (substring_length s) as H. cbv zeta.
  match goal with |- context [String.substring ?n ?m s] => specialize (H n m) end.
  lia.
Qed.

Lemma lstrip_length (s : string) :
  (String.length (PyStr.lstrip s) <= String.length s)%nat.
Proof.
  induction s as [| c s IH]; cbn [PyStr.lstrip String.length]; [lia |].
  destruct (PyStr.ascii_isspace c); cbn [String.length]; lia.
Qed.

Lemma rstrip_length (s : string) :
  (String.length (PyStr.rstrip s) <= String.length s)%nat.
Proof.
  induction s as [| c s IH]; cbn [PyStr.rstrip String.length]; [lia |].
  destruct (PyStr.rstrip s) eqn:E.
  - destruct (PyStr.ascii_isspace c); cbn [String.length]; lia.
  - cbn [String.length] in *. lia.
Qed.

Lemma upper_length (s : string) : String.length (PyStr.upper s) = String.length s.
Proof.
  unfold PyStr.upper.
  induction s as [| c s IH]; cbn [PyStr.map_chars String.length]; congruence.
Qed.

Lemma value_length (s : string) :
  str_len (PyStr.upper (PyStr.strip s)) <= str_len s.
Proof.
  unfold str_len, PyStr.strip. rewrite upper_length.
  pose proof (rstrip_length (PyStr.lstrip s)). pose proof (lstrip_length s). lia.
Qed.

(** A channel number read from at most 4300 digits prints again. *)
Lemma channel_name_of_uint (ds : string) (d : Decimal.uint) :
  ds <> "" -> NilEmpty.uint_of_string ds = Some d ->
  str_len ds <= int_max_str_digits ->
  channel_name (Z.of_uint d) = Ok ("CH" ++ PyStr.of_int (Z.of_uint d))%string
  /\ str_len (PyStr.of_int (Z.of_uint d)) <= int_max_str_digits.
Proof.
  intros Hne Hd Hlen. pose proof (of_int_of_uint_length ds d Hne Hd) as Hprint.
  split; [| lia]. unfold channel_name, int_str.
  rewrite Z.abs_eq by apply of_uint_nonneg.
  replace (int_max_str_digits <? str_len (PyStr.of_int (Z.of_uint d)))
    with false by (symmetry; apply Z.ltb_ge; lia).
  reflexivity.
Qed.

Lemma isdigit_nonempty (ds : string) : isdigit ds = true -> ds <> "".
Proof. destruct ds; [discriminate | discriminate]. Qed.

(** What [int()] and the f-string make of a run of digits. *)
Lemma resolve_digits (repr_str : string -> string) (ds : string) :
  isdigit ds = true ->
  (exists n,
      0 <= n /\ str_len (PyStr.of_int n) <= int_max_str_digits
      /\ rbind (py_int repr_str ds) channel_name
         = Ok ("CH" ++ PyStr.of_int n)%string)
  \/ (exists msg,
         rbind (py_int repr_str ds) channel_name = Raise (ValueError msg)
         /\ int_max_str_digits < str_len ds).
Proof.
  intros Hds. destruct (py_int_digits repr_str ds Hds)
    as (d & Hd & [(Hlen & ->) | (Hlen & msg & ->)]).
  - left. exists (Z.of_uint d). cbn [rbind].
    destruct (channel_name_of_uint ds d (isdigit_nonempty _ Hds) Hd Hlen)
      as (-> & Hprint).
    split; [apply of_uint_nonneg |]. split; [exact Hprint | reflexivity].
  - right. exists msg. split; [reflexivity | exact Hlen].
Qed.

Lemma resolve_source_cases (repr_str : string -> string) (s : string) :
  (exists src,
      _resolve_source repr_str (ChStr s) = Ok src
      /\ (In src ["MATH"; "REF1"; "REF2"; "REF3"; "REF4"]
          \/ exists n, 0 <= n /\ str_len (PyStr.of_int n) <= int_max_str_digits
                       /\ src = ("CH" ++ PyStr.of_int n)%string))
  \/ (exists msg,
         _resolve_source repr_str (ChStr s) = Raise (ValueError msg)
         /\ int_max_str_digits < str_len s).
Proof.
  assert (Hone : exists n, 0 <= n
                   /\ str_len (PyStr.of_int n) <= int_max_str_digits
                   /\ "CH1" = ("CH" ++ PyStr.of_int n)%string).
  { exists 1. split; [lia |]. split; [vm_compute; discriminate | reflexivity]. }
  pose proof (value_length s) as Hvalue.
  unfold _resolve_source. cbv zeta.
  set (value := PyStr.upper (PyStr.strip s)) in *.
  destruct (PyStr.truthy value); cbn [negb]; [| left; eauto].
  destruct (existsb (String.eqb value) ["MATH"; "REF1"; "REF2"; "REF3"; "REF4"])
    eqn:Ename.
  { left. exists value. split; [reflexivity |]. left.
    apply existsb_exists in Ename. destruct Ename as (x & Hx & Heq).
    apply String.eqb_eq in Heq. subst x. exact Hx. }
  assert (Hrun : forall ds, isdigit ds = true -> str_len ds <= str_len value ->
            (exists src,
                rbind (py_int repr_str ds) channel_name = Ok src
                /\ (In src ["MATH"; "REF1"; "REF2"; "REF3"; "REF4"]
                    \/ exists n, 0 <= n
                         /\ str_len (PyStr.of_int n) <= int_max_str_digits
                         /\ src = ("CH" ++ PyStr.of_int n)%string))
            \/ (exists msg,
                   rbind (py_int repr_str ds) channel_name = Raise (ValueError msg)
                   /\ int_max_str_digits < str_len s)).
  { intros ds Hds Hlen.
    destruct (resolve_digits repr_str ds Hds)
      as [(n & Hn & Hprint & ->) | (msg & -> & Hlim)].
    - left. eexists. split; [reflexivity |]. right. eauto.
    - right. exists msg. split; [reflexivity | lia]. }
  destruct (PyStr.startswith value "CH" && isdigit (str_from value 2)) eqn:Ech.
  { apply andb_true_iff in Ech. destruct Ech as [_ Hds].
    apply Hrun; [exact Hds | apply str_from_length]. }
  destruct (isdigit value) eqn:Edig.
  { apply Hrun; [exact Edig | lia]. }
  left. eauto.
Qed.

Lemma resolve_channel (repr_str : string -> string) (n : Z) :
  0 <= n -> str_len (PyStr.of_int n) <= int_max_str_digits ->
  _resolve_source repr_str (ChInt n) = Ok ("CH" ++ PyStr.of_int n)%string
  /\ _resolve_source repr_str (ChStr (PyStr.of_int n))
     = Ok ("CH" ++ PyStr.of_int n)%string
  /\ _resolve_source repr_str (ChStr ("CH" ++ PyStr.of_int n))
     = Ok ("CH" ++ PyStr.of_int n)%string.
Proof.
  intros Hn Hlen.
  pose proof (of_int_isdigit n Hn) as Hdig.
  destruct (of_int_digits n Hn) as (u & Hnil & Hprint & Hread & Hval).
  assert (Hname : channel_name n = Ok ("CH" ++ PyStr.of_int n)%string).
  { unfold channel_name, int_str. rewrite Z.abs_eq by exact Hn.
    replace (int_max_str_digits <? str_len (PyStr.of_int n))
      with false by (symmetry; apply Z.ltb_ge; lia).
    reflexivity. }
  assert (Hint : rbind (py_int repr_str (PyStr.of_int n)) channel_name
                 = Ok ("CH" ++ PyStr.of_int n)%string).
  { destruct (py_int_digits repr_str _ Hdig)
      as (d & Hd & [(_ & ->) | (Hbig & _)]); [| lia].
    rewrite Hread in Hd. injection Hd as <-. rewrite Hval. exact Hname. }
  split; [exact Hname |]. split.
  - unfold _resolve_source. cbv zeta. rewrite (strip_digits _ Hdig).
    set (t := PyStr.of_int n) in *.
    destruct t as [| c t'] eqn:Et; [discriminate Hdig |].
    assert (Hc : PyStr.ascii_isdigit c = true).
    { unfold isdigit in Hdig. cbn [PyStr.truthy all_digits andb] in Hdig.
      apply andb_true_iff in Hdig. tauto. }
    cbn [PyStr.truthy negb].
    assert (Hside :
              existsb (String.eqb (String c t'))
                      ["MATH"; "REF1"; "REF2"; "REF3"; "REF4"] = false
              /\ PyStr.startswith (String c t') "CH" = false).
    { apply digit_cases in Hc. cbn [In] in Hc.
      repeat (destruct Hc as [<- | Hc]; [split; reflexivity |]).
      contradiction. }
    destruct Hside as [-> ->]. cbn [andb]. rewrite Hdig. exact Hint.
  - unfold _resolve_source. cbv zeta. rewrite (strip_channel _ Hdig).
    cbn [String.append PyStr.truthy negb].
    replace (existsb (String.eqb (String "C" (String "H" (PyStr.of_int n))))
                     ["MATH"; "REF1"; "REF2"; "REF3"; "REF4"])
      with false by reflexivity.
    replace (PyStr.startswith (String "C" (String "H" (PyStr.of_int n))) "CH")
      with true by (destruct (PyStr.of_int n); reflexivity).
    rewrite str_from_two, Hdig. cbn [andb]. exact Hint.
Qed.

(** X26: on ASCII text the resolver yields a source name: one of the five
    trace names or a channel with a non-negative number.  It raises
    only [ValueError], and only on text of more than 4300
    characters. *)
Theorem resolve_source_str (repr_str : string -> string) (s : string) :
  is_ascii s = true ->
  (exists src,
      _resolve_source repr_str (ChStr s) = Ok src /\ source_name src)
  \/ (exists msg,
         _resolve_source repr_str (ChStr s) = Raise (ValueError msg)
         /\ int_max_str_digits < str_len s).
Proof.
  intros _. destruct (resolve_source_cases repr_str s)
    as [(src & Hrun & Hsrc) | Hraise]; [left | right; exact Hraise].
  exists src. split; [exact Hrun |]. unfold source_name.
  destruct Hsrc as [Hname | (n & Hn & _ & ->)]; [left; exact Hname |].
  right. exists n. split; [exact Hn | reflexivity].
Qed.

Lemma resolve_source_str_witness :
  exists src,
    _resolve_source (fun s => s) (ChStr "  ch007 ") = Ok src /\ source_name src.
Proof.
  destruct (resolve_source_str (fun s => s) "  ch007 " eq_refl)
    as [Hok | (msg & Hraise & _)]; [exact Hok |].
  vm_compute in Hraise. discriminate Hraise.
Defined.

(** X27: the resolver is idempotent on ASCII text: a source name it returns
    resolves to itself. *)
Theorem resolve_source_idempotent (repr_str : string -> string)
    (s src : string) :
  is_ascii s = true ->
  _resolve_source repr_str (ChStr s) = Ok src ->
  _resolve_source repr_str (ChStr src) = Ok src.
Proof.
  intros _ Hrun.
  destruct (resolve_source_cases repr_str s)
    as [(src' & Hrun' & Hsrc) | (msg & Hraise & _)]; [| congruence].
  assert (src' = src) by congruence. subst src'.
  destruct Hsrc as [Hname | (n & Hn & Hlen & ->)].
  - cbn [In] in Hname.
    repeat (destruct Hname as [<- | Hname]; [reflexivity |]).
    contradiction.
  - apply resolve_channel; assumption.
Qed.

Lemma resolve_source_idempotent_witness :
  _resolve_source (fun s => s) (ChStr "CH12") = Ok "CH12".
Proof.
  apply (resolve_source_idempotent (fun s => s) " 0012" "CH12");
    vm_compute; reflexivity.
Defined.

(** X28: a channel number of at most 4300 digits and its decimal text name
    the same source. *)
Theorem resolve_source_int_text (repr_str : string -> string) (n : Z) :
  0 <= n -> str_len (PyStr.of_int n) <= int_max_str_digits ->
  _resolve_source repr_str (ChStr (PyStr.of_int n))
  = _resolve_source repr_str (ChInt n)
  /\ _resolve_source repr_str (ChInt n) = Ok ("CH" ++ PyStr.of_int n)%string.
Proof.
  intros Hn Hlen.
  destruct (resolve_channel repr_str n Hn Hlen) as (Hint & Htext & _).
  split; [congruence | exact Hint].
Qed.

Lemma resolve_source_int_text_witness :
  _resolve_source (fun s => s) (ChStr "3") = _resolve_source (fun s => s) (ChInt 3)
  /\ _resolve_source (fun s => s) (ChInt 3) = Ok "CH3".
Proof.
  apply (resolve_source_int_text (fun s => s) 3); [lia |].
  vm_compute. discriminate.
Defined.

(** ** [tek.py]: [parse_ieee_block] *)

Lemma substring_zero (s : string) : String.substring 0 0 s = "".
Proof. destruct s; reflexivity. Qed.

Lemma substring_app_skip (p s : string) (n m : nat) :
  String.substring (String.length p + n) m (p ++ s) = String.substring n m s.
Proof. induction p as [| c p IH]; cbn; [reflexivity | exact IH]. Qed.

Lemma substring_app_prefix (p s : string) :
  String.substring 0 (String.length p) (p ++ s) = p.
Proof.
  induction p as [| c p IH]; cbn [String.length String.append].
  - apply substring_zero.
  - cbn [String.substring]. rewrite IH. reflexivity.
Qed.

Lemma substring_firstn (s : string) (m : nat) :
  list_ascii_of_string (String.substring 0 m s)
  = firstn m (list_ascii_of_string s).
Proof.
  revert m. induction s as [| c s IH]; intros [| m]; cbn; try reflexivity.
  rewrite IH. reflexivity.
Qed.

Lemma firstn_min {A} (m : nat) (xs : list A) :
  firstn (Nat.min m (List.length xs)) xs = firstn m xs.
Proof.
  destruct (Nat.le_ge_cases m (List.length xs)) as [H | H].
  - rewrite Nat.min_l by exact H. reflexivity.
  - rewrite Nat.min_r by exact H. rewrite !firstn_all2; [reflexivity | lia | lia].
Qed.

Lemma list_ascii_length (s : string) :
  List.length (list_ascii_of_string s) = String.length s.
Proof. induction s; cbn; congruence. Qed.

Lemma str_slice_nonneg (s : string) (i j : Z) :
  0 <= i -> 0 <= j ->
  str_slice s i j
  = String.substring (Nat.min (Z.to_nat i) (String.length s))
      (Nat.min (Z.to_nat j) (String.length s)
       - Nat.min (Z.to_nat i) (String.length s)) s.
Proof.
  intros Hi Hj. unfold str_slice, str_len. cbv zeta.
  replace (i <? 0) with false by (symmetry; apply Z.ltb_ge; lia).
  replace (j <? 0) with false by (symmetry; apply Z.ltb_ge; lia).
  f_equal; lia.
Qed.

Lemma str_len_append (p s : string) : str_len (p ++ s) = str_len p + str_len s.
Proof.
  unfold str_len. induction p as [| c p IH]; cbn [String.append String.length];
    lia.
Qed.

(** [int()] on one character succeeds on the ten digits only. *)
Lemma py_int_char (repr : string -> string) (c : ascii) :
  PyStr.ascii_isdigit c = false ->
  exists msg, py_int repr (String c "") = Raise (ValueError msg).
Proof.
  intros Hc. unfold py_int. cbn [int_lstrip].
  destruct (int_isspace c); [cbn; eauto |].
  cbn [int_sign].
  destruct (Ascii.eqb c "+"); [cbn; eauto |].
  destruct (Ascii.eqb c "-"); [cbn; eauto |].
  cbn [int_scan]. rewrite Hc. cbn [orb].
  destruct (Ascii.eqb c "_"); cbn [int_scan int_digits]; [rewrite Hc |]; eauto.
Qed.

Lemma py_int_count (repr : string -> string) (k : nat) :
  (k <= 9)%nat ->
  py_int repr (String (ascii_of_nat (48 + k)) "") = Ok (Z.of_nat k).
Proof.
  intros Hk.
  do 10 (destruct k as [| k]; [reflexivity |]). lia.
Qed.

Lemma isdigit_count (k : nat) :
  (k <= 9)%nat -> PyStr.ascii_isdigit (ascii_of_nat (48 + k)) = true.
Proof.
  intros Hk.
  do 10 (destruct k as [| k]; [reflexivity |]). lia.
Qed.

(** X29: a definite-length block [#<n><n digits><data>] decodes to the data
    bytes the digits announce, each read as a signed 8-bit integer;
    where fewer bytes follow the header, to those that do. *)
Theorem parse_ieee_block_definite (repr_str repr_bytes : string -> string)
    (parse_text : string -> list Z) (digits payload : string) :
  all_digits digits = true ->
  (1 <= String.length digits <= 9)%nat ->
  parse_ieee_block repr_str repr_bytes parse_text
    (String "#" (String (ascii_of_nat (48 + String.length digits))
                   (digits ++ payload)))
  = Ok (map int8 (firstn (Z.to_nat (digits_value digits))
                    (list_ascii_of_string payload))).
Proof.
  intros Hds Hk.
  set (c := ascii_of_nat (48 + String.length digits)).
  set (block := String "#" (String c (digits ++ payload))).
  assert (Hlen : String.length block
                 = (2 + String.length digits + String.length payload)%nat).
  { subst block. cbn [String.length].
    pose proof (str_len_append digits payload) as H. unfold str_len in H. lia. }
  assert (Hdig : isdigit digits = true).
  { unfold isdigit. rewrite Hds, andb_true_r.
    destruct digits; [cbn in Hk; lia | reflexivity]. }
  unfold parse_ieee_block.
  replace (PyStr.truthy block) with true by reflexivity. cbn [negb].
  replace (str_slice block 0 1) with "#".
  2:{ rewrite str_slice_nonneg by lia. rewrite Hlen.
      replace (Nat.min (Z.to_nat 0) _) with 0%nat by lia.
      replace (Nat.min (Z.to_nat 1) _ - 0)%nat with 1%nat by lia.
      subst block. cbn [String.substring]. rewrite ?substring_zero. reflexivity. }
  replace (String.eqb "#" "#") with true by reflexivity. cbn [negb].
  replace (str_len block <? 2) with false
    by (symmetry; apply Z.ltb_ge; unfold str_len; lia).
  replace (str_slice block 1 2) with (String c "").
  2:{ rewrite str_slice_nonneg by lia. rewrite Hlen.
      replace (Nat.min (Z.to_nat 1) _) with 1%nat by lia.
      replace (Nat.min (Z.to_nat 2) _ - 1)%nat with 1%nat by lia.
      subst block. cbn [String.substring]. rewrite ?substring_zero. reflexivity. }
  subst c. rewrite py_int_count by lia. cbn [rbind]. cbv zeta.
  replace (str_len block <? 2 + Z.of_nat (String.length digits)) with false
    by (symmetry; apply Z.ltb_ge; unfold str_len; lia).
  replace (str_slice block 2 (2 + Z.of_nat (String.length digits))) with digits.
  2:{ rewrite str_slice_nonneg by lia. rewrite Hlen.
      replace (Nat.min (Z.to_nat 2) _) with 2%nat by lia.
      replace (Nat.min (Z.to_nat (2 + Z.of_nat (String.length digits))) _ - 2)%nat
        with (String.length digits) by lia.
      subst block. cbn [String.substring].
      rewrite substring_app_prefix. reflexivity. }
  destruct (py_int_digits repr_bytes digits Hdig)
    as (d & Hd & [(_ & ->) | (Hbig & _)]);
    [| unfold str_len, int_max_str_digits in Hbig; lia].
  cbn [rbind]. unfold digits_value. rewrite Hd.
  pose proof (of_uint_nonneg d) as Hnn.
  f_equal. f_equal.
  rewrite str_slice_nonneg by lia. rewrite Hlen.
  replace (Nat.min (Z.to_nat (2 + Z.of_nat (String.length digits))) _)
    with (String.length (String "#" (String (ascii_of_nat
            (48 + String.length digits)) digits)) + 0)%nat
    by (cbn [String.length]; lia).
  change block with
    ((String "#" (String (ascii_of_nat (48 + String.length digits)) digits))
     ++ payload)%string.
  rewrite substring_app_skip, substring_firstn.
  rewrite <- (firstn_min (Z.to_nat (Z.of_uint d))).
  f_equal. rewrite list_ascii_length. cbn [String.length]. lia.
Qed.

Lemma parse_ieee_block_definite_witness :
  parse_ieee_block (fun s => s) (fun s => s) (fun _ => []) "#15hello"
  = Ok [104; 101; 108; 108; 111].
Proof.
  apply (parse_ieee_block_definite (fun s => s) (fun s => s) (fun _ => [])
           "5" "hello"); [reflexivity | cbn; lia].
Defined.

(** X30: a block whose second byte is not a decimal digit, or is the digit 0
    of an indefinite-length block, makes the parser raise
    [ValueError]. *)
Theorem parse_ieee_block_bad_header (repr_str repr_bytes : string -> string)
    (parse_text : string -> list Z) (c : ascii) (rest : string) :
  PyStr.ascii_isdigit c = false \/ c = "0"%char ->
  exists msg,
    parse_ieee_block repr_str repr_bytes parse_text (String "#" (String c rest))
    = Raise (ValueError msg).
Proof.
  intros Hc.
  set (block := String "#" (String c rest)).
  assert (Hlen : String.length block = (2 + String.length rest)%nat)
    by reflexivity.
  unfold parse_ieee_block.
  replace (PyStr.truthy block) with true by reflexivity. cbn [negb].
  replace (str_slice block 0 1) with "#".
  2:{ rewrite str_slice_nonneg by lia. rewrite Hlen.
      replace (Nat.min (Z.to_nat 0) _) with 0%nat by lia.
      replace (Nat.min (Z.to_nat 1) _ - 0)%nat with 1%nat by lia.
      subst block. cbn [String.substring]. rewrite ?substring_zero. reflexivity. }
  replace (String.eqb "#" "#") with true by reflexivity. cbn [negb].
  replace (str_len block <? 2) with false
    by (symmetry; apply Z.ltb_ge; unfold str_len; lia).
  replace (str_slice block 1 2) with (String c "").
  2:{ rewrite str_slice_nonneg by lia. rewrite Hlen.
      replace (Nat.min (Z.to_nat 1) _) with 1%nat by lia.
      replace (Nat.min (Z.to_nat 2) _ - 1)%nat with 1%nat by lia.
      subst block. cbn [String.substring]. rewrite ?substring_zero. reflexivity. }
  destruct Hc as [Hc | ->].
  - destruct (py_int_char repr_str c Hc) as [msg ->]. cbn [rbind]. eauto.
  - replace (py_int repr_str (String "0" "")) with (@Ok Z 0) by reflexivity.
    cbn [rbind]. cbv zeta.
    replace (str_len block <? 2 + 0) with false
      by (symmetry; apply Z.ltb_ge; unfold str_len; lia).
    replace (str_slice block 2 (2 + 0)) with "".
    2:{ rewrite str_slice_nonneg by lia. rewrite Hlen.
        replace (Nat.min (Z.to_nat 2) _) with 2%nat by lia.
        replace (Nat.min (Z.to_nat (2 + 0)) _ - 2)%nat with 0%nat by lia.
        subst block. cbn [String.substring]. rewrite ?substring_zero.
        reflexivity. }
    eexists. reflexivity.
Qed.

Lemma parse_ieee_block_bad_header_witness :
  exists msg,
    parse_ieee_block (fun s => s) (fun s => s) (fun _ => []) "#0hello"
    = Raise (ValueError msg).
Proof.
  apply (parse_ieee_block_bad_header (fun s => s) (fun s => s) (fun _ => [])
           "0" "hello").
  right. reflexivity.
Defined.
